(** * sysbox-runc: spec conversion and init-process launch

    A shallow embedding of the spec converter of package [syscont] (the
    conversion of an OCI spec into a system-container spec) and of
    [libcontainer/process_linux.go] (the parent side of the init and setns
    launches), with the properties of the written specification stated and
    settled against them.

    Conventions.
    - Go [uint32] values are [Z] with the wrap-around written out ([u32]).
    - Go [error] results are [result]: [Ok], [Err] or [Panic] (a run-time
      panic such as an index out of range or a nil dereference).
    - [mapset.Set] is [gset string]; the order in which a set is iterated is
      not fixed by Go, so it is a parameter ([setIter]).
    - Package-level tables that the code reassigns are the record [Globals],
      threaded through the conversion. *)

From stdpp Require Import base option list strings gmap sets sorting.
From Stdlib Require Import ZArith Lia.

Open Scope string_scope.
Open Scope list_scope.
Open Scope Z_scope.

(** ** Errors and results *)

(** Linux error numbers the launch code can observe. *)
Inductive errno := EBUSY | EPERM | EACCES | ENOENT | EINVAL | EIO.

(** A Go [error] value.  [ErrStr] is [fmt.Errorf]/[errors.New] with the fixed
    text of the message, [ErrCause] is a wrapped error
    ([fmt.Errorf("ctx: %v", err)] and [newSystemErrorWithCause(err, ctx)]);
    [ErrCauseNil] is [newSystemErrorWithCause(nil, ctx)], which is a non-nil
    error too. *)
Inductive error :=
| ErrErrno (e : errno)
| ErrStr (msg : string)
| ErrCause (ctx : string) (cause : error)
| ErrCauseNil (ctx : string).

Inductive result (A : Type) :=
| Ok (a : A)
| Err (e : error)
| Panic.
Arguments Ok {A} a.
Arguments Err {A} e.
Arguments Panic {A}.

#[global] Instance result_ret : MRet result := λ A a, Ok a.
#[global] Instance result_bind : MBind result := λ A B f r,
  match r with
  | Ok a => f a
  | Err e => Err e
  | Panic => Panic
  end.

(** [wrapErr ctx r]: [if err != nil { return fmt.Errorf("ctx: %v", err) }]. *)
Definition wrapErr {A} (ctx : string) (r : result A) : result A :=
  match r with
  | Err e => Err (ErrCause ctx e)
  | _ => r
  end.

Definition isOk {A} (r : result A) : Prop := ∃ a, r = Ok a.
Definition isErr {A} (r : result A) : Prop := ∃ e, r = Err e.

Definition u32 (z : Z) : Z := z mod 2 ^ 32.

(** ** Slice helpers of [sysbox-libs/utils] and [strings] *)

Module Utils.

(** [strings.HasPrefix(s, prefix)]. *)
Definition HasPrefix (s pre : string) : bool := String.prefix pre s.

(** [strings.Replace(s, old, new, 1)]: the first occurrence only. *)
Fixpoint Replace1 (s old new : string) : string :=
  if String.prefix old s
  then new +:+ String.substring (String.length old)
                 (String.length s - String.length old) s
  else match s with
       | EmptyString => EmptyString
       | String c s' => String c (Replace1 s' old new)
       end.

(** Modelled from the spec: [utils.StringSliceContains] of the package
    [sysbox-libs/utils], which is not under src/ (component "Set & slice
    utilities"): membership of a string in a slice. *)
Definition StringSliceContains (a : list string) (x : string) : bool :=
  existsb (λ n, bool_decide (x = n)) a.

(** Modelled from the spec: [utils.StringSliceRemove] of the package
    [sysbox-libs/utils], which is not under src/: the elements of [s] that
    do not occur in [db], in their order ("From masked_paths remove ..."). *)
Definition StringSliceRemove (s db : list string) : list string :=
  List.filter (λ x, negb (StringSliceContains db x)) s.

(** Modelled from the spec: [utils.StringSliceRemoveMatch], not under src/:
    the elements of [s] the predicate rejects. *)
Definition StringSliceRemoveMatch (s : list string) (matches : string → bool)
  : list string :=
  List.filter (λ x, negb (matches x)) s.

(** Modelled from the spec: [utils.MountSliceRemove], not under src/: the
    elements of [s] that [cmp] relates to no element of [db]. *)
Definition MountSliceRemove {M : Type} (s db : list M) (cmp : M → M → bool)
  : list M :=
  List.filter (λ m1, negb (existsb (λ m2, cmp m1 m2) db)) s.

End Utils.

(** ** The OCI runtime spec, as far as the converter reads or writes it *)

Record Mount := {
  Destination : string;
  Source : string;
  Mount_Type : string;
  Options : list string;
}.

(** [specs.LinuxIDMapping]: three [uint32] fields. *)
Record LinuxIDMapping := {
  ContainerID : Z;
  HostID : Z;
  Size : Z;
}.

Record LinuxNamespace := {
  Namespace_Type : string;
  Namespace_Path : string;
}.

Record LinuxSeccompArg := {
  Index : Z;
  Value : Z;
  ValueTwo : Z;
  Op : string;
}.

(** [Names] is a Go slice whose nil-ness the converter tests: [None] is the
    nil slice, [Some l] a non-nil slice (possibly of length 0). *)
Record LinuxSyscall := {
  Names : option (list string);
  Action : string;
  Syscall_Args : list LinuxSeccompArg;
}.

Record LinuxSeccomp := {
  DefaultAction : string;
  Architectures : list string;
  Syscalls : list LinuxSyscall;
}.

Record LinuxCapabilities := {
  Bounding : list string;
  Effective : list string;
  Inheritable : list string;
  Permitted : list string;
  Ambient : list string;
}.

Record User := {
  UID : Z;
  GID : Z;
}.

(** [Capabilities] and [OOMScoreAdj] are pointers in Go: [None] is [nil]. *)
Record Process := {
  Process_Args : list string;
  Env : list string;
  Process_User : User;
  Capabilities : option LinuxCapabilities;
  ApparmorProfile : string;
  OOMScoreAdj : option Z;
}.

Record Root := {
  Root_Path : string;
  Readonly : bool;
}.

Record Linux := {
  Namespaces : list LinuxNamespace;
  UIDMappings : list LinuxIDMapping;
  GIDMappings : list LinuxIDMapping;
  MaskedPaths : list string;
  ReadonlyPaths : list string;
  Seccomp : option LinuxSeccomp;
}.

(** [specs.Spec]; [Root], [Process] and [Linux] are pointers. *)
Record Spec := {
  Spec_Root : option Root;
  Spec_Process : option Process;
  Spec_Linux : option Linux;
  Mounts : list Mount;
}.

#[global] Instance Mount_eq_dec : EqDecision Mount.
Proof. solve_decision. Defined.
#[global] Instance LinuxIDMapping_eq_dec : EqDecision LinuxIDMapping.
Proof. solve_decision. Defined.

(** Field updates (assignments through the [*specs.Spec] pointer). *)
Definition setOptions (m : Mount) (o : list string) : Mount :=
  {| Destination := Destination m; Source := Source m;
     Mount_Type := Mount_Type m; Options := o |}.
Definition setSource (m : Mount) (s : string) : Mount :=
  {| Destination := Destination m; Source := s;
     Mount_Type := Mount_Type m; Options := Options m |}.
Definition setNames (sc : LinuxSyscall) (n : option (list string)) : LinuxSyscall :=
  {| Names := n; Action := Action sc; Syscall_Args := Syscall_Args sc |}.
Definition setArgs (sc : LinuxSyscall) (a : list LinuxSeccompArg) : LinuxSyscall :=
  {| Names := Names sc; Action := Action sc; Syscall_Args := a |}.
Definition setSyscalls (s : LinuxSeccomp) (l : list LinuxSyscall) : LinuxSeccomp :=
  {| DefaultAction := DefaultAction s; Architectures := Architectures s;
     Syscalls := l |}.
Definition setNamespaces (l : Linux) (ns : list LinuxNamespace) : Linux :=
  {| Namespaces := ns; UIDMappings := UIDMappings l;
     GIDMappings := GIDMappings l; MaskedPaths := MaskedPaths l;
     ReadonlyPaths := ReadonlyPaths l; Seccomp := Seccomp l |}.
Definition setIDMappings (l : Linux) (u g : list LinuxIDMapping) : Linux :=
  {| Namespaces := Namespaces l; UIDMappings := u; GIDMappings := g;
     MaskedPaths := MaskedPaths l; ReadonlyPaths := ReadonlyPaths l;
     Seccomp := Seccomp l |}.
Definition setMaskedPaths (l : Linux) (p : list string) : Linux :=
  {| Namespaces := Namespaces l; UIDMappings := UIDMappings l;
     GIDMappings := GIDMappings l; MaskedPaths := p;
     ReadonlyPaths := ReadonlyPaths l; Seccomp := Seccomp l |}.
Definition setReadonlyPaths (l : Linux) (p : list string) : Linux :=
  {| Namespaces := Namespaces l; UIDMappings := UIDMappings l;
     GIDMappings := GIDMappings l; MaskedPaths := MaskedPaths l;
     ReadonlyPaths := p; Seccomp := Seccomp l |}.
Definition setSeccomp (l : Linux) (s : option LinuxSeccomp) : Linux :=
  {| Namespaces := Namespaces l; UIDMappings := UIDMappings l;
     GIDMappings := GIDMappings l; MaskedPaths := MaskedPaths l;
     ReadonlyPaths := ReadonlyPaths l; Seccomp := s |}.
Definition setCapabilities (p : Process) (c : LinuxCapabilities) : Process :=
  {| Process_Args := Process_Args p; Env := Env p;
     Process_User := Process_User p; Capabilities := Some c;
     ApparmorProfile := ApparmorProfile p; OOMScoreAdj := OOMScoreAdj p |}.
Definition setApparmorProfile (p : Process) (a : string) : Process :=
  {| Process_Args := Process_Args p; Env := Env p;
     Process_User := Process_User p; Capabilities := Capabilities p;
     ApparmorProfile := a; OOMScoreAdj := OOMScoreAdj p |}.
Definition setEnv (p : Process) (e : list string) : Process :=
  {| Process_Args := Process_Args p; Env := e;
     Process_User := Process_User p; Capabilities := Capabilities p;
     ApparmorProfile := ApparmorProfile p; OOMScoreAdj := OOMScoreAdj p |}.
Definition setOOMScoreAdj (p : Process) (o : option Z) : Process :=
  {| Process_Args := Process_Args p; Env := Env p;
     Process_User := Process_User p; Capabilities := Capabilities p;
     ApparmorProfile := ApparmorProfile p; OOMScoreAdj := o |}.
Definition setLinux (s : Spec) (l : Linux) : Spec :=
  {| Spec_Root := Spec_Root s; Spec_Process := Spec_Process s;
     Spec_Linux := Some l; Mounts := Mounts s |}.
Definition setProcess (s : Spec) (p : Process) : Spec :=
  {| Spec_Root := Spec_Root s; Spec_Process := Some p;
     Spec_Linux := Spec_Linux s; Mounts := Mounts s |}.
Definition setMounts (s : Spec) (m : list Mount) : Spec :=
  {| Spec_Root := Spec_Root s; Spec_Process := Spec_Process s;
     Spec_Linux := Spec_Linux s; Mounts := m |}.

(** A dereference of a pointer field: a nil pointer panics. *)
Definition deref {A} (o : option A) : result A :=
  match o with
  | Some a => Ok a
  | None => Panic
  end.

(** The names of a syscall entry as a range loop sees them. *)
Definition names (sc : LinuxSyscall) : list string := default [] (Names sc).

(** Constants of [runtime-spec/specs-go]. *)
Definition ArchX86_64 : string := "SCMP_ARCH_X86_64".
Definition ActKill : string := "SCMP_ACT_KILL".
Definition ActTrap : string := "SCMP_ACT_TRAP".
Definition ActErrno : string := "SCMP_ACT_ERRNO".
Definition ActTrace : string := "SCMP_ACT_TRACE".
Definition ActAllow : string := "SCMP_ACT_ALLOW".
Definition UserNamespace : string := "user".
Definition NetworkNamespace : string := "network".

(** ** Seccomp reconciliation ([cfgSeccomp]) *)

Section Seccomp.

(** The tables [syscontSyscallWhitelist] and [syscontSyscallAllowRestrList]
    are declared in a file that is not under src/; they are parameters. *)
Variable syscontSyscallWhitelist : list string.
Variable syscontSyscallAllowRestrList : list string.

(** The order in which [Set.Iter()] yields the elements of a set. *)
Variable setIter : gset string → list string.

(** One step of the categorising loop: [name] of an entry with action
    [act] goes to the allow, errno or kill set. *)
Definition categorizeName (act : string)
    (sets : gset string * gset string * gset string) (name : string)
  : gset string * gset string * gset string :=
  let '(allowSet, errnoSet, killSet) := sets in
  if bool_decide (act = ActAllow) then ({[name]} ∪ allowSet, errnoSet, killSet)
  else if bool_decide (act = ActErrno) then (allowSet, {[name]} ∪ errnoSet, killSet)
  else if bool_decide (act = ActKill) then (allowSet, errnoSet, {[name]} ∪ killSet)
  else sets.

Definition categorize (syscalls : list LinuxSyscall)
  : gset string * gset string * gset string :=
  foldl (λ sets sc, foldl (categorizeName (Action sc)) sets (names sc))
        (∅, ∅, ∅) syscalls.

(** [append(sc.Names[:i], sc.Names[i+1:]...)] on the backing array [arr] of
    a slice of length [len]: the elements after position [i] move one place
    down, in place; the cell at [len - 1] keeps its old content. *)
Definition shiftDown (i : nat) (arr : list string) (len : nat) : list string :=
  take i arr ++ drop (S i) (take len arr) ++ drop (len - 1)%nat arr.

(** The loop [for i, scName := range sc.Names { if diffSet.Contains(scName)
    { sc.Names = append(sc.Names[:i], sc.Names[i+1:]...) } }].  The range
    expression is evaluated once, so [i] runs over the original length and
    [scName] is read from the shared backing array; [sc.Names[i+1:]] panics
    when [i + 1] exceeds the current length.  Each entry is taken to have a
    backing array of its own, as entries decoded from a config file have. *)
Fixpoint removeLoop (diffSet : gset string) (idx : list nat)
    (arr : list string) (len : nat) : result (list string * nat) :=
  match idx with
  | [] => Ok (arr, len)
  | i :: idx' =>
      match arr !! i with
      | None => Panic
      | Some scName =>
          if bool_decide (scName ∈ diffSet) then
            if bool_decide (S i ≤ len)%nat
            then removeLoop diffSet idx' (shiftDown i arr len) (len - 1)%nat
            else Panic
          else removeLoop diffSet idx' arr len
      end
  end.

Definition removeNames (diffSet : gset string) (sc : LinuxSyscall)
  : result LinuxSyscall :=
  match Names sc with
  | None => Ok sc
  | Some l =>
      '(arr, len) ← removeLoop diffSet (seq 0 (length l)) l (length l);
      Ok (setNames sc (Some (take len arr)))
  end.

(** The blacklist branch: entries whose [Names] is nil after the removal
    are not copied to [newSyscalls]. *)
Fixpoint removeDiffSet (diffSet : gset string) (syscalls : list LinuxSyscall)
  : result (list LinuxSyscall) :=
  match syscalls with
  | [] => Ok []
  | sc :: rest =>
      sc' ← removeNames diffSet sc;
      rest' ← removeDiffSet diffSet rest;
      Ok (if bool_decide (Names sc' ≠ None) then sc' :: rest' else rest')
  end.

(** The whitelist branch: one allow entry per element of the diff set. *)
Definition allowEntry (name : string) : LinuxSyscall :=
  {| Names := Some [name]; Action := ActAllow; Syscall_Args := [] |}.

Definition addDiffSet (diffSet : gset string) (syscalls : list LinuxSyscall)
  : list LinuxSyscall :=
  foldl (λ scs name, scs ++ [allowEntry name]) syscalls (setIter diffSet).

(** [seccomp.Syscalls[i].Args = nil] for every name of entry [i] that is
    not in the restrictions-allowed list. *)
Definition stripArgs (sc : LinuxSyscall) : LinuxSyscall :=
  foldl (λ sc' name,
           if negb (Utils.StringSliceContains syscontSyscallAllowRestrList name)
           then setArgs sc' [] else sc')
        sc (names sc).

Definition cfgSeccomp (seccomp : option LinuxSeccomp)
  : result (option LinuxSeccomp) :=
  match seccomp with
  | None => Ok None
  | Some s =>
      let supportedArch :=
        foldl (λ b arch, if bool_decide (arch = ArchX86_64) then true else b)
              false (Architectures s) in
      if negb supportedArch then Ok (Some s)
      else if bool_decide (DefaultAction s ≠ ActAllow)
              && bool_decide (DefaultAction s ≠ ActErrno)
              && bool_decide (DefaultAction s ≠ ActKill)
      then Err (ErrStr "spec seccomp default actions other than allow, errno, and kill are not supported")
      else
        let '(allowSet, errnoSet, killSet) := categorize (Syscalls s) in
        let syscontAllowSet : gset string :=
          foldl (λ acc sc, {[sc]} ∪ acc) ∅ syscontSyscallWhitelist in
        let whitelist :=
          bool_decide (DefaultAction s = ActErrno)
          || bool_decide (DefaultAction s = ActKill) in
        let diffSet : gset string :=
          if whitelist then syscontAllowSet ∖ allowSet
          else (errnoSet ∪ killSet) ∖ syscontAllowSet in
        if whitelist then
          Ok (Some (setSyscalls s (map stripArgs (addDiffSet diffSet (Syscalls s)))))
        else
          newSyscalls ← removeDiffSet diffSet (Syscalls s);
          Ok (Some (setSyscalls s newSyscalls))
  end.

End Seccomp.

(** ** External collaborators of the converter *)

(** [unix.Stat_t], the two fields [checkSpec] compares. *)
Record Stat_t := {
  Dev : Z;
  Ino : Z;
}.

(** [ipcLib.MntKind], [ipcLib.MountPrepInfo] and [ipcLib.MountReqInfo]. *)
Inductive MntKind :=
| MntVarLibDocker
| MntVarLibKubelet
| MntVarLibK3s
| MntVarLibContainerdOvfs.

Record MountPrepInfo := {
  Prep_Source : string;
  Exclusive : bool;
}.

Record MountReqInfo := {
  Kind : MntKind;
  Dest : string;
}.

(** [sysbox.Mgr]: the manager daemon's client.  The three remote calls are
    functions of their arguments; [Mgr_Userns], [Mgr_UidMappings] and
    [Mgr_GidMappings] are the fields of [sysMgr.Config]. *)
Record Mgr := {
  Mgr_Enabled : bool;
  Mgr_Userns : string;
  Mgr_UidMappings : list LinuxIDMapping;
  Mgr_GidMappings : list LinuxIDMapping;
  ReqSubid : Z → result (Z * Z);
  PrepMounts : Z → Z → list MountPrepInfo → result unit;
  ReqMounts : string → Z → Z → bool → list MountReqInfo → result (list Mount);
}.

(** [sysbox.Fs]: the filesystem virtualizer's static attributes. *)
Record Fs := {
  Fs_Enabled : bool;
  Mountpoint : string;
  Id : string;
}.

(** What the converter asks of the host and of code that is not under src/:
    [unix.Stat], [filepath.Abs], [filepath.Join], [sysbox.CheckUidShifting],
    [sortMounts], [utils.GetEnvVarInfo], and the iteration order of Go sets
    and maps. *)
Record Host := {
  Stat : string → result Stat_t;
  Abs : string → result string;
  Join : string → string → string;
  CheckUidShifting : Spec → result (bool * bool);
  sortMounts : list Mount → list Mount;
  GetEnvVarInfo : string → result (string * string);
  setIter : gset string → list string;
  mapIter : gmap string MntKind → list (string * MntKind);
  syscontSyscallWhitelist : list string;
  syscontSyscallAllowRestrList : list string;
}.

(** ** Package-level state of [syscont] *)

Definition IdRangeMin : Z := 65536.
Definition defaultUid : Z := 231072.
Definition defaultGid : Z := 231072.

Definition mkMount (dst src typ : string) (opts : list string) : Mount :=
  {| Destination := dst; Source := src; Mount_Type := typ; Options := opts |}.

(** The package variables the converter reassigns. *)
Record Globals := {
  SysboxFsDir : string;
  sysboxMounts : list Mount;
  sysboxFsMounts : list Mount;
  sysboxSystemdMounts : list Mount;
}.

(** Their values when the package is initialised. *)
Definition initGlobals : Globals := {|
  SysboxFsDir := "/var/lib/sysboxfs";
  sysboxMounts := [
    mkMount "/sys" "sysfs" "sysfs" ["noexec"; "nosuid"; "nodev"];
    mkMount "/sys/fs/cgroup" "cgroup" "cgroup" ["noexec"; "nosuid"; "nodev"];
    mkMount "/sys/kernel/config" "tmpfs" "tmpfs"
      ["rw"; "rprivate"; "noexec"; "nosuid"; "nodev"; "size=1m"];
    mkMount "/sys/kernel/debug" "tmpfs" "tmpfs"
      ["rw"; "rprivate"; "noexec"; "nosuid"; "nodev"; "size=1m"];
    mkMount "/sys/kernel/tracing" "tmpfs" "tmpfs"
      ["rw"; "rprivate"; "noexec"; "nosuid"; "nodev"; "size=1m"];
    mkMount "/proc" "proc" "proc" ["noexec"; "nosuid"; "nodev"];
    mkMount "/dev" "tmpfs" "tmpfs"
      ["nosuid"; "strictatime"; "mode=755"; "size=65536k"];
    mkMount "/dev/kmsg" "/dev/null" "bind" ["rbind"; "rprivate"]
  ];
  sysboxFsMounts := [
    mkMount "/proc/sys" "/var/lib/sysboxfs/proc/sys" "bind" ["rbind"; "rprivate"];
    mkMount "/proc/swaps" "/var/lib/sysboxfs/proc/swaps" "bind" ["rbind"; "rprivate"];
    mkMount "/proc/uptime" "/var/lib/sysboxfs/proc/uptime" "bind" ["rbind"; "rprivate"];
    mkMount "/sys/devices/virtual/dmi/id/product_uuid"
      "/var/lib/sysboxfs/sys/devices/virtual/dmi/id/product_uuid" "bind"
      ["rbind"; "rprivate"];
    mkMount "/sys/module/nf_conntrack/parameters/hashsize"
      "/var/lib/sysboxfs/sys/module/nf_conntrack/parameters/hashsize" "bind"
      ["rbind"; "rprivate"]
  ];
  sysboxSystemdMounts := [
    mkMount "/run" "tmpfs" "tmpfs"
      ["rw"; "rprivate"; "nosuid"; "nodev"; "mode=755"; "size=64m"];
    mkMount "/run/lock" "tmpfs" "tmpfs"
      ["rw"; "rprivate"; "noexec"; "nosuid"; "nodev"; "size=4m"]
  ];
|}.

Definition setSysboxMounts (g : Globals) (m : list Mount) : Globals :=
  {| SysboxFsDir := SysboxFsDir g; sysboxMounts := m;
     sysboxFsMounts := sysboxFsMounts g;
     sysboxSystemdMounts := sysboxSystemdMounts g |}.
Definition setSysboxFs (g : Globals) (dir : string) (m : list Mount) : Globals :=
  {| SysboxFsDir := dir; sysboxMounts := sysboxMounts g;
     sysboxFsMounts := m; sysboxSystemdMounts := sysboxSystemdMounts g |}.
Definition setSysboxSystemdMounts (g : Globals) (m : list Mount) : Globals :=
  {| SysboxFsDir := SysboxFsDir g; sysboxMounts := sysboxMounts g;
     sysboxFsMounts := sysboxFsMounts g; sysboxSystemdMounts := m |}.

Definition sysboxSystemdEnvVars : list string := ["container=private-users"].

Definition sysboxRwPaths : list string := ["/proc"; "/proc/sys"].

Definition sysboxExposedPaths : list string :=
  ["/proc"; "/proc/sys"; "/proc/kcore"; "/proc/kallsyms"; "/proc/kmsg"].

Definition sysboxSystemdExposedPaths : list string :=
  ["/run"; "/run/lock"; "/tmp"; "/sys/kernel/config"; "/sys/kernel/debug";
   "/sys/kernel/tracing"].

Definition sysboxSystemdRwPaths : list string :=
  ["/run"; "/run/lock"; "/tmp"; "/sys/kernel/config"; "/sys/kernel/debug";
   "/sys/kernel/tracing"].

Definition linuxCaps : list string :=
  ["CAP_CHOWN"; "CAP_DAC_OVERRIDE"; "CAP_FSETID"; "CAP_FOWNER"; "CAP_MKNOD";
   "CAP_NET_RAW"; "CAP_SETGID"; "CAP_SETUID"; "CAP_SETFCAP"; "CAP_SETPCAP";
   "CAP_NET_BIND_SERVICE"; "CAP_SYS_CHROOT"; "CAP_KILL"; "CAP_AUDIT_WRITE";
   "CAP_DAC_READ_SEARCH"; "CAP_LINUX_IMMUTABLE"; "CAP_NET_BROADCAST";
   "CAP_NET_ADMIN"; "CAP_IPC_LOCK"; "CAP_IPC_OWNER"; "CAP_SYS_MODULE";
   "CAP_SYS_RAWIO"; "CAP_SYS_PTRACE"; "CAP_SYS_PACCT"; "CAP_SYS_ADMIN";
   "CAP_SYS_BOOT"; "CAP_SYS_NICE"; "CAP_SYS_RESOURCE"; "CAP_SYS_TIME";
   "CAP_SYS_TTY_CONFIG"; "CAP_LEASE"; "CAP_AUDIT_CONTROL"; "CAP_MAC_OVERRIDE";
   "CAP_MAC_ADMIN"; "CAP_SYSLOG"; "CAP_WAKE_ALARM"; "CAP_BLOCK_SUSPEND";
   "CAP_AUDIT_READ"].

(** ** The converter *)

(** *** Merging ID mappings *)

(** Insertion into a list sorted by [ContainerID], keeping the order of
    entries with equal keys. *)
Fixpoint insertByContainerID (m : LinuxIDMapping) (l : list LinuxIDMapping)
  : list LinuxIDMapping :=
  match l with
  | [] => [m]
  | x :: l' =>
      if bool_decide (ContainerID m ≤ ContainerID x) then m :: l
      else x :: insertByContainerID m l'
  end.

Definition sortByContainerID (l : list LinuxIDMapping) : list LinuxIDMapping :=
  foldr insertByContainerID [] l.

(** [a] is directly followed by [b]: [a.container_id + a.size] meets
    [b.container_id] and [a.host_id + a.size] meets [b.host_id] ([uint32]
    arithmetic). *)
Definition meets (a b : LinuxIDMapping) : bool :=
  bool_decide (u32 (ContainerID a + Size a) = ContainerID b)
  && bool_decide (u32 (HostID a + Size a) = HostID b).

Definition extend (a b : LinuxIDMapping) : LinuxIDMapping :=
  {| ContainerID := ContainerID a; HostID := HostID a;
     Size := u32 (Size a + Size b) |}.

Fixpoint foldRanges (cur : LinuxIDMapping) (rest : list LinuxIDMapping)
  : list LinuxIDMapping :=
  match rest with
  | [] => [cur]
  | m :: rest' =>
      if meets cur m then foldRanges (extend cur m) rest'
      else cur :: foldRanges m rest'
  end.

(** Modelled from the spec: the merge of contiguous sub-ranges that
    [mergeIDMappings] performs; the function is declared in a file of the
    package that is not under src/.  "Sort by container_id, fold consecutive
    entries whose container_id + size meets the next entry's container_id AND
    whose host_id + size meets the next entry's host_id." *)
Definition mergeRanges (l : list LinuxIDMapping) : list LinuxIDMapping :=
  match sortByContainerID l with
  | [] => []
  | m :: rest => foldRanges m rest
  end.

(** Modelled from the spec: [mergeIDMappings], not under src/.  "Each list
    must reduce to exactly one range": a list that merges to more than one
    range is an error. *)
Definition mergeIDMappings (l : list LinuxIDMapping)
  : result (list LinuxIDMapping) :=
  let merged := mergeRanges l in
  if bool_decide (length merged ≤ 1)%nat then Ok merged
  else Err (ErrStr "id mappings are not contiguous").

Section Converter.

Variable h : Host.
Variable sysMgr : Mgr.
Variable sysFs : Fs.

(** *** Namespaces *)

Definition cfgNamespaces (spec : Spec) : result Spec :=
  let allNs := ["pid"; "ipc"; "uts"; "mount"; "network"; "user"; "cgroup"] in
  let reqNs := ["pid"; "ipc"; "uts"; "mount"; "network"] in
  let allNsSet : gset string := foldl (λ acc ns, {[ns]} ∪ acc) ∅ allNs in
  let reqNsSet : gset string := foldl (λ acc ns, {[ns]} ∪ acc) ∅ reqNs in
  l ← deref (Spec_Linux spec);
  let specNsSet : gset string :=
    foldl (λ acc ns, {[Namespace_Type ns]} ∪ acc) ∅ (Namespaces l) in
  if negb (bool_decide (reqNsSet ⊆ specNsSet))
  then Err (ErrStr "container spec missing namespaces")
  else
    let addNsSet := allNsSet ∖ specNsSet in
    let added :=
      foldl (λ nss ns, nss ++ [{| Namespace_Type := ns; Namespace_Path := "" |}])
            (Namespaces l) (setIter h addNsSet) in
    let updated :=
      if Mgr_Enabled sysMgr && negb (bool_decide (Mgr_Userns sysMgr = ""))
      then map (λ ns, if bool_decide (Namespace_Type ns = UserNamespace)
                      then {| Namespace_Type := Namespace_Type ns;
                              Namespace_Path := Mgr_Userns sysMgr |}
                      else ns) added
      else added in
    Ok (setLinux spec (setNamespaces l updated)).

(** *** ID mappings *)

Definition allocIDMappings (spec : Spec) : result Spec :=
  '(uid, gid) ←
    (if Mgr_Enabled sysMgr
     then wrapErr "subid allocation failed" (ReqSubid sysMgr IdRangeMin)
     else Ok (defaultUid, defaultGid));
  l ← deref (Spec_Linux spec);
  let uidMap := {| ContainerID := 0; HostID := uid; Size := IdRangeMin |} in
  let gidMap := {| ContainerID := 0; HostID := gid; Size := IdRangeMin |} in
  Ok (setLinux spec
        (setIDMappings l (UIDMappings l ++ [uidMap]) (GIDMappings l ++ [gidMap]))).

(** [validateIDMappings] assigns the merged uid list to the spec before it
    merges the gid list; an error return leaves the spec to a caller that
    drops it, so only the successful result carries a spec. *)
Definition validateIDMappings (spec : Spec) : result Spec :=
  l ← deref (Spec_Linux spec);
  if bool_decide (length (UIDMappings l) = 0%nat)
     || bool_decide (length (GIDMappings l) = 0%nat)
  then Err (ErrStr "detected missing user-ns UID and/or GID mappings")
  else
    uids ← mergeIDMappings (UIDMappings l);
    gids ← mergeIDMappings (GIDMappings l);
    uidMap ← deref (uids !! 0%nat);
    gidMap ← deref (gids !! 0%nat);
    if bool_decide (ContainerID uidMap ≠ 0) || bool_decide (Size uidMap < IdRangeMin)
    then Err (ErrStr "uid mapping range must specify a container with at least 65536 uids starting at uid 0")
    else if bool_decide (ContainerID gidMap ≠ 0) || bool_decide (Size gidMap < IdRangeMin)
    then Err (ErrStr "gid mapping range must specify a container with at least 65536 gids starting at gid 0")
    else if bool_decide (HostID uidMap ≠ HostID gidMap)
    then Err (ErrStr "detecting non-matching uid & gid mappings")
    else if bool_decide (HostID uidMap = 0)
    then Err (ErrStr "detected user-ns uid mapping to host ID 0; this breaks container isolation")
    else if bool_decide (HostID gidMap = 0)
    then Err (ErrStr "detected user-ns gid mapping to host ID 0; this breaks container isolation")
    else Ok (setLinux spec (setIDMappings l uids gids)).

Definition cfgIDMappings (spec : Spec) : result Spec :=
  l ← deref (Spec_Linux spec);
  let uids :=
    if Mgr_Enabled sysMgr
       && bool_decide (0 < length (Mgr_UidMappings sysMgr))%nat
    then Mgr_UidMappings sysMgr else UIDMappings l in
  let gids :=
    if Mgr_Enabled sysMgr
       && bool_decide (0 < length (Mgr_GidMappings sysMgr))%nat
    then Mgr_GidMappings sysMgr else GIDMappings l in
  let spec := setLinux spec (setIDMappings l uids gids) in
  if bool_decide (length uids = 0%nat) && bool_decide (length gids = 0%nat)
  then allocIDMappings spec
  else validateIDMappings spec.

(** *** Process settings *)

(** [p.Args[0] == "/sbin/init"]: the index panics on an empty [Args]. *)
Definition systemdInit (p : Process) : result bool :=
  arg0 ← deref (Process_Args p !! 0%nat);
  Ok (bool_decide (arg0 = "/sbin/init")).

Definition cfgCapabilities (p : Process) : result Process :=
  _ ← deref (Capabilities p);
  let noCaps : list string := [] in
  if bool_decide (UID (Process_User p) = 0)
  then Ok (setCapabilities p
             {| Bounding := linuxCaps; Effective := linuxCaps;
                Inheritable := linuxCaps; Permitted := linuxCaps;
                Ambient := linuxCaps |})
  else Ok (setCapabilities p
             {| Bounding := linuxCaps; Effective := noCaps;
                Inheritable := noCaps; Permitted := noCaps;
                Ambient := noCaps |}).

Definition cfgAppArmor (p : Process) : result Process :=
  Ok (setApparmorProfile p "").

(** The name of an env var, when [GetEnvVarInfo] parses it. *)
Definition envName (v : string) : option string :=
  match GetEnvVarInfo h v with
  | Ok (name, _) => Some name
  | _ => None
  end.

Definition cfgSystemdEnv (p : Process) : Process :=
  let env :=
    Utils.StringSliceRemoveMatch (Env p) (λ specEnvVar,
      match envName specEnvVar with
      | None => false
      | Some name =>
          existsb (λ sysboxSysdEnvVar,
                     match envName sysboxSysdEnvVar with
                     | Some sname => bool_decide (name = sname)
                     | None => false
                     end) sysboxSystemdEnvVars
      end) in
  setEnv p (env ++ sysboxSystemdEnvVars).

Definition ConvertProcessSpec (p : Process) : result Process :=
  p ← cfgCapabilities p;
  p ← wrapErr "failed to configure AppArmor profile" (cfgAppArmor p);
  sd ← systemdInit p;
  Ok (if (sd : bool) then cfgSystemdEnv p else p).

(** *** Masked and read-only paths *)

Definition cfgMaskedPaths (spec : Spec) : result Spec :=
  p ← deref (Spec_Process spec);
  sd ← systemdInit p;
  l ← deref (Spec_Linux spec);
  let masked :=
    if (sd : bool) then Utils.StringSliceRemove (MaskedPaths l) sysboxSystemdExposedPaths
    else MaskedPaths l in
  Ok (setLinux spec
        (setMaskedPaths l (Utils.StringSliceRemove masked sysboxExposedPaths))).

Definition cfgReadonlyPaths (spec : Spec) : result Spec :=
  p ← deref (Spec_Process spec);
  sd ← systemdInit p;
  l ← deref (Spec_Linux spec);
  let ro :=
    if (sd : bool) then Utils.StringSliceRemove (ReadonlyPaths l) sysboxSystemdRwPaths
    else ReadonlyPaths l in
  Ok (setLinux spec
        (setReadonlyPaths l (Utils.StringSliceRemove ro sysboxRwPaths))).

Definition cfgOomScoreAdj (spec : Spec) : result Spec :=
  p ← deref (Spec_Process spec);
  match OOMScoreAdj p with
  | Some adj =>
      if bool_decide (adj < -999)
      then Ok (setProcess spec (setOOMScoreAdj p (Some (-999))))
      else Ok spec
  | None => Ok spec
  end.

(** *** Mounts *)

Definition cfgSysboxMounts (spec : Spec) (g : Globals) : result (Spec * Globals) :=
  let cgroupMounts := [mkMount "/sys/fs/cgroup/" "" "" []] in
  let mounts :=
    Utils.MountSliceRemove (Mounts spec) cgroupMounts
      (λ m1 m2, Utils.HasPrefix (Destination m1) (Destination m2)) in
  let mounts :=
    Utils.MountSliceRemove mounts (sysboxMounts g)
      (λ m1 m2, bool_decide (Destination m1 = Destination m2)) in
  root ← deref (Spec_Root spec);
  let g :=
    if Readonly root then
      let rwOpt := ["rw"] in
      setSysboxMounts g
        (foldl (λ tmpMounts m,
                  let m :=
                    if Utils.HasPrefix (Destination m) "/sys"
                    then setOptions m
                           (Utils.StringSliceRemove (Options m) rwOpt ++ ["ro"])
                    else m in
                  tmpMounts ++ [m])
               [] (sysboxMounts g))
    else g in
  Ok (setMounts spec (mounts ++ sysboxMounts g), g).

Definition cfgSysboxFsMounts (spec : Spec) (g : Globals) : result (Spec * Globals) :=
  let mounts :=
    Utils.MountSliceRemove (Mounts spec) (sysboxFsMounts g)
      (λ m1 m2, bool_decide (Destination m1 = Destination m2)) in
  let cntrMountpoint := Join h (Mountpoint sysFs) (Id sysFs) in
  let fsMounts :=
    map (λ m, setSource m
                (Utils.Replace1 (Source m) (SysboxFsDir g) cntrMountpoint))
        (sysboxFsMounts g) in
  let g := setSysboxFs g (Mountpoint sysFs) fsMounts in
  root ← deref (Spec_Root spec);
  spec ←
    (if Readonly root then
       l ← deref (Spec_Linux spec);
       Ok (setLinux spec
             (setReadonlyPaths l
                (foldl (λ ro m, ro ++ [Destination m])
                       (ReadonlyPaths l) (sysboxFsMounts g))))
     else Ok spec);
  Ok (setMounts spec (mounts ++ sysboxFsMounts g), g).

Definition cfgSystemdMounts (spec : Spec) (g : Globals) : Spec * Globals :=
  let mounts :=
    Utils.MountSliceRemove (Mounts spec) (sysboxSystemdMounts g)
      (λ m1 m2, bool_decide (Destination m1 = Destination m2)
                && negb (bool_decide (Mount_Type m1 = "tmpfs"))) in
  let sysd :=
    Utils.MountSliceRemove (sysboxSystemdMounts g) mounts
      (λ m1 m2, bool_decide (Destination m1 = Destination m2)
                && bool_decide (Mount_Type m2 = "tmpfs")) in
  (setMounts spec (mounts ++ sysd), setSysboxSystemdMounts g sysd).

Definition specialDirs : gmap string MntKind :=
  <["/var/lib/docker" := MntVarLibDocker]>
  (<["/var/lib/kubelet" := MntVarLibKubelet]>
  (<["/var/lib/rancher/k3s" := MntVarLibK3s]>
  (<["/var/lib/containerd/io.containerd.snapshotter.v1.overlayfs"
     := MntVarLibContainerdOvfs]> ∅))).

Definition sysMgrSetupMounts (spec : Spec) (uidShiftRootfs : bool)
  : result Spec :=
  l ← deref (Spec_Linux spec);
  uidMap ← deref (UIDMappings l !! 0%nat);
  gidMap ← deref (GIDMappings l !! 0%nat);
  let uid := HostID uidMap in
  let gid := HostID gidMap in
  (* the loop runs from the last mount to the first *)
  let '(prepList, specialDir) :=
    foldl (λ '(prepList, specialDir) m,
             if bool_decide (Mount_Type m = "bind")
                && bool_decide (is_Some (specialDir !! Destination m))
             then (prepList ++ [{| Prep_Source := Source m; Exclusive := true |}],
                   delete (Destination m) specialDir)
             else (prepList, specialDir))
          ([], specialDirs) (reverse (Mounts spec)) in
  _ ← (if bool_decide (0 < length prepList)%nat
       then PrepMounts sysMgr uid gid prepList else Ok ());
  let reqList :=
    map (λ '(dest, kind), {| Kind := kind; Dest := dest |})
        (mapIter h specialDir) in
  root ← deref (Spec_Root spec);
  rootPath ← Abs h (Root_Path root);
  m ← ReqMounts sysMgr rootPath uid gid uidShiftRootfs reqList;
  let mounts :=
    Utils.MountSliceRemove m (Mounts spec)
      (λ m1 m2, bool_decide (Destination m1 = Destination m2)) in
  let mounts :=
    if Readonly root then
      let rwOpt := ["rw"] in
      foldl (λ tmpMounts m,
               tmpMounts ++
               [setOptions m (Utils.StringSliceRemove (Options m) rwOpt ++ ["ro"])])
            [] mounts
    else mounts in
  Ok (setMounts spec (Mounts spec ++ mounts)).

Definition cfgMounts (spec : Spec) (g : Globals) (uidShiftRootfs : bool)
  : result (Spec * Globals) :=
  '(spec, g) ← cfgSysboxMounts spec g;
  '(spec, g) ←
    (if Fs_Enabled sysFs then cfgSysboxFsMounts spec g else Ok (spec, g));
  spec ←
    (if Mgr_Enabled sysMgr then sysMgrSetupMounts spec uidShiftRootfs
     else Ok spec);
  p ← deref (Spec_Process spec);
  sd ← systemdInit p;
  let '(spec, g) := if (sd : bool) then cfgSystemdMounts spec g else (spec, g) in
  Ok (setMounts spec (sortMounts h (Mounts spec)), g).

(** *** Basic checks *)

(** The loop over the namespaces of [checkSpec]: the first network entry
    with a non-empty path decides, the others are not looked at. *)
Fixpoint checkNetns (nss : list LinuxNamespace) : result unit :=
  match nss with
  | [] => Ok ()
  | ns :: rest =>
      if bool_decide (Namespace_Type ns = NetworkNamespace)
         && negb (bool_decide (Namespace_Path ns = ""))
      then
        st1 ← wrapErr "unable to stat sysbox's network namespace"
                (Stat h "/proc/self/ns/net");
        st2 ← wrapErr "unable to stat" (Stat h (Namespace_Path ns));
        if bool_decide (Dev st1 = Dev st2) && bool_decide (Ino st1 = Ino st2)
        then Err (ErrStr "sysbox containers can't share a network namespace with the host (because they use the linux user-namespace for isolation)")
        else Ok ()
      else checkNetns rest
  end.

Definition checkSpec (spec : Spec) : result unit :=
  match Spec_Root spec, Spec_Linux spec with
  | Some _, Some l => checkNetns (Namespaces l)
  | _, _ => Err (ErrStr "not a linux container spec")
  end.

(** *** The conversion *)

Definition ConvertSpec (spec : Spec) (g : Globals)
  : result (bool * bool * Spec * Globals) :=
  _ ← wrapErr "invalid or unsupported container spec" (checkSpec spec);
  spec ← wrapErr "invalid namespace config" (cfgNamespaces spec);
  spec ← wrapErr "invalid user/group ID config" (cfgIDMappings spec);
  '(uidShiftSupported, uidShiftRootfs) ← CheckUidShifting h spec;
  '(spec, g) ← wrapErr "invalid mount config" (cfgMounts spec g uidShiftRootfs);
  spec ← cfgMaskedPaths spec;
  spec ← cfgReadonlyPaths spec;
  spec ← cfgOomScoreAdj spec;
  l ← deref (Spec_Linux spec);
  seccomp ← wrapErr "failed to configure seccomp"
              (cfgSeccomp (syscontSyscallWhitelist h)
                 (syscontSyscallAllowRestrList h) (setIter h) (Seccomp l));
  let spec := setLinux spec (setSeccomp l seccomp) in
  p ← deref (Spec_Process spec);
  p ← wrapErr "failed to configure process spec" (ConvertProcessSpec p);
  Ok (uidShiftSupported, uidShiftRootfs, setProcess spec p, g).

End Converter.

(** *** The rootfs owner check of the earlier revision

    [needUidShiftOnRootfs], of the earlier revision of the converter that
    the same file carries: whether uid shifting is needed on the rootfs.
    [statOwner] is [os.Stat] followed by the conversion of [fi.Sys()] to
    [*syscall.Stat_t]: [Ok None] is a conversion that fails, [Ok (Some (uid,
    gid))] the owner of the file. *)
Definition needUidShiftOnRootfs (statOwner : string → result (option (Z * Z)))
    (spec : Spec) : result bool :=
  l ← deref (Spec_Linux spec);
  let hostUidMap :=
    foldl (λ hostUidMap mapping,
             if bool_decide (ContainerID mapping = 0) then HostID mapping
             else hostUidMap) 0 (UIDMappings l) in
  let hostGidMap :=
    foldl (λ hostGidMap mapping,
             if bool_decide (ContainerID mapping = 0) then HostID mapping
             else hostGidMap) 0 (GIDMappings l) in
  root ← deref (Spec_Root spec);
  fi ← statOwner (Root_Path root);
  match fi with
  | None => Err (ErrStr "failed to convert to syscall.Stat_t")
  | Some (rootfsUid, rootfsGid) =>
      Ok (bool_decide (rootfsUid = 0) && bool_decide (rootfsGid = 0)
          && bool_decide (hostUidMap ≠ rootfsUid)
          && bool_decide (hostGidMap ≠ rootfsGid)
          && bool_decide (hostUidMap = hostGidMap))
  end.

(** ** The launch of the container's processes ([process_linux.go]) *)

Module Launch.

(** [syncType]: the message types of the sync socket. *)
Inductive syncType :=
| procError | procReady | procRun | procHooks | procResume
| reqOp | sendOpInfo | opDone
| procFd | sendFd | procFdDone
| rootfsReady | rootfsReadyAck
| otherSync (name : string).

#[global] Instance syncType_eq_dec : EqDecision syncType.
Proof. solve_decision. Defined.

(** [cgroups.Manager.GetType()]. *)
Inductive cgroupType :=
| Cgroup_v1_fs | Cgroup_v1_systemd | Cgroup_v2_fs | Cgroup_v2_systemd.

Inductive hookName := Prestart | CreateRuntime.

(** [sysbox.FsRegInfo]. *)
Record FsRegInfo := {
  Hostname : string;
  Pid : Z;
  Uid : Z;
  Gid : Z;
  IdSize : Z;
  ProcRoPaths : list string;
  ProcMaskPaths : list string;
}.

(** The calls the parent makes on the operating system and on its
    collaborators (cgroup manager, Intel RDT manager, container object,
    sysbox-fs client, sync socket). *)
Inductive Op :=
| CmdStart
| CloseChildSock
| CloseChildLog
| CloseParentSock
| CgroupApply (pid : Z)
| CgroupSet
| CreateChildCgroup
| ApplyChildCgroup (pid : Z)
| CgroupDestroy
| RdtApply (pid : Z)
| RdtSet
| RdtDestroy
| MkdirAllDev
| CopyBootstrapData
| DecodePid
| WaitFirstChild (pid : Z)
| CmdWait
| ProcessWait
| Readlink (pid : Z) (fd : nat)
| WriteCreateCgroupns
| GetStrategy (netType : string)
| StrategyCreate (netType : string) (pid : Z)
| CurrentOCIState
| WriteConfig
| SetupRlimits (pid : Z)
| RunHooks (hook : hookName) (pid : Z)
| UpdateState
| WriteSync (t : syncType)
| DecodeReqs
| HandleReqOp (pid : Z)
| RecvSeccompFd
| ProcSeccompInit (pid : Z)
| Register (info : FsRegInfo)
| Shutdown
| Kill (pid : Z)
| SignalAllProcesses
| EnterPid (pid : Z)
| ParseCgroupFile (initPid : Z)
| WriteCgroupProc (dirpath : string) (pid : Z)
| StatIntelRdtPath
| WriteIntelRdtTasks (pid : Z).

(** What happened, in order: a call with its outcome ([None] is success),
    or a sync message read from the child. *)
Inductive Event :=
| Call (op : Op) (err : option error)
| Recv (t : syncType).

(** The world decides the outcome of each call from what happened so
    far. *)
Definition World := list Event → Op → option error.

(** What the child puts on the sync socket for [parseSync]: a message, or
    bytes that make the read fail (a decode error, or the error the child
    reports after [procError]). *)
Inductive Frame :=
| FSync (t : syncType)
| FError (e : error).

(** The child helper as the parent observes it. *)
Record Child := {
  bootstrapPid : Z;        (* pid of the process [cmd.Start] forks *)
  PidFirstChild : Z;       (* the two pids sent on the pipe *)
  PidFinal : Z;
  exitSuccess : bool;      (* [status.Success()] of the bootstrapper *)
  fdTarget : nat → string; (* targets of /proc/<pid>/fd/{0,1,2} *)
  frames : list Frame;
}.

(** The mutable state of a launch. *)
Record St := {
  trace : list Event;
  cmdProcess : option Z;   (* [p.cmd.Process]; [None] is nil *)
  opsSet : bool;           (* [p.process.ops != nil] *)
  fds : list string;
  containerCreated : bool; (* [p.container.state] is [createdState] *)
  sentRun : bool;
  sentResume : bool;
}.

Definition initSt : St :=
  {| trace := []; cmdProcess := None; opsSet := false; fds := [];
     containerCreated := false; sentRun := false; sentResume := false |}.

Definition addEvent (e : Event) (s : St) : St :=
  {| trace := trace s ++ [e]; cmdProcess := cmdProcess s; opsSet := opsSet s;
     fds := fds s; containerCreated := containerCreated s;
     sentRun := sentRun s; sentResume := sentResume s |}.
Definition setCmdProcess (p : option Z) (s : St) : St :=
  {| trace := trace s; cmdProcess := p; opsSet := opsSet s;
     fds := fds s; containerCreated := containerCreated s;
     sentRun := sentRun s; sentResume := sentResume s |}.
Definition setOps (b : bool) (s : St) : St :=
  {| trace := trace s; cmdProcess := cmdProcess s; opsSet := b;
     fds := fds s; containerCreated := containerCreated s;
     sentRun := sentRun s; sentResume := sentResume s |}.
Definition setFds (f : list string) (s : St) : St :=
  {| trace := trace s; cmdProcess := cmdProcess s; opsSet := opsSet s;
     fds := f; containerCreated := containerCreated s;
     sentRun := sentRun s; sentResume := sentResume s |}.
Definition setCreated (s : St) : St :=
  {| trace := trace s; cmdProcess := cmdProcess s; opsSet := opsSet s;
     fds := fds s; containerCreated := true;
     sentRun := sentRun s; sentResume := sentResume s |}.
Definition setSentRun (s : St) : St :=
  {| trace := trace s; cmdProcess := cmdProcess s; opsSet := opsSet s;
     fds := fds s; containerCreated := containerCreated s;
     sentRun := true; sentResume := sentResume s |}.
Definition setSentResume (s : St) : St :=
  {| trace := trace s; cmdProcess := cmdProcess s; opsSet := opsSet s;
     fds := fds s; containerCreated := containerCreated s;
     sentRun := sentRun s; sentResume := true |}.

(** A computation of the parent: it reads and writes the state and ends
    with a value, an error or a panic. *)
Definition M (A : Type) : Type := St → result A * St.

#[global] Instance M_ret : MRet M := λ A a s, (Ok a, s).
#[global] Instance M_bind : MBind M := λ A B f m s,
  match m s with
  | (Ok a, s') => f a s'
  | (Err e, s') => (Err e, s')
  | (Panic, s') => (Panic, s')
  end.

Definition fail {A} (e : error) : M A := λ s, (Err e, s).
Definition panic {A} : M A := λ s, (Panic, s).
Definition get : M St := λ s, (Ok s, s).
Definition modify (f : St → St) : M unit := λ s, (Ok (), f s).

(** [try m]: run [m] and hand its error back as a value ([err := m()]). *)
Definition try (m : M unit) : M (option error) := λ s,
  match m s with
  | (Ok _, s') => (Ok None, s')
  | (Err e, s') => (Ok (Some e), s')
  | (Panic, s') => (Panic, s')
  end.

(** [wrap ctx m]: [if err := m(); err != nil { return
    newSystemErrorWithCause(err, ctx) }]. *)
Definition wrap {A} (ctx : string) (m : M A) : M A := λ s,
  match m s with
  | (Err e, s') => (Err (ErrCause ctx e), s')
  | r => r
  end.

Section World.

Variable w : World.
Variable child : Child.

(** A call whose error, if any, is returned. *)
Definition call (op : Op) : M unit := λ s,
  match w (trace s) op with
  | None => (Ok (), addEvent (Call op None) s)
  | Some e => (Err e, addEvent (Call op (Some e)) s)
  end.

(** A call whose error the code drops. *)
Definition call_ (op : Op) : M unit := λ s,
  (Ok (), addEvent (Call op (w (trace s) op)) s).

(** [p.cmd.Process.Pid]; a nil [Process] panics. *)
Definition pid : M Z := λ s,
  match cmdProcess s with
  | Some p => (Ok p, s)
  | None => (Panic, s)
  end.

(** Modelled from the spec: [parseSync], declared in a file of the
    package that is not under src/: it reads the child's messages one
    after the other and hands each to [fn]; it stops with [nil] at the
    end of the stream, and with the error at the first read that fails
    or the first error of [fn]. *)
Fixpoint parseSync (fs : list Frame) (fn : syncType → M unit)
  : M (option error) :=
  match fs with
  | [] => mret None
  | FError e :: _ => mret (Some e)
  | FSync t :: rest =>
      _ ← modify (addEvent (Recv t));
      r ← try (fn t);
      match r with
      | Some e => mret (Some e)
      | None => parseSync rest fn
      end
  end.

(** [writeSync(pipe, t)]. *)
Definition writeSync (t : syncType) : M unit := call (WriteSync t).

(** [os.IsPermission(err)]. *)
Definition isPermission (e : error) : bool :=
  match e with
  | ErrErrno EACCES | ErrErrno EPERM => true
  | _ => false
  end.

(** [defer d] around [m]: [d] runs when [m] has ended, and sees how. *)
Definition defer {A} (m : M A) (d : result A → M unit) : M A := λ s,
  let '(r, s') := m s in
  match d r s' with
  | (Panic, s'') => (Panic, s'')
  | (_, s'') => (r, s'')
  end.

Definition startCmd : M unit :=
  err ← try (call CmdStart);
  match err with
  | None => modify (setCmdProcess (Some (bootstrapPid child)))
  | Some e => fail e
  end.

(** *** The init launch *)

Record initProcess := {
  hasIntelRdt : bool;       (* [p.intelRdtManager != nil] *)
  sharePidns : bool;
  cgType : cgroupType;      (* [p.manager.GetType()] *)
  newMountNs : bool;        (* [Namespaces.Contains(configs.NEWNS)] *)
  newCgroupNs : bool;       (* [Namespaces.Contains(configs.NEWCGROUP)] *)
  cgroupNsPath : string;    (* [Namespaces.PathOf(configs.NEWCGROUP)] *)
  hasHooks : bool;          (* [p.config.Config.Hooks != nil] *)
  Networks : list string;   (* the types of [p.config.Config.Networks] *)
  sysFsEnabled : bool;      (* [p.container.sysFs.Enabled()] *)
  config_Hostname : string;
  config_UidMappings : list LinuxIDMapping;
  config_GidMappings : list LinuxIDMapping;
  config_ReadonlyPaths : list string;
  config_MaskPaths : list string;
}.

Section Init.

Variable p : initProcess.

Definition isCgroupV1 : bool :=
  match cgType p with
  | Cgroup_v1_fs | Cgroup_v1_systemd => true
  | _ => false
  end.

Definition isCgroupV2 : bool :=
  match cgType p with
  | Cgroup_v2_fs | Cgroup_v2_systemd => true
  | _ => false
  end.

Definition wait : M unit :=
  err ← try (call CmdWait);
  _ ← (if sharePidns p then call_ SignalAllProcesses else mret ());
  match err with
  | Some e => fail e
  | None => mret ()
  end.

Definition terminate : M unit :=
  s ← get;
  match cmdProcess s with
  | None => mret ()
  | Some proc =>
      err ← try (call (Kill proc));
      werr ← try wait;
      match err, werr with
      | Some e, _ => fail e
      | None, Some e => fail e
      | None, None => mret ()
      end
  end.

Definition getChildPid : M Z :=
  err ← try (call DecodePid);
  match err with
  | Some e => _ ← call_ CmdWait; fail e
  | None =>
      _ ← call_ (WaitFirstChild (PidFirstChild child));
      mret (PidFinal child)
  end.

(** [os.FindProcess] does not fail on Unix, so its error branch is left
    out here and in [execSetns]. *)
Definition waitForChildExit (childPid : Z) : M unit :=
  err ← try (call ProcessWait);
  match err with
  | Some e => _ ← call_ CmdWait; fail e
  | None =>
      if negb (exitSuccess child)
      then _ ← call_ CmdWait; fail (ErrStr "exit status")
      else
        _ ← modify (setCmdProcess (Some childPid));
        modify (setOps true)
  end.

Fixpoint getPipeFdsLoop (childPid : Z) (idxs : list nat) (acc : list string)
  : M (list string) :=
  match idxs with
  | [] => mret acc
  | i :: rest =>
      err ← try (call (Readlink childPid i));
      match err with
      | Some e =>
          if isPermission e then getPipeFdsLoop childPid rest acc
          else fail e
      | None => getPipeFdsLoop childPid rest (<[i := fdTarget child i]> acc)
      end
  end.

Definition getPipeFds (childPid : Z) : M (list string) :=
  getPipeFdsLoop childPid [0; 1; 2]%nat [""; ""; ""].

Fixpoint createNetworkInterfaces (nets : list string) : M unit :=
  match nets with
  | [] => mret ()
  | typ :: rest =>
      _ ← call (GetStrategy typ);
      proc ← pid;
      _ ← call (StrategyCreate typ proc);
      createNetworkInterfaces rest
  end.

Definition updateSpecState : M unit := call CurrentOCIState.

Definition sendConfig : M unit := call WriteConfig.

Definition setupDevSubdir : M unit :=
  wrap "creating dev subdir under rootfs" (call MkdirAllDev).

(** The [Prestart] and [CreateRuntime] hooks, run with the pid of
    [p.cmd.Process] and the status [creating]. *)
Definition runHooks : M unit :=
  if hasHooks p then
    _ ← call CurrentOCIState;
    proc ← pid;
    _ ← call (RunHooks Prestart proc);
    call (RunHooks CreateRuntime proc)
  else mret ().

Definition registerWithSysboxfs (childPid : Z) : M unit :=
  if negb (sysFsEnabled p) then mret ()
  else
    let procRoPaths :=
      List.filter (λ x, Utils.HasPrefix x "/proc") (config_ReadonlyPaths p) in
    let procMaskPaths :=
      List.filter (λ x, Utils.HasPrefix x "/proc") (config_MaskPaths p) in
    match config_UidMappings p !! 0%nat, config_GidMappings p !! 0%nat with
    | Some u, Some g =>
        wrap "registering with sysbox-fs"
          (call (Register
                   {| Hostname := config_Hostname p; Pid := childPid;
                      Uid := HostID u; Gid := HostID g; IdSize := Size u;
                      ProcRoPaths := procRoPaths;
                      ProcMaskPaths := procMaskPaths |}))
    | _, _ => panic
    end.

(** The function handed to [parseSync]. *)
Definition handleSync (childPid : Z) (t : syncType) : M unit :=
  match t with
  | procReady =>
      proc ← pid;
      _ ← wrap "setting rlimits for ready process" (call (SetupRlimits proc));
      _ ← (if negb (newMountNs p) then
             _ ← (if hasIntelRdt p
                  then wrap "setting Intel RDT config for ready process" (call RdtSet)
                  else mret ());
             runHooks
           else mret ());
      _ ← modify setCreated;
      uerr ← try (call UpdateState);
      match uerr with
      | Some _ => fail (ErrCauseNil "store init state")
      | None =>
          _ ← wrap "writing syncT 'run'" (writeSync procRun);
          modify setSentRun
      end
  | rootfsReady =>
      _ ← (if isCgroupV2 then
             _ ← wrap "creating container child cgroup" (call CreateChildCgroup);
             wrap "applying cgroup configuration for process"
               (call (ApplyChildCgroup childPid))
           else mret ());
      _ ← registerWithSysboxfs childPid;
      wrap "writing syncT 'rootfsReadyAck'" (writeSync rootfsReadyAck)
  | procHooks =>
      _ ← (if hasIntelRdt p
           then wrap "setting Intel RDT config for procHooks process" (call RdtSet)
           else mret ());
      _ ← runHooks;
      _ ← wrap "writing syncT 'resume'" (writeSync procResume);
      modify setSentResume
  | reqOp =>
      _ ← wrap "writing syncT 'sendOpInfo'" (writeSync sendOpInfo);
      _ ← wrap "receiving / decoding reqOp'" (call DecodeReqs);
      _ ← wrap "handleReqOp" (call (HandleReqOp childPid));
      wrap "writing syncT 'opDone'" (writeSync opDone)
  | procFd =>
      _ ← wrap "writing syncT 'sendFd'" (writeSync sendFd);
      _ ← wrap "receiving seccomp fd" (call RecvSeccompFd);
      _ ← wrap "processing seccomp fd" (call (ProcSeccompInit childPid));
      wrap "writing syncT 'procFdDone'" (writeSync procFdDone)
  | _ => fail (ErrStr "invalid JSON payload from child")
  end.

(** From the cgroup setup to [sendConfig]. *)
Definition prepare : M Z :=
  proc ← pid;
  _ ← wrap "applying cgroup configuration for process" (call (CgroupApply proc));
  _ ← wrap "setting cgroup config for ready process" (call CgroupSet);
  _ ← (if isCgroupV1
       then wrap "creating container child cgroup" (call CreateChildCgroup)
       else mret ());
  _ ← wrap "setup up dev subdir under rootfs" setupDevSubdir;
  _ ← (if hasIntelRdt p
       then wrap "applying Intel RDT configuration for process" (call (RdtApply proc))
       else mret ());
  _ ← wrap "copying bootstrap data to pipe" (call CopyBootstrapData);
  childPid ← wrap "getting the final child's pid from pipe" getChildPid;
  fds ← wrap "getting pipe fds for pid" (getPipeFds childPid);
  _ ← modify (setFds fds);
  _ ← (if isCgroupV1
       then wrap "applying cgroup configuration for process"
              (call (ApplyChildCgroup childPid))
       else mret ());
  _ ← (if hasIntelRdt p
       then wrap "applying Intel RDT configuration for process"
              (call (RdtApply childPid))
       else mret ());
  _ ← (if newCgroupNs p && bool_decide (cgroupNsPath p = "")
       then wrap "sending synchronization value to init process"
              (call WriteCreateCgroupns)
       else mret ());
  _ ← wrap "waiting for our first child to exit" (waitForChildExit childPid);
  _ ← wrap "creating network interfaces" (createNetworkInterfaces (Networks p));
  _ ← wrap "updating the spec state" updateSpecState;
  _ ← wrap "sending config to init process" sendConfig;
  mret childPid.

(** The sync loop and what follows it. *)
Definition syncAndFinish (childPid : Z) : M unit :=
  ierr ← parseSync (frames child) (handleSync childPid);
  s ← get;
  if negb (sentRun s) then
    fail (match ierr with
          | Some e => ErrCause "container init" e
          | None => ErrCauseNil "container init"
          end)
  else if newMountNs p && negb (sentResume s) then
    fail (ErrStr "could not synchronise after executing prestart and CreateRuntime hooks with container process")
  else
    _ ← wrap "shutting down init pipe" (call Shutdown);
    match ierr with
    | Some e => _ ← try wait; fail e
    | None => mret ()
    end.

(** The deferred function of [start]: [if retErr != nil { ... }]. *)
Definition rollback (r : result unit) : M unit :=
  match r with
  | Err _ =>
      _ ← try terminate;
      _ ← call_ CgroupDestroy;
      if hasIntelRdt p then call_ RdtDestroy else mret ()
  | _ => mret ()
  end.

Definition startBody : M unit :=
  childPid ← prepare;
  syncAndFinish childPid.

Definition start : M unit :=
  defer
    (err ← try startCmd;
     _ ← modify (setOps true);
     _ ← call_ CloseChildSock;
     _ ← call_ CloseChildLog;
     match err with
     | Some e =>
         _ ← modify (setOps false);
         fail (ErrCause "starting init process command" e)
     | None => defer startBody rollback
     end)
    (λ _, call_ CloseParentSock).

End Init.

(** *** The setns launch *)

Record setnsProcess := {
  hasCgroupPaths : bool;     (* [len(p.cgroupPaths) > 0] *)
  rootlessCgroups : bool;
  intelRdtPath : string;
  hasBootstrapData : bool;   (* [p.bootstrapData != nil] *)
  initProcessPid : Z;
  (* the cgroup filesystem of the host *)
  IsCgroup2UnifiedMode : bool;
  initCg : gmap string string;  (* what [ParseCgroupFile] returns *)
  UnifiedMountpoint : string;
  filepathJoin : string → string → string;
}.

Section Setns.

Variable p : setnsProcess.

Definition setnsWait : M unit := call CmdWait.

Definition setnsTerminate : M unit :=
  s ← get;
  match cmdProcess s with
  | None => mret ()
  | Some proc =>
      err ← try (call (Kill proc));
      werr ← try setnsWait;
      match err, werr with
      | Some e, _ => fail e
      | None, Some e => fail e
      | None, None => mret ()
      end
  end.

Definition execSetns : M unit :=
  err ← try (call ProcessWait);
  match err with
  | Some e =>
      _ ← call_ CmdWait;
      fail (ErrCause "waiting on setns process to finish" e)
  | None =>
      if negb (exitSuccess child)
      then _ ← call_ CmdWait; fail (ErrStr "exit status")
      else
        derr ← try (call DecodePid);
        match derr with
        | Some e =>
            _ ← call_ CmdWait;
            fail (ErrCause "reading pid from init pipe" e)
        | None =>
            _ ← call_ (WaitFirstChild (PidFirstChild child));
            _ ← modify (setCmdProcess (Some (PidFinal child)));
            modify (setOps true)
        end
  end.

(** Lines 120-142: the placement of the process in the container's
    cgroups, with the fallback to the cgroup of the init process. *)
Definition enterCgroups : M unit :=
  if hasCgroupPaths p then
    proc ← pid;
    err ← try (call (EnterPid proc));
    match err with
    | Some e0 =>
        if rootlessCgroups p then mret ()
        else
          err ←
            (if IsCgroup2UnifiedMode p then
               initCgErr ← try (call (ParseCgroupFile (initProcessPid p)));
               match initCgErr with
               | None =>
                   match initCg p !! "" with
                   | Some initCgPath =>
                       try (call (WriteCgroupProc
                                    (filepathJoin p (UnifiedMountpoint p) initCgPath)
                                    proc))
                   | None => mret (Some e0)
                   end
               | Some _ => mret (Some e0)
               end
             else mret (Some e0));
          match err with
          | Some e => fail (ErrCause "adding pid to cgroups" e)
          | None => mret ()
          end
    | None => mret ()
    end
  else mret ().

Definition applyIntelRdt : M unit :=
  if negb (bool_decide (intelRdtPath p = "")) then
    st ← try (call StatIntelRdtPath);
    match st with
    | None =>
        proc ← pid;
        wrap "adding pid to Intel RDT resource control filesystem"
          (call (WriteIntelRdtTasks proc))
    | Some _ => mret ()
    end
  else mret ().

Definition setnsHandleSync (t : syncType) : M unit :=
  match t with
  | procReady | procHooks | reqOp => panic
  | procFd =>
      _ ← wrap "writing syncT 'sendFd'" (writeSync sendFd);
      _ ← wrap "receiving seccomp fd" (call RecvSeccompFd);
      proc ← pid;
      _ ← wrap "processing seccomp fd" (call (ProcSeccompInit proc));
      wrap "writing syncT 'procFdDone'" (writeSync procFdDone)
  | _ => fail (ErrStr "invalid JSON payload from child")
  end.

(** What precedes the cgroup placement. *)
Definition beforeCgroups : M unit :=
  _ ← (if hasBootstrapData p
       then wrap "copying bootstrap data to pipe" (call CopyBootstrapData)
       else mret ());
  wrap "executing setns process" execSetns.

(** What follows it. *)
Definition afterCgroups : M unit :=
  _ ← applyIntelRdt;
  proc ← pid;
  _ ← wrap "setting rlimits for process" (call (SetupRlimits proc));
  _ ← wrap "writing config to pipe" (call WriteConfig);
  ierr ← parseSync (frames child) setnsHandleSync;
  _ ← wrap "calling shutdown on init pipe" (call Shutdown);
  match ierr with
  | Some e => _ ← try setnsWait; fail e
  | None => mret ()
  end.

Definition setnsRollback (r : result unit) : M unit :=
  match r with
  | Err _ => _ ← try setnsTerminate; mret ()
  | _ => mret ()
  end.

Definition setnsStart : M unit :=
  defer
    (err ← try startCmd;
     _ ← call_ CloseChildSock;
     _ ← call_ CloseChildLog;
     match err with
     | Some e => fail (ErrCause "starting setns process" e)
     | None =>
         defer (_ ← beforeCgroups; _ ← enterCgroups; afterCgroups)
               setnsRollback
     end)
    (λ _, call_ CloseParentSock).

End Setns.

End World.

End Launch.

(** ** The stdio pipes of a process ([Process.InitializeIO]) *)

Module ProcessIO.

(** What happened, in order: an [os.Pipe] and its two descriptors or its
    error, a [unix.Fchown] and its outcome, a [unix.Close]. *)
Inductive IoEvent :=
| PipeOk (r wr : Z)
| PipeErr (e : error)
| Fchown (fd uid gid : Z) (err : option error)
| Close (fd : Z).

(** The kernel decides the outcome of each call from what happened so far. *)
Record Kernel := {
  Pipe : list IoEvent → (Z * Z) + error;
  FchownErr : list IoEvent → Z → option error;
}.

(** The three files of [Process] the function assigns ([None] is nil), and
    the [IO] it returns; a file is its descriptor. *)
Record ProcessFiles := {
  Stdin : option Z;
  Stdout : option Z;
  Stderr : option Z;
}.

Record IO := {
  IO_Stdin : Z;
  IO_Stdout : Z;
  IO_Stderr : Z;
}.

Definition setStdin (p : ProcessFiles) (f : Z) : ProcessFiles :=
  {| Stdin := Some f; Stdout := Stdout p; Stderr := Stderr p |}.
Definition setStdout (p : ProcessFiles) (f : Z) : ProcessFiles :=
  {| Stdin := Stdin p; Stdout := Some f; Stderr := Stderr p |}.
Definition setStderr (p : ProcessFiles) (f : Z) : ProcessFiles :=
  {| Stdin := Stdin p; Stdout := Stdout p; Stderr := Some f |}.

(** The loop [for _, fd := range fds { if err := unix.Fchown(...); err != nil
    { return nil, err } }]. *)
Fixpoint chownAll (k : Kernel) (rootuid rootgid : Z) (fds : list Z)
    (tr : list IoEvent) : option error * list IoEvent :=
  match fds with
  | [] => (None, tr)
  | fd :: rest =>
      let err := FchownErr k tr fd in
      let tr := tr ++ [Fchown fd rootuid rootgid err] in
      match err with
      | Some e => (Some e, tr)
      | None => chownAll k rootuid rootgid rest tr
      end
  end.

(** The deferred function: [if err != nil { for _, fd := range fds {
    unix.Close(int(fd)) } }]. *)
Definition cleanup (err : option error) (fds : list Z) (tr : list IoEvent)
  : list IoEvent :=
  match err with
  | Some _ => tr ++ map Close fds
  | None => tr
  end.

(** [InitializeIO]: the result, the files of the process, and what
    happened. *)
Definition InitializeIO (k : Kernel) (p : ProcessFiles) (rootuid rootgid : Z)
  : result IO * ProcessFiles * list IoEvent :=
  let fds : list Z := [] in
  (* STDIN *)
  match Pipe k [] with
  | inr e => (Err e, p, cleanup (Some e) fds [PipeErr e])
  | inl (r1, w1) =>
      let tr := [PipeOk r1 w1] in
      let fds := fds ++ [r1; w1] in
      let p := setStdin p r1 in
      (* STDOUT *)
      match Pipe k tr with
      | inr e => (Err e, p, cleanup (Some e) fds (tr ++ [PipeErr e]))
      | inl (r2, w2) =>
          let tr := tr ++ [PipeOk r2 w2] in
          let fds := fds ++ [r2; w2] in
          let p := setStdout p w2 in
          (* STDERR *)
          match Pipe k tr with
          | inr e => (Err e, p, cleanup (Some e) fds (tr ++ [PipeErr e]))
          | inl (r3, w3) =>
              let tr := tr ++ [PipeOk r3 w3] in
              let fds := fds ++ [r3; w3] in
              let p := setStderr p w3 in
              match chownAll k rootuid rootgid fds tr with
              | (Some e, tr) => (Err e, p, cleanup (Some e) fds tr)
              | (None, tr) =>
                  (Ok {| IO_Stdin := w1; IO_Stdout := r2; IO_Stderr := r3 |},
                   p, cleanup None fds tr)
              end
          end
      end
  end.

End ProcessIO.

(** ** Inputs used in examples *)

Definition sampleWhitelist : list string := ["mount"; "umount2"; "pivot_root"].

(** A blacklist profile: default allow, [mount] answered with an errno. *)
Definition mountErrnoProfile : LinuxSeccomp := {|
  DefaultAction := ActAllow;
  Architectures := [ArchX86_64];
  Syscalls := [ {| Names := Some ["mount"]; Action := ActErrno; Syscall_Args := [] |} ];
|}.

(** A blacklist profile that denies syscalls outside the whitelist. *)
Definition denyProfile (l : list string) : LinuxSeccomp := {|
  DefaultAction := ActAllow;
  Architectures := [ArchX86_64];
  Syscalls := [ {| Names := Some l; Action := ActErrno; Syscall_Args := [] |} ];
|}.

(** A whitelist profile: default errno, [mount] allowed for one argument
    value only, [clone] allowed with a restriction. *)
Definition sampleWhitelistProfile : LinuxSeccomp := {|
  DefaultAction := ActErrno;
  Architectures := [ArchX86_64];
  Syscalls := [
    {| Names := Some ["mount"]; Action := ActAllow;
       Syscall_Args := [ {| Index := 3; Value := 4096; ValueTwo := 0; Op := "SCMP_CMP_EQ" |} ] |};
    {| Names := Some ["clone"]; Action := ActAllow;
       Syscall_Args := [ {| Index := 0; Value := 2114060288; ValueTwo := 0; Op := "SCMP_CMP_MASKED_EQ" |} ] |};
    {| Names := Some ["kexec_load"]; Action := ActErrno; Syscall_Args := [] |}
  ];
|}.

(** A host on which every call succeeds; the runtime's own network namespace
    has inode 100, the namespace behind /proc/1/ns/net is the same one, every
    other path is a different file. *)
Definition sampleHost : Host := {|
  Stat := λ path,
    Ok {| Dev := 4;
          Ino := if bool_decide (path = "/proc/self/ns/net")
                    || bool_decide (path = "/proc/1/ns/net")
                 then 100 else 200 |};
  Abs := λ path, Ok path;
  Join := λ a b, a +:+ "/" +:+ b;
  CheckUidShifting := λ _, Ok (true, false);
  sortMounts := λ m, m;
  GetEnvVarInfo := λ v, Ok (v, "");
  setIter := elements;
  mapIter := map_to_list;
  syscontSyscallWhitelist := sampleWhitelist;
  syscontSyscallAllowRestrList := ["clone"];
|}.

Definition noMgr : Mgr := {|
  Mgr_Enabled := false;
  Mgr_Userns := "";
  Mgr_UidMappings := [];
  Mgr_GidMappings := [];
  ReqSubid := λ _, Ok (100000, 100000);
  PrepMounts := λ _ _ _, Ok ();
  ReqMounts := λ _ _ _ _ _, Ok [];
|}.

Definition sampleFs : Fs :=
  {| Fs_Enabled := true; Mountpoint := "/var/lib/sysboxfs"; Id := "c1" |}.

Definition noFs : Fs :=
  {| Fs_Enabled := false; Mountpoint := ""; Id := "" |}.

Definition newNs (t : string) : LinuxNamespace :=
  {| Namespace_Type := t; Namespace_Path := "" |}.

Definition sampleProcess (args : list string) : Process := {|
  Process_Args := args;
  Env := ["PATH=/usr/bin"];
  Process_User := {| UID := 0; GID := 0 |};
  Capabilities :=
    Some {| Bounding := []; Effective := []; Inheritable := [];
            Permitted := []; Ambient := [] |};
  ApparmorProfile := "docker-default";
  OOMScoreAdj := Some (-1000);
|}.

Definition sampleLinux (netPath : string) : Linux := {|
  Namespaces :=
    [newNs "pid"; newNs "ipc"; newNs "uts"; newNs "mount";
     {| Namespace_Type := "network"; Namespace_Path := netPath |}];
  UIDMappings := [];
  GIDMappings := [];
  MaskedPaths := ["/proc/kcore"; "/proc/keys"; "/run"];
  ReadonlyPaths := ["/proc/bus"; "/proc/sys"; "/tmp"];
  Seccomp := None;
|}.

(** A spec with the five required namespaces and no mappings. *)
Definition sampleSpec (readonly : bool) (args : list string) (netPath : string)
  : Spec := {|
  Spec_Root := Some {| Root_Path := "/rootfs"; Readonly := readonly |};
  Spec_Process := Some (sampleProcess args);
  Spec_Linux := Some (sampleLinux netPath);
  Mounts := [];
|}.

Definition uidRange (cid hid size : Z) : LinuxIDMapping :=
  {| ContainerID := cid; HostID := hid; Size := size |}.

(** A spec whose uid mapping comes in two contiguous sub-ranges. *)
Definition splitMappingSpec : Spec :=
  setLinux (sampleSpec false ["/bin/sh"] "")
    (setIDMappings (sampleLinux "")
       [uidRange 32768 198304 32768; uidRange 0 165536 32768]
       [uidRange 0 165536 65536]).

Import Launch.

(** Launch inputs. *)

(** A world in which every call succeeds. *)
Definition calmWorld : Launch.World := λ _ _, None.

(** A world in which writing the config to the init pipe fails. *)
Definition sendConfigFails : Launch.World := λ _ op,
  match op with
  | Launch.WriteConfig => Some (ErrErrno EIO)
  | _ => None
  end.

(** A world in which the placement in the container's cgroups fails with
    EACCES and every other call succeeds. *)
Definition enterPidDenied : Launch.World := λ _ op,
  match op with
  | Launch.EnterPid _ => Some (ErrErrno EACCES)
  | _ => None
  end.

(** A child that reports its rootfs, asks for the hooks and is ready. *)
Definition sampleChild : Launch.Child := {|
  Launch.bootstrapPid := 100;
  Launch.PidFirstChild := 101;
  Launch.PidFinal := 102;
  Launch.exitSuccess := true;
  Launch.fdTarget := λ _, "/dev/null";
  Launch.frames :=
    [Launch.FSync Launch.rootfsReady; Launch.FSync Launch.procHooks;
     Launch.FSync Launch.procReady];
|}.

(** A child of a setns launch: it sends nothing. *)
Definition quietChild : Launch.Child := {|
  Launch.bootstrapPid := 100;
  Launch.PidFirstChild := 101;
  Launch.PidFinal := 102;
  Launch.exitSuccess := true;
  Launch.fdTarget := λ _, "/dev/null";
  Launch.frames := [];
|}.

Definition sampleInit : Launch.initProcess := {|
  Launch.hasIntelRdt := true;
  Launch.sharePidns := false;
  Launch.cgType := Launch.Cgroup_v2_fs;
  Launch.newMountNs := true;
  Launch.newCgroupNs := true;
  Launch.cgroupNsPath := "";
  Launch.hasHooks := true;
  Launch.Networks := ["loopback"];
  Launch.sysFsEnabled := true;
  Launch.config_Hostname := "syscont";
  Launch.config_UidMappings := [uidRange 0 231072 65536];
  Launch.config_GidMappings := [uidRange 0 231072 65536];
  Launch.config_ReadonlyPaths := ["/proc/bus"; "/sys/firmware"];
  Launch.config_MaskPaths := ["/proc/keys"];
|}.

(** An exec into a container on a host with cgroup v2 in unified mode. *)
Definition sampleSetns : Launch.setnsProcess := {|
  Launch.hasCgroupPaths := true;
  Launch.rootlessCgroups := false;
  Launch.intelRdtPath := "";
  Launch.hasBootstrapData := true;
  Launch.initProcessPid := 42;
  Launch.IsCgroup2UnifiedMode := true;
  Launch.initCg := {[ "" := "/docker/c1/init.scope" ]};
  Launch.UnifiedMountpoint := "/sys/fs/cgroup";
  Launch.filepathJoin := λ a b, a +:+ b;
|}.

(** ** Vocabulary of the properties *)

(** The names a profile lists under the action [act]. *)
Definition underAction (act : string) (syscalls : list LinuxSyscall) (n : string)
  : Prop :=
  ∃ sc, sc ∈ syscalls ∧ Action sc = act ∧ n ∈ names sc.

(** [s'] differs from [s] in its mounts at most. *)
Definition sameButMounts (s s' : Spec) : Prop :=
  Spec_Root s' = Spec_Root s ∧ Spec_Process s' = Spec_Process s ∧
  Spec_Linux s' = Spec_Linux s.

(** The sysbox-required mounts after the read-only rewrite of
    [cfgSysboxMounts]. *)
Definition roSysMounts (l : list Mount) : list Mount :=
  map (λ m, if Utils.HasPrefix (Destination m) "/sys"
            then setOptions m (Utils.StringSliceRemove (Options m) ["rw"] ++ ["ro"])
            else m) l.

Definition hostNetnsShared : error :=
  ErrStr "sysbox containers can't share a network namespace with the host (because they use the linux user-namespace for isolation)".

(** The requirement of the spec on the mappings of a container, on the
    ranges that remain after the merge. *)
Definition validMappings (l : Linux) : Prop :=
  ∃ u g,
    mergeRanges (UIDMappings l) = [u] ∧ mergeRanges (GIDMappings l) = [g] ∧
    ContainerID u = 0 ∧ IdRangeMin ≤ Size u ∧
    ContainerID g = 0 ∧ IdRangeMin ≤ Size g ∧
    HostID u = HostID g ∧ HostID u ≠ 0.

(** A merged uid or gid mapping that starts at host id 0. *)
Definition mapsHostRoot (l : Linux) : Prop :=
  (∃ u, mergeRanges (UIDMappings l) = [u] ∧ HostID u = 0) ∨
  (∃ g, mergeRanges (GIDMappings l) = [g] ∧ HostID g = 0).

(** [m] keeps [I]: from a state in [I] it ends in a state in [I], whatever
    its result. *)
Definition keeps {A} (I : St → Prop) (m : M A) : Prop :=
  ∀ s, I s → I (m s).2.

(** The invariant of the init launch.  The child process is known; a
    registration with sysbox-fs comes after a [rootfsReady] message;
    [sentRun] is set after a [procReady] message and a successful [procRun]
    reply, [sentResume] after a [procHooks] message and a successful
    [procResume] reply; the messages [seen] have been read. *)
Definition launchInv (seen : list syncType) (s : St) : Prop :=
  (is_Some (cmdProcess s) ∧ Call CmdStart None ∈ trace s) ∧
  (∀ info r, Call (Register info) r ∈ trace s → Recv rootfsReady ∈ trace s) ∧
  (sentRun s = true →
     Recv procReady ∈ trace s ∧ Call (WriteSync procRun) None ∈ trace s) ∧
  (sentResume s = true →
     Recv procHooks ∈ trace s ∧ Call (WriteSync procResume) None ∈ trace s) ∧
  (∀ t, t ∈ seen → Recv t ∈ trace s).

(** The state in which [startBody] begins when [cmd.Start] has succeeded. *)
Definition startedSt (w : World) (child : Child) : St :=
  let s0 := setOps true (setCmdProcess (Some (bootstrapPid child))
                           (addEvent (Call CmdStart None) initSt)) in
  let s1 := addEvent (Call CloseChildSock (w (trace s0) CloseChildSock)) s0 in
  addEvent (Call CloseChildLog (w (trace s1) CloseChildLog)) s1.

Definition noProcReady : error := ErrCauseNil "container init".

Definition noResume : error :=
  ErrStr "could not synchronise after executing prestart and CreateRuntime hooks with container process".

Definition addingPid (e : error) : error := ErrCause "adding pid to cgroups" e.

(** The state in which the body of the setns launch begins when [cmd.Start]
    has succeeded. *)
Definition setnsStartedSt (w : World) (child : Child) : St :=
  let s0 := setCmdProcess (Some (bootstrapPid child))
              (addEvent (Call CmdStart None) initSt) in
  let s1 := addEvent (Call CloseChildSock (w (trace s0) CloseChildSock)) s0 in
  addEvent (Call CloseChildLog (w (trace s1) CloseChildLog)) s1.

(** ** Further inputs used in examples *)

(** An enabled manager: it overrides the user namespace, hands out the
    host ids 165536, and returns two mounts, one of them on a destination
    the sample spec with mounts uses. *)
Definition sampleMgr : Mgr := {|
  Mgr_Enabled := true;
  Mgr_Userns := "/proc/7/ns/user";
  Mgr_UidMappings := [];
  Mgr_GidMappings := [];
  ReqSubid := λ _, Ok (165536, 165536);
  PrepMounts := λ _ _ _, Ok ();
  ReqMounts := λ _ _ _ _ _,
    Ok [mkMount "/var/lib/kubelet" "/var/lib/sysbox/kubelet/c1" "bind" ["rbind"; "rw"];
        mkMount "/data" "/var/lib/sysbox/data/c1" "bind" ["rbind"; "rw"]];
|}.

(** The sample spec without its pid namespace. *)
Definition noPidSpec : Spec :=
  setLinux (sampleSpec false ["/bin/sh"] "")
    (setNamespaces (sampleLinux "")
       [newNs "ipc"; newNs "uts"; newNs "mount"; newNs "network"]).

(** A spec with mounts of its own: on /proc (a sysbox-required
    destination), under /sys/fs/cgroup/, a bind mount on /var/lib/docker, a
    bind mount on /run and a tmpfs on /run/lock (systemd directories), and
    on /data. *)
Definition mountsSpec (readonly : bool) : Spec :=
  setMounts
    (setLinux (sampleSpec readonly ["/sbin/init"] "")
       (setIDMappings (sampleLinux "")
          [uidRange 0 165536 65536] [uidRange 0 165536 65536]))
    [mkMount "/proc" "proc" "proc" [];
     mkMount "/sys/fs/cgroup/systemd" "cgroup" "cgroup" [];
     mkMount "/var/lib/docker" "/mnt/docker" "bind" ["rbind"];
     mkMount "/run" "/mnt/run" "bind" ["rbind"];
     mkMount "/run/lock" "tmpfs" "tmpfs" ["size=1m"];
     mkMount "/data" "/mnt/data" "bind" ["rbind"]].

(** A spec without a root section. *)
Definition noRootSpec : Spec :=
  {| Spec_Root := None; Spec_Process := Some (sampleProcess ["/bin/sh"]);
     Spec_Linux := Some (sampleLinux ""); Mounts := [] |}.

(** A host on which the network namespace of the runtime cannot be
    stat-ed. *)
Definition statFails : Host := {|
  Stat := λ path,
    if bool_decide (path = "/proc/self/ns/net") then Err (ErrErrno EACCES)
    else Ok {| Dev := 4; Ino := 200 |};
  Abs := λ path, Ok path;
  Join := λ a b, a +:+ "/" +:+ b;
  CheckUidShifting := λ _, Ok (true, false);
  sortMounts := λ m, m;
  GetEnvVarInfo := λ v, Ok (v, "");
  setIter := elements;
  mapIter := map_to_list;
  syscontSyscallWhitelist := sampleWhitelist;
  syscontSyscallAllowRestrList := ["clone"];
|}.

(** A profile for another architecture, with a default action the
    converter does not support. *)
Definition armTrapProfile : LinuxSeccomp := {|
  DefaultAction := ActTrap;
  Architectures := ["SCMP_ARCH_ARM"];
  Syscalls := [];
|}.

(** A blacklist profile that denies one name of the whitelist and one
    name outside it, and allows a third. *)
Definition mixedProfile : LinuxSeccomp := {|
  DefaultAction := ActAllow;
  Architectures := [ArchX86_64];
  Syscalls := [
    {| Names := Some ["mount"; "kexec_load"]; Action := ActErrno; Syscall_Args := [] |};
    {| Names := Some ["read"]; Action := ActAllow; Syscall_Args := [] |}
  ];
|}.

(** A child that says it is ready at once, as the child of an init launch
    without a new mount namespace does. *)
Definition readyChild : Launch.Child := {|
  Launch.bootstrapPid := 100;
  Launch.PidFirstChild := 101;
  Launch.PidFinal := 102;
  Launch.exitSuccess := true;
  Launch.fdTarget := λ _, "/dev/null";
  Launch.frames := [Launch.FSync Launch.procReady];
|}.
(** ** Further vocabulary: the converter *)

(** The namespaces [cfgNamespaces] requires and the ones it completes the
    spec with. *)
Definition requiredNamespaces : list string :=
  ["pid"; "ipc"; "uts"; "mount"; "network"].
Definition allNamespaces : list string :=
  ["pid"; "ipc"; "uts"; "mount"; "network"; "user"; "cgroup"].

Definition nsTypes (l : Linux) : list string :=
  map Namespace_Type (Namespaces l).

(** The manager's override of the user namespace, on one entry. *)
Definition usernsOverride (mgr : Mgr) (ns : LinuxNamespace) : LinuxNamespace :=
  if Mgr_Enabled mgr && negb (bool_decide (Mgr_Userns mgr = ""))
     && bool_decide (Namespace_Type ns = UserNamespace)
  then {| Namespace_Type := Namespace_Type ns; Namespace_Path := Mgr_Userns mgr |}
  else ns.

(** One range from container id 0 with at least 65536 ids for uids and for
    gids, on the same host id, which is not 0. *)
Definition singleRange (l : Linux) : Prop :=
  ∃ u g, UIDMappings l = [u] ∧ GIDMappings l = [g] ∧
         ContainerID u = 0 ∧ IdRangeMin ≤ Size u ∧
         ContainerID g = 0 ∧ IdRangeMin ≤ Size g ∧
         HostID u = HostID g ∧ HostID u ≠ 0.

Definition destinations (l : list Mount) : list string := map Destination l.


(** ** Further vocabulary: the launch *)

(** The calls of the rollback: SIGKILL to the child and the destruction of
    the cgroup and of the Intel RDT allocation. *)
Definition cleanupOp (op : Op) : bool :=
  match op with
  | Kill _ | CgroupDestroy | RdtDestroy => true
  | _ => false
  end.

Definition noCleanup (s : St) : Prop :=
  ∀ op r, Call op r ∈ trace s → cleanupOp op = false.

(** The registration [registerWithSysboxfs] sends for the child [c], with
    the first uid and gid mappings [u] and [g] of the configuration. *)
Definition regInfo (p : initProcess) (c : Z) (u g : LinuxIDMapping) : FsRegInfo :=
  {| Hostname := config_Hostname p; Pid := c;
     Uid := HostID u; Gid := HostID g; IdSize := Size u;
     ProcRoPaths :=
       List.filter (λ x, Utils.HasPrefix x "/proc") (config_ReadonlyPaths p);
     ProcMaskPaths :=
       List.filter (λ x, Utils.HasPrefix x "/proc") (config_MaskPaths p) |}.

(** Every hook was run for the final child, with hooks configured, and
    the trace has a [procHooks] message or, without a new mount namespace, a
    [procReady] message. *)
Definition hooksOK (p : initProcess) (child : Child) (s : St) : Prop :=
  ∀ h c r, Call (RunHooks h c) r ∈ trace s →
    hasHooks p = true ∧ c = PidFinal child ∧
    (Recv procHooks ∈ trace s ∨
     (newMountNs p = false ∧ Recv procReady ∈ trace s)).

(** The last message read from the child in a trace. *)
Definition lastRecv (tr : list Event) : option syncType :=
  last (omap (λ e, match e with Recv t => Some t | Call _ _ => None end) tr).

(** Each run of a hook answers a message: the last message read from the
    child before the call is [procHooks] or, without a new mount namespace,
    [procReady]. *)
Definition hookOrder (p : initProcess) (s : St) : Prop :=
  ∀ before after h c r,
    trace s = before ++ Call (RunHooks h c) r :: after →
    lastRecv before = Some procHooks ∨
    (newMountNs p = false ∧ lastRecv before = Some procReady).

(** The same while the message [t] is handled. *)
Definition hookTurn (p : initProcess) (t : syncType) (s : St) : Prop :=
  hookOrder p s ∧ lastRecv (trace s) = Some t.

(** Every registration was the one of the final child. *)
Definition regOK (p : initProcess) (child : Child) (s : St) : Prop :=
  ∀ info r, Call (Register info) r ∈ trace s →
    sysFsEnabled p = true ∧
    ∃ u g, config_UidMappings p !! 0%nat = Some u ∧
           config_GidMappings p !! 0%nat = Some g ∧
           info = regInfo p (PidFinal child) u g.

Definition traceOK (p : initProcess) (child : Child) (s : St) : Prop :=
  hooksOK p child s ∧ regOK p child s.

(** No hook and no registration yet, and [procRun] not sent. *)
Definition quiet (s : St) : Prop :=
  (∀ op r, Call op r ∈ trace s →
     match op with RunHooks _ _ | Register _ => False | _ => True end) ∧
  (∀ t, Recv t ∉ trace s) ∧
  sentRun s = false.

(** The invariant of the sync loop of the init launch. *)
Definition syncInv (p : initProcess) (child : Child) (seen : list syncType)
    (s : St) : Prop :=
  hooksOK p child s ∧ regOK p child s ∧
  (sentRun s = true →
     containerCreated s = true ∧ Call UpdateState None ∈ trace s) ∧
  (cmdProcess s = Some (PidFinal child) ∧ opsSet s = true ∧
   length (fds s) = 3%nat) ∧
  (∀ t, t ∈ seen → Recv t ∈ trace s).

(** What [getPipeFds] records for descriptor [i] from the outcome of its
    [readlink]. *)
Definition fdEntry (child : Child) (i : nat) (r : option error) : string :=
  match r with
  | None => fdTarget child i
  | Some _ => ""
  end.

(** The fields of the state that the calls leave alone. *)
Definition fieldsAre (c : option Z) (o : bool) (n : nat) (s : St) : Prop :=
  cmdProcess s = c ∧ opsSet s = o ∧ length (fds s) = n.


(** ** Further vocabulary: the rootfs owner and the stdio pipes *)

(** The host id a list of mappings gives container id 0: the one of the
    last mapping for container id 0, and 0 when there is none. *)
Definition rootHostID (ms : list LinuxIDMapping) : Z :=
  default 0 (HostID <$> last (filter (λ m, ContainerID m = 0) ms)).

(** The descriptors the pipes of a trace opened, in order. *)
Definition openedFds (tr : list ProcessIO.IoEvent) : list Z :=
  flat_map (λ ev, match ev with
                  | ProcessIO.PipeOk r wr => [r; wr]
                  | _ => []
                  end) tr.

Definition noClose (tr : list ProcessIO.IoEvent) : Prop :=
  ∀ fd, ProcessIO.Close fd ∉ tr.

(** A kernel in which the third pipe cannot be opened. *)
Definition thirdPipeFails : ProcessIO.Kernel := {|
  ProcessIO.Pipe := λ tr,
    match length tr with
    | 0%nat => inl (3, 4)
    | 1%nat => inl (5, 6)
    | _ => inr (ErrErrno EIO)
    end;
  ProcessIO.FchownErr := λ _ _, None;
|}.

Definition noFiles : ProcessIO.ProcessFiles :=
  {| ProcessIO.Stdin := None; ProcessIO.Stdout := None; ProcessIO.Stderr := None |}.

(** * Proofs *)

(** ** Slice helpers *)

Lemma StringSliceContains_true (a : list string) (x : string) :
  Utils.StringSliceContains a x = true ↔ x ∈ a.
Proof.
  unfold Utils.StringSliceContains. rewrite existsb_exists. split.
  - intros (n & Hin & Heq). apply bool_decide_eq_true in Heq. subst.
    by apply list_elem_of_In.
  - intros Hin. exists x. split; [by apply list_elem_of_In|].
    by apply bool_decide_eq_true.
Qed.

Lemma StringSliceContains_false (a : list string) (x : string) :
  Utils.StringSliceContains a x = false ↔ x ∉ a.
Proof.
  rewrite <- StringSliceContains_true. destruct (Utils.StringSliceContains a x); naive_solver.
Qed.

Lemma StringSliceRemove_elem (s db : list string) (x : string) :
  x ∈ Utils.StringSliceRemove s db ↔ x ∈ s ∧ x ∉ db.
Proof.
  unfold Utils.StringSliceRemove.
  rewrite list_elem_of_In, filter_In, negb_true_iff, StringSliceContains_false.
  by rewrite <- list_elem_of_In.
Qed.

(** ** Seccomp *)

Lemma foldl_union_singleton (l : list string) (acc : gset string) (n : string) :
  n ∈ foldl (λ acc sc, {[sc]} ∪ acc) acc l ↔ n ∈ acc ∨ n ∈ l.
Proof.
  revert acc. induction l as [|x l IH]; intros acc; simpl.
  - set_solver.
  - rewrite IH. set_solver.
Qed.

Lemma supportedArch_fold (archs : list string) (b : bool) :
  foldl (λ b arch, if bool_decide (arch = ArchX86_64) then true else b) b archs
  = true ↔ b = true ∨ ArchX86_64 ∈ archs.
Proof.
  revert b. induction archs as [|a archs IH]; intros b; simpl.
  - set_solver.
  - rewrite IH. case_bool_decide; set_solver.
Qed.

Lemma categorizeName_allow act sets l n :
  n ∈ (foldl (categorizeName act) sets l).1.1
  ↔ n ∈ sets.1.1 ∨ (act = ActAllow ∧ n ∈ l).
Proof.
  revert sets. induction l as [|x l IH]; intros [[a e] k]; simpl.
  - set_solver.
  - rewrite IH. unfold categorizeName.
    repeat case_bool_decide; simpl; set_solver.
Qed.

Lemma categorize_allow_gen syscalls sets n :
  n ∈ (foldl (λ sets sc, foldl (categorizeName (Action sc)) sets (names sc))
         sets syscalls).1.1
  ↔ n ∈ sets.1.1 ∨ underAction ActAllow syscalls n.
Proof.
  revert sets. induction syscalls as [|sc l IH]; intros sets; simpl.
  - unfold underAction. set_solver.
  - rewrite IH, categorizeName_allow. unfold underAction. split.
    + intros [[?|[? ?]]|(sc' & ? & ? & ?)]; [by left| |].
      * right. exists sc. set_solver.
      * right. exists sc'. set_solver.
    + intros [?|(sc' & Hin & ? & ?)]; [by left; left|].
      apply elem_of_cons in Hin as [->|?]; [left; right; done|].
      right. exists sc'. done.
Qed.

Lemma categorize_allow syscalls n :
  n ∈ (categorize syscalls).1.1 ↔ underAction ActAllow syscalls n.
Proof.
  unfold categorize. rewrite categorize_allow_gen. simpl. set_solver.
Qed.

Lemma addDiffSet_app iter D syscalls :
  addDiffSet iter D syscalls = syscalls ++ map allowEntry (iter D).
Proof.
  unfold addDiffSet. generalize (iter D) as l. intros l. revert syscalls.
  induction l as [|x l IH]; intros syscalls; simpl.
  - by rewrite app_nil_r.
  - rewrite IH. by rewrite <- app_assoc.
Qed.

Lemma stripArgs_fold R l sc :
  let sc' := foldl (λ sc' name,
               if negb (Utils.StringSliceContains R name)
               then setArgs sc' [] else sc') sc l in
  Names sc' = Names sc ∧ Action sc' = Action sc ∧
  ((Syscall_Args sc = [] ∨ ∃ n, n ∈ l ∧ n ∉ R) → Syscall_Args sc' = []).
Proof.
  revert sc. induction l as [|x l IH]; intros sc; simpl.
  - split_and!; try done. intros [?|(n & Hn & _)]; [done|]. by apply elem_of_nil in Hn.
  - destruct (Utils.StringSliceContains R x) eqn:HR; simpl.
    + destruct (IH sc) as (? & ? & H3). split_and!; try done.
      intros [?|(n & Hn & HnR)]; apply H3; [by left|].
      apply elem_of_cons in Hn as [->|?].
      * apply StringSliceContains_true in HR. done.
      * right. eauto.
    + destruct (IH (setArgs sc [])) as (? & ? & H3). split_and!; try done.
      intros _. apply H3. by left.
Qed.

Lemma stripArgs_spec R sc :
  Names (stripArgs R sc) = Names sc ∧ Action (stripArgs R sc) = Action sc ∧
  ((Syscall_Args sc = [] ∨ ∃ n, n ∈ names sc ∧ n ∉ R) →
   Syscall_Args (stripArgs R sc) = []).
Proof. apply stripArgs_fold. Qed.

Lemma stripArgs_allowEntry R n : stripArgs R (allowEntry n) = allowEntry n.
Proof.
  unfold stripArgs, allowEntry, names. simpl.
  by destruct (Utils.StringSliceContains R n).
Qed.

(** C3. In whitelist mode (an x86_64 profile whose default action is errno
    or kill) the conversion succeeds; it appends one allow entry for each
    name of the whitelist that no allow entry of the profile lists, so that
    afterwards every name of the whitelist is under an allow entry; and every
    entry that has a name outside the restrictions-allowed list has its
    argument restrictions cleared. *)
Theorem cfgSeccomp_whitelist_closure
    (W R : list string) (iter : gset string → list string) (s : LinuxSeccomp) :
  (∀ X, iter X ≡ₚ elements X) →
  ArchX86_64 ∈ Architectures s →
  DefaultAction s = ActErrno ∨ DefaultAction s = ActKill →
  ∃ s' (D : gset string) (added : list LinuxSyscall),
    cfgSeccomp W R iter (Some s) = Ok (Some s') ∧
    DefaultAction s' = DefaultAction s ∧
    (∀ n, n ∈ D ↔ n ∈ W ∧ ¬ underAction ActAllow (Syscalls s) n) ∧
    added ≡ₚ allowEntry <$> elements D ∧
    Syscalls s' = map (stripArgs R) (Syscalls s) ++ added ∧
    (∀ n, n ∈ W → underAction ActAllow (Syscalls s') n) ∧
    (∀ sc, sc ∈ Syscalls s' → (∃ n, n ∈ names sc ∧ n ∉ R) →
           Syscall_Args sc = []).
Proof.
  intros Hiter Harch Hdef.
  set (allowSet := (categorize (Syscalls s)).1.1).
  set (Wset := foldl (λ acc sc, {[sc]} ∪ acc) (∅ : gset string) W).
  set (D := Wset ∖ allowSet).
  assert (HD : ∀ n, n ∈ D ↔ n ∈ W ∧ ¬ underAction ActAllow (Syscalls s) n).
  { intros n. unfold D, Wset, allowSet.
    rewrite elem_of_difference, foldl_union_singleton, categorize_allow.
    set_solver. }
  exists (setSyscalls s (map (stripArgs R) (Syscalls s ++ map allowEntry (iter D)))),
         D, (map allowEntry (iter D)).
  assert (Hmap : map (stripArgs R) (Syscalls s ++ map allowEntry (iter D))
                 = map (stripArgs R) (Syscalls s) ++ map allowEntry (iter D)).
  { rewrite map_app. f_equal. rewrite map_map. apply map_ext.
    intros. apply stripArgs_allowEntry. }
  split_and!.
  - unfold cfgSeccomp.
    assert (Hs : foldl (λ b arch, if bool_decide (arch = ArchX86_64) then true else b)
                   false (Architectures s) = true)
      by (apply supportedArch_fold; by right).
    rewrite Hs. simpl.
    assert (Hw : bool_decide (DefaultAction s = ActErrno)
                 || bool_decide (DefaultAction s = ActKill) = true).
    { destruct Hdef as [-> | ->]; done. }
    assert (Hna : bool_decide (DefaultAction s ≠ ActAllow)
                  && bool_decide (DefaultAction s ≠ ActErrno)
                  && bool_decide (DefaultAction s ≠ ActKill) = false).
    { destruct Hdef as [-> | ->]; done. }
    rewrite Hna.
    fold Wset. subst D allowSet.
    destruct (categorize (Syscalls s)) as [[a e] k]. simpl.
    rewrite Hw. by rewrite addDiffSet_app.
  - done.
  - done.
  - change (map allowEntry (iter D)) with (allowEntry <$> iter D).
    by rewrite Hiter.
  - simpl. done.
  - intros n Hn. simpl. rewrite Hmap.
    destruct (decide (n ∈ D)) as [HnD|HnD].
    + exists (allowEntry n). split_and!; try done.
      * apply elem_of_app. right. apply list_elem_of_fmap. exists n. split; [done|].
        rewrite Hiter. by apply elem_of_elements.
      * unfold names. simpl. set_solver.
    + assert (Hu : underAction ActAllow (Syscalls s) n).
      { apply categorize_allow. fold allowSet.
        destruct (decide (n ∈ allowSet)) as [?|Hna]; [done|].
        exfalso. apply HnD. unfold D. apply elem_of_difference. split; [|done].
        unfold Wset. apply foldl_union_singleton. by right. }
      destruct Hu as (sc & Hsc & Hact & Hnm).
      destruct (stripArgs_spec R sc) as (HN & HA & _).
      exists (stripArgs R sc). split_and!.
      * apply elem_of_app. left. apply list_elem_of_fmap. eauto.
      * congruence.
      * unfold names in *. by rewrite HN.
  - intros sc Hsc Hex. simpl in Hsc. rewrite Hmap in Hsc.
    apply elem_of_app in Hsc as [Hsc|Hsc].
    + apply list_elem_of_fmap in Hsc as (sc0 & -> & Hsc0).
      destruct (stripArgs_spec R sc0) as (HN & _ & HArgs).
      apply HArgs. right. unfold names in *. by rewrite <- HN.
    + apply list_elem_of_fmap in Hsc as (n & -> & _). done.
Qed.

(** ** Results *)

Lemma bind_Ok_inv {A B} (r : result A) (f : A → result B) (b : B) :
  r ≫= f = Ok b → ∃ a, r = Ok a ∧ f a = Ok b.
Proof. destruct r; simpl; [eauto|done|done]. Qed.

Lemma wrapErr_Ok_inv {A} ctx (r : result A) (a : A) :
  wrapErr ctx r = Ok a → r = Ok a.
Proof. by destruct r. Qed.

Lemma deref_Ok_inv {A} (o : option A) (a : A) : deref o = Ok a → o = Some a.
Proof. destruct o; simpl; congruence. Qed.

(** Take the first step of a successful computation apart. *)
Tactic Notation "res_step" hyp(H) "as" simple_intropattern(a) ident(E) :=
  apply bind_Ok_inv in H as (a & E & H);
  try apply wrapErr_Ok_inv in E;
  try apply deref_Ok_inv in E.

(** ** The steps of the conversion *)

Lemma systemdInit_spec (p : Process) :
  systemdInit p =
    match Process_Args p with
    | [] => Panic
    | arg0 :: _ => Ok (bool_decide (arg0 = "/sbin/init"))
    end.
Proof. unfold systemdInit. by destruct (Process_Args p). Qed.

Lemma cfgMaskedPaths_Ok (spec spec' : Spec) :
  cfgMaskedPaths spec = Ok spec' →
  ∃ p l arg0,
    Spec_Process spec = Some p ∧ Process_Args p !! 0%nat = Some arg0 ∧
    Spec_Linux spec = Some l ∧
    spec' = setLinux spec (setMaskedPaths l
      (Utils.StringSliceRemove
         (if bool_decide (arg0 = "/sbin/init")
          then Utils.StringSliceRemove (MaskedPaths l) sysboxSystemdExposedPaths
          else MaskedPaths l) sysboxExposedPaths)).
Proof.
  unfold cfgMaskedPaths. intros H.
  res_step H as p Hp. res_step H as sd Hsd. res_step H as l Hl.
  rewrite systemdInit_spec in Hsd.
  destruct (Process_Args p) as [|arg0 rest] eqn:Hargs; [done|].
  injection Hsd as <-. injection H as <-.
  exists p, l, arg0. rewrite Hargs. simpl. split_and!; done.
Qed.

Lemma cfgReadonlyPaths_Ok (spec spec' : Spec) :
  cfgReadonlyPaths spec = Ok spec' →
  ∃ p l arg0,
    Spec_Process spec = Some p ∧ Process_Args p !! 0%nat = Some arg0 ∧
    Spec_Linux spec = Some l ∧
    spec' = setLinux spec (setReadonlyPaths l
      (Utils.StringSliceRemove
         (if bool_decide (arg0 = "/sbin/init")
          then Utils.StringSliceRemove (ReadonlyPaths l) sysboxSystemdRwPaths
          else ReadonlyPaths l) sysboxRwPaths)).
Proof.
  unfold cfgReadonlyPaths. intros H.
  res_step H as p Hp. res_step H as sd Hsd. res_step H as l Hl.
  rewrite systemdInit_spec in Hsd.
  destruct (Process_Args p) as [|arg0 rest] eqn:Hargs; [done|].
  injection Hsd as <-. injection H as <-.
  exists p, l, arg0. rewrite Hargs. simpl. split_and!; done.
Qed.

Lemma cfgOomScoreAdj_Ok (spec spec' : Spec) :
  cfgOomScoreAdj spec = Ok spec' →
  Spec_Linux spec' = Spec_Linux spec ∧ Spec_Root spec' = Spec_Root spec ∧
  Mounts spec' = Mounts spec ∧
  ∃ p p', Spec_Process spec = Some p ∧ Spec_Process spec' = Some p' ∧
          Process_Args p' = Process_Args p.
Proof.
  unfold cfgOomScoreAdj. intros H. res_step H as p Hp.
  destruct (OOMScoreAdj p) as [adj|]; [case_bool_decide|];
    injection H as <-; simpl; split_and!; try done; eauto.
Qed.

Lemma cfgCapabilities_Ok (p p' : Process) :
  cfgCapabilities p = Ok p' → Process_Args p' = Process_Args p ∧ Env p' = Env p.
Proof.
  unfold cfgCapabilities. intros H. res_step H as c Hc.
  case_bool_decide; injection H as <-; done.
Qed.

Lemma ConvertProcessSpec_Ok (h : Host) (p p' : Process) :
  ConvertProcessSpec h p = Ok p' → Process_Args p' = Process_Args p.
Proof.
  unfold ConvertProcessSpec. intros H.
  res_step H as p1 Hp1. apply cfgCapabilities_Ok in Hp1 as [HA _].
  res_step H as p2 Hp2. unfold cfgAppArmor in Hp2. injection Hp2 as <-.
  res_step H as sd Hsd. injection H as <-.
  destruct sd; simpl; done.
Qed.

(** A successful conversion went through every stage. *)
Lemma ConvertSpec_Ok_inv h mgr fs spec g a b spec' g' :
  ConvertSpec h mgr fs spec g = Ok (a, b, spec', g') →
  ∃ spec1 spec2 spec3 spec4 spec5 spec6 l seccomp p p',
    checkSpec h spec = Ok () ∧
    cfgNamespaces h mgr spec = Ok spec1 ∧
    cfgIDMappings mgr spec1 = Ok spec2 ∧
    CheckUidShifting h spec2 = Ok (a, b) ∧
    cfgMounts h mgr fs spec2 g b = Ok (spec3, g') ∧
    cfgMaskedPaths spec3 = Ok spec4 ∧
    cfgReadonlyPaths spec4 = Ok spec5 ∧
    cfgOomScoreAdj spec5 = Ok spec6 ∧
    Spec_Linux spec6 = Some l ∧
    cfgSeccomp (syscontSyscallWhitelist h) (syscontSyscallAllowRestrList h)
      (setIter h) (Seccomp l) = Ok seccomp ∧
    Spec_Process spec6 = Some p ∧
    ConvertProcessSpec h p = Ok p' ∧
    spec' = setProcess (setLinux spec6 (setSeccomp l seccomp)) p'.
Proof.
  unfold ConvertSpec. intros H.
  res_step H as [] H0. res_step H as spec1 H1. res_step H as spec2 H2.
  res_step H as [a0 b0] H3. res_step H as [spec3 g3] H4.
  res_step H as spec4 H5. res_step H as spec5 H6. res_step H as spec6 H7.
  res_step H as l H8. res_step H as seccomp H9.
  res_step H as p H10. simpl in H10.
  res_step H as p' H11. injection H as <- <- <- <-.
  exists spec1, spec2, spec3, spec4, spec5, spec6, l, seccomp, p, p'.
  split_and!; done.
Qed.

(** C5. After a successful conversion, [masked_paths] contains none of the
    sysbox exposed paths and [readonly_paths] none of the sysbox rw paths;
    when the init is [/sbin/init], they contain none of the systemd exposed
    paths and none of the systemd rw paths either.  This holds for every
    input spec, host, manager and filesystem virtualizer. *)
Theorem ConvertSpec_unmasks_paths h mgr fs spec g a b spec' g' :
  ConvertSpec h mgr fs spec g = Ok (a, b, spec', g') →
  ∃ l' p' arg0,
    Spec_Linux spec' = Some l' ∧ Spec_Process spec' = Some p' ∧
    Process_Args p' !! 0%nat = Some arg0 ∧
    (∀ x, x ∈ sysboxExposedPaths → x ∉ MaskedPaths l') ∧
    (∀ x, x ∈ sysboxRwPaths → x ∉ ReadonlyPaths l') ∧
    (arg0 = "/sbin/init" →
       (∀ x, x ∈ sysboxSystemdExposedPaths → x ∉ MaskedPaths l') ∧
       (∀ x, x ∈ sysboxSystemdRwPaths → x ∉ ReadonlyPaths l')).
Proof.
  intros H.
  apply ConvertSpec_Ok_inv in H
    as (spec1 & spec2 & spec3 & spec4 & spec5 & spec6 & l & seccomp & p & p'
        & _ & _ & _ & _ & _ & Hmask & Hro & Hoom & Hl & _ & Hp & Hconv & ->).
  apply cfgMaskedPaths_Ok in Hmask as (p3 & l3 & arg3 & Hp3 & Harg3 & Hl3 & ->).
  apply cfgReadonlyPaths_Ok in Hro as (p4 & l4 & arg4 & Hp4 & Harg4 & Hl4 & ->).
  apply cfgOomScoreAdj_Ok in Hoom as (HL & _ & _ & p5 & p6 & Hp5 & Hp6 & Hargs).
  apply ConvertProcessSpec_Ok in Hconv.
  simpl in *.
  assert (p4 = p3) as -> by congruence.
  assert (p5 = p3) as -> by congruence.
  assert (p6 = p) as -> by congruence.
  assert (arg4 = arg3) as -> by congruence.
  injection Hl4 as <-. rewrite HL in Hl. injection Hl as <-.
  eexists _, p', arg3.
  split_and!; [reflexivity|reflexivity| | | |].
  - by rewrite Hconv, Hargs.
  - simpl. intros x Hx Hin. apply StringSliceRemove_elem in Hin as [_ ?]. done.
  - simpl. intros x Hx Hin. apply StringSliceRemove_elem in Hin as [_ ?]. done.
  - intros ->.
    cbn [MaskedPaths ReadonlyPaths setSeccomp setReadonlyPaths setMaskedPaths].
    rewrite !bool_decide_eq_true_2 by done. split.
    + intros x Hx Hin. apply StringSliceRemove_elem in Hin as [Hin _].
      apply StringSliceRemove_elem in Hin as [_ ?]. done.
    + intros x Hx Hin. apply StringSliceRemove_elem in Hin as [Hin _].
      apply StringSliceRemove_elem in Hin as [_ ?]. done.
Qed.

(** ** What the stages before the path rewrite leave alone *)

Lemma foldl_snoc_map {A B} (f : A → B) (l : list A) (acc : list B) :
  foldl (λ tmp m, tmp ++ [f m]) acc l = acc ++ map f l.
Proof.
  revert acc. induction l as [|x l IH]; intros acc; simpl.
  - by rewrite app_nil_r.
  - rewrite IH. by rewrite <- app_assoc.
Qed.

Lemma cfgNamespaces_Ok h mgr spec spec' :
  cfgNamespaces h mgr spec = Ok spec' →
  ∃ l nss, Spec_Linux spec = Some l ∧ spec' = setLinux spec (setNamespaces l nss).
Proof.
  unfold cfgNamespaces. intros H. res_step H as l Hl.
  destruct (negb _); [done|]. injection H as <-. eauto.
Qed.

Lemma allocIDMappings_Ok mgr spec spec' :
  allocIDMappings mgr spec = Ok spec' →
  ∃ l u g, Spec_Linux spec = Some l ∧ spec' = setLinux spec (setIDMappings l u g).
Proof.
  unfold allocIDMappings. intros H. res_step H as [uid gid] Hid.
  res_step H as l Hl. injection H as <-. eauto.
Qed.

Lemma validateIDMappings_Ok spec spec' :
  validateIDMappings spec = Ok spec' →
  ∃ l u g, Spec_Linux spec = Some l ∧ spec' = setLinux spec (setIDMappings l u g).
Proof.
  unfold validateIDMappings. intros H. res_step H as l Hl.
  destruct (_ || _); [done|].
  res_step H as uids Hu. res_step H as gids Hg.
  res_step H as uidMap Hum. res_step H as gidMap Hgm.
  repeat (destruct (_ || _); [done|]).
  repeat (case_bool_decide; [done|]).
  injection H as <-. eauto.
Qed.

Lemma cfgIDMappings_Ok mgr spec spec' :
  cfgIDMappings mgr spec = Ok spec' →
  ∃ l u g, Spec_Linux spec = Some l ∧ spec' = setLinux spec (setIDMappings l u g).
Proof.
  unfold cfgIDMappings. intros H. res_step H as l Hl.
  destruct (_ && _) in H.
  - apply allocIDMappings_Ok in H as (l1 & u & g & Hl1 & ->).
    injection Hl1 as <-. exists l, u, g. done.
  - apply validateIDMappings_Ok in H as (l1 & u & g & Hl1 & ->).
    injection Hl1 as <-. exists l, u, g. done.
Qed.

Lemma cfgSysboxMounts_Ok spec g spec' g' :
  cfgSysboxMounts spec g = Ok (spec', g') →
  sameButMounts spec spec' ∧
  sysboxFsMounts g' = sysboxFsMounts g ∧
  ∃ root kept,
    Spec_Root spec = Some root ∧
    Mounts spec' = kept ++ sysboxMounts g' ∧
    sysboxMounts g' =
      (if Readonly root
       then map (λ m, if Utils.HasPrefix (Destination m) "/sys"
                      then setOptions m
                             (Utils.StringSliceRemove (Options m) ["rw"] ++ ["ro"])
                      else m) (sysboxMounts g)
       else sysboxMounts g).
Proof.
  unfold cfgSysboxMounts. intros H. res_step H as root Hroot.
  injection H as <- <-. split; [done|].
  split; [by destruct (Readonly root)|].
  eexists root, _. split; [done|]. split; [reflexivity|].
  destruct (Readonly root); [|done]. simpl.
  by rewrite foldl_snoc_map.
Qed.

Lemma cfgSysboxFsMounts_Ok h fs spec g spec' g' :
  cfgSysboxFsMounts h fs spec g = Ok (spec', g') →
  Spec_Root spec' = Spec_Root spec ∧ Spec_Process spec' = Spec_Process spec ∧
  sysboxMounts g' = sysboxMounts g ∧
  map Destination (sysboxFsMounts g') = map Destination (sysboxFsMounts g) ∧
  map Options (sysboxFsMounts g') = map Options (sysboxFsMounts g) ∧
  ∃ root kept,
    Spec_Root spec = Some root ∧
    Mounts spec' = kept ++ sysboxFsMounts g' ∧
    (if Readonly root
     then ∃ l, Spec_Linux spec = Some l ∧
               Spec_Linux spec' =
                 Some (setReadonlyPaths l
                         (ReadonlyPaths l ++ map Destination (sysboxFsMounts g)))
     else Spec_Linux spec' = Spec_Linux spec).
Proof.
  unfold cfgSysboxFsMounts. intros H. res_step H as root Hroot.
  res_step H as spec1 Hspec1. injection H as <- <-.
  cbn [sysboxMounts sysboxFsMounts setSysboxFs Mounts setMounts Spec_Root
       Spec_Process Spec_Linux] in *.
  assert (Hd : map Destination
                 (map (λ m, setSource m
                    (Utils.Replace1 (Source m) (SysboxFsDir g)
                       (Join h (Mountpoint fs) (Id fs)))) (sysboxFsMounts g))
               = map Destination (sysboxFsMounts g)).
  { rewrite map_map. by apply map_ext. }
  destruct (Readonly root) eqn:Hro.
  - res_step Hspec1 as l Hl. injection Hspec1 as <-.
    split_and!; try done.
    + rewrite map_map. by apply map_ext.
    + eexists root, _. rewrite Hro. split_and!; try done.
      exists l. split; [done|]. simpl. rewrite foldl_snoc_map.
      by rewrite Hd.
  - injection Hspec1 as <-. split_and!; try done.
    + rewrite map_map. by apply map_ext.
    + eexists root, _. rewrite Hro. done.
Qed.

Lemma sysMgrSetupMounts_Ok h mgr spec b spec' :
  sysMgrSetupMounts h mgr spec b = Ok spec' → sameButMounts spec spec'.
Proof.
  unfold sysMgrSetupMounts. intros H.
  res_step H as l Hl. res_step H as u Hu. res_step H as g Hg.
  destruct (foldl _ _ _) as [prepList specialDir].
  res_step H as [] Hprep. res_step H as root Hroot.
  res_step H as rootPath Hpath. res_step H as m Hm.
  injection H as <-. done.
Qed.

Lemma cfgSystemdMounts_same spec g :
  sameButMounts spec (cfgSystemdMounts spec g).1 ∧
  sysboxMounts (cfgSystemdMounts spec g).2 = sysboxMounts g ∧
  sysboxFsMounts (cfgSystemdMounts spec g).2 = sysboxFsMounts g.
Proof. done. Qed.

(** The mount stage: the process and the root are untouched; on a read-only
    rootfs the table of sysbox-required mounts has been rewritten, and, with
    the filesystem virtualizer enabled, the destinations of the virtualized
    mounts have been added to the read-only paths. *)
Lemma cfgMounts_Ok h mgr fs spec g b spec' g' :
  cfgMounts h mgr fs spec g b = Ok (spec', g') →
  Spec_Root spec' = Spec_Root spec ∧ Spec_Process spec' = Spec_Process spec ∧
  map Destination (sysboxFsMounts g') = map Destination (sysboxFsMounts g) ∧
  map Options (sysboxFsMounts g') = map Options (sysboxFsMounts g) ∧
  ∃ root,
    Spec_Root spec = Some root ∧
    sysboxMounts g' =
      (if Readonly root then roSysMounts (sysboxMounts g) else sysboxMounts g) ∧
    (Fs_Enabled fs = false → Spec_Linux spec' = Spec_Linux spec) ∧
    (Readonly root = true → Fs_Enabled fs = true →
       ∃ l l', Spec_Linux spec = Some l ∧ Spec_Linux spec' = Some l' ∧
         MaskedPaths l' = MaskedPaths l ∧
         ReadonlyPaths l' =
           ReadonlyPaths l ++ map Destination (sysboxFsMounts g)).
Proof.
  unfold cfgMounts. intros H.
  res_step H as [s1 g1] H1. res_step H as [s2 g2] H2. res_step H as s3 H3.
  res_step H as p Hp. res_step H as sd Hsd.
  apply cfgSysboxMounts_Ok in H1
    as ((HR1 & HP1 & HL1) & HFs1 & root & kept & Hroot & _ & Hsys).
  assert (HS3 : sameButMounts s2 s3).
  { destruct (Mgr_Enabled mgr).
    - by apply sysMgrSetupMounts_Ok in H3.
    - by injection H3 as <-. }
  destruct HS3 as (HR3 & HP3 & HL3).
  assert (Hfin : Spec_Root spec' = Spec_Root s3 ∧ Spec_Process spec' = Spec_Process s3
                 ∧ Spec_Linux spec' = Spec_Linux s3
                 ∧ sysboxMounts g' = sysboxMounts g2
                 ∧ sysboxFsMounts g' = sysboxFsMounts g2).
  { destruct sd; simpl in H; injection H as <- <-; done. }
  destruct Hfin as (HR4 & HP4 & HL4 & HG4 & HF4).
  destruct (Fs_Enabled fs) eqn:Hfs.
  - apply cfgSysboxFsMounts_Ok in H2
      as (HR2 & HP2 & HG2 & HD2 & HO2 & root2 & kept2 & Hroot2 & _ & Hlin).
    assert (root2 = root) as -> by congruence.
    split; [congruence|]. split; [congruence|].
    split; [congruence|]. split; [congruence|].
    exists root. split_and!; [done|by rewrite HG4, HG2|done|].
    intros Hro _. rewrite Hro in Hlin. destruct Hlin as (l & Hl & Hl').
    exists l, (setReadonlyPaths l
                 (ReadonlyPaths l ++ map Destination (sysboxFsMounts g1))).
    split_and!; [congruence|congruence|done|].
    simpl. by rewrite HFs1.
  - injection H2 as <- <-.
    split; [congruence|]. split; [congruence|].
    split; [congruence|]. split; [congruence|].
    exists root. split_and!; [done|by rewrite HG4|intros _; congruence|done].
Qed.


(** ** The network namespace check *)

Lemma checkNetns_first h pre ns post :
  (∀ n, n ∈ pre →
     ¬ (Namespace_Type n = NetworkNamespace ∧ Namespace_Path n ≠ "")) →
  Namespace_Type ns = NetworkNamespace → Namespace_Path ns ≠ "" →
  checkNetns h (pre ++ ns :: post) = checkNetns h [ns].
Proof.
  intros Hpre Htype Hpath. induction pre as [|n pre IH]; simpl.
  - rewrite !bool_decide_eq_true_2 by done.
    rewrite bool_decide_eq_false_2 by done. done.
  - assert (Hn : bool_decide (Namespace_Type n = NetworkNamespace)
                 && negb (bool_decide (Namespace_Path n = "")) = false).
    { apply not_true_is_false. intros Ht.
      apply andb_true_iff in Ht as [Ht Hp].
      apply bool_decide_eq_true in Ht. apply negb_true_iff in Hp.
      apply bool_decide_eq_false in Hp.
      apply (Hpre n); [set_solver|done]. }
    rewrite Hn. rewrite IH; [|set_solver]. simpl.
    rewrite !bool_decide_eq_true_2 by done.
    rewrite bool_decide_eq_false_2 by done. done.
Qed.

(** C6. Let [ns] be the network namespace entry of the spec that
    [checkSpec] looks at (the first one with a non-empty path; the only one
    when types are not duplicated), and let its path and /proc/self/ns/net
    both be stat-able.  If the two stats have the same device and inode, the
    check and with it the conversion fail with the host-namespace error;
    otherwise the check passes. *)
Theorem checkSpec_host_netns h mgr fs spec g root l pre ns post st1 st2 :
  Spec_Root spec = Some root →
  Spec_Linux spec = Some l →
  Namespaces l = pre ++ ns :: post →
  (∀ n, n ∈ pre →
     ¬ (Namespace_Type n = NetworkNamespace ∧ Namespace_Path n ≠ "")) →
  Namespace_Type ns = NetworkNamespace →
  Namespace_Path ns ≠ "" →
  Stat h "/proc/self/ns/net" = Ok st1 →
  Stat h (Namespace_Path ns) = Ok st2 →
  (Dev st1 = Dev st2 ∧ Ino st1 = Ino st2 →
     checkSpec h spec = Err hostNetnsShared ∧
     ConvertSpec h mgr fs spec g =
       Err (ErrCause "invalid or unsupported container spec" hostNetnsShared)) ∧
  (¬ (Dev st1 = Dev st2 ∧ Ino st1 = Ino st2) → checkSpec h spec = Ok ()).
Proof.
  intros Hroot Hl Hns Hpre Htype Hpath Hst1 Hst2.
  assert (Hc : checkSpec h spec =
               if bool_decide (Dev st1 = Dev st2) && bool_decide (Ino st1 = Ino st2)
               then Err hostNetnsShared else Ok ()).
  { unfold checkSpec. rewrite Hroot, Hl, Hns.
    rewrite checkNetns_first by done. simpl.
    rewrite !bool_decide_eq_true_2 by done.
    rewrite bool_decide_eq_false_2 by done. simpl.
    rewrite Hst1. simpl. rewrite Hst2. simpl. done. }
  split.
  - intros [Hd Hi].
    rewrite !bool_decide_eq_true_2 in Hc by done. simpl in Hc.
    split; [done|]. unfold ConvertSpec. rewrite Hc. done.
  - intros Hne. rewrite Hc.
    destruct (bool_decide (Dev st1 = Dev st2)) eqn:E1; [|done].
    destruct (bool_decide (Ino st1 = Ino st2)) eqn:E2; [|done].
    apply bool_decide_eq_true in E1, E2. tauto.
Qed.

(** ** The process arguments *)

(** C10. The systemd test reads [args[0]] without a check.  When the
    argument list is not empty it is well defined (it says whether the first
    argument is [/sbin/init]) and the process conversion returns; when the
    list is empty the test panics with an index out of range, and so does
    the process conversion; the conversion of a spec with such a process
    never returns a converted spec. *)
Theorem systemdInit_reads_first_arg h mgr fs (p : Process) :
  (∀ arg0 rest, Process_Args p = arg0 :: rest →
     systemdInit p = Ok (bool_decide (arg0 = "/sbin/init")) ∧
     (Capabilities p ≠ None → isOk (ConvertProcessSpec h p))) ∧
  (Process_Args p = [] →
     systemdInit p = Panic ∧
     ConvertProcessSpec h p = Panic ∧
     ∀ spec g, Spec_Process spec = Some p →
       ¬ isOk (ConvertSpec h mgr fs spec g)).
Proof.
  split.
  - intros arg0 rest Hargs. rewrite systemdInit_spec, Hargs. split; [done|].
    intros Hcaps. unfold ConvertProcessSpec, cfgCapabilities.
    destruct (Capabilities p) as [c|] eqn:Hc; [|done]. simpl.
    case_bool_decide; simpl; rewrite systemdInit_spec; simpl; rewrite Hargs;
      simpl; eexists; reflexivity.
  - intros Hargs. rewrite systemdInit_spec, Hargs. split; [done|]. split.
    + unfold ConvertProcessSpec, cfgCapabilities.
      destruct (Capabilities p) as [c|]; [|done]. simpl.
      case_bool_decide; simpl; rewrite systemdInit_spec; simpl; by rewrite Hargs.
    + intros spec g Hp [[[[a b] spec'] g'] H].
      apply ConvertSpec_Ok_inv in H
        as (spec1 & spec2 & spec3 & spec4 & spec5 & spec6 & l & seccomp & q & q'
            & _ & Hns & Hid & _ & Hm & Hmask & _).
      apply cfgNamespaces_Ok in Hns as (l0 & nss & _ & ->).
      apply cfgIDMappings_Ok in Hid as (l1 & u & gi & _ & ->).
      apply cfgMounts_Ok in Hm as (_ & HP & _).
      apply cfgMaskedPaths_Ok in Hmask as (p3 & l3 & arg3 & Hp3 & Harg3 & _).
      simpl in HP. rewrite HP, Hp in Hp3. injection Hp3 as <-.
      by rewrite Hargs in Harg3.
Qed.

(** ** ID mappings *)

Lemma insertByContainerID_length m l :
  length (insertByContainerID m l) = S (length l).
Proof.
  induction l as [|x l IH]; simpl; [done|].
  case_bool_decide; simpl; by rewrite ?IH.
Qed.

Lemma sortByContainerID_length l :
  length (sortByContainerID l) = length l.
Proof.
  induction l as [|x l IH]; simpl; [done|].
  by rewrite insertByContainerID_length, IH.
Qed.

Lemma foldRanges_length cur rest : (1 ≤ length (foldRanges cur rest))%nat.
Proof.
  revert cur. induction rest as [|m rest IH]; intros cur; simpl; [lia|].
  destruct (meets cur m); simpl; [apply IH|lia].
Qed.

Lemma mergeRanges_nil l : mergeRanges l = [] ↔ l = [].
Proof.
  unfold mergeRanges. split.
  - intros H. destruct (sortByContainerID l) as [|m rest] eqn:Hs.
    + apply (f_equal length) in Hs. rewrite sortByContainerID_length in Hs.
      by destruct l.
    + pose proof (foldRanges_length m rest) as Hlen. rewrite H in Hlen.
      simpl in Hlen. lia.
  - by intros ->.
Qed.

Lemma mergeIDMappings_spec l :
  l ≠ [] →
  (∃ m, mergeRanges l = [m] ∧ mergeIDMappings l = Ok [m]) ∨
  ((∀ m, mergeRanges l ≠ [m]) ∧ isErr (mergeIDMappings l)).
Proof.
  intros Hne. unfold mergeIDMappings.
  destruct (mergeRanges l) as [|m [|m' rest]] eqn:Hm.
  - apply (proj1 (mergeRanges_nil l)) in Hm. exfalso. by apply Hne.
  - left. exists m. done.
  - right. split; [done|]. simpl. eexists. reflexivity.
Qed.

Lemma validateIDMappings_spec spec l :
  Spec_Linux spec = Some l →
  (validMappings l ∧
   ∃ u g, mergeRanges (UIDMappings l) = [u] ∧ mergeRanges (GIDMappings l) = [g] ∧
          validateIDMappings spec = Ok (setLinux spec (setIDMappings l [u] [g]))) ∨
  (¬ validMappings l ∧ isErr (validateIDMappings spec)).
Proof.
  intros Hl. unfold validateIDMappings, validMappings. rewrite Hl. simpl.
  destruct (UIDMappings l) as [|u0 us] eqn:Hu.
  { right. split; [|eexists; reflexivity].
    intros (u & g & H & _). done. }
  destruct (GIDMappings l) as [|g0 gs] eqn:Hg.
  { right. split; [|eexists; reflexivity].
    intros (u & g & _ & H & _). done. }
  simpl.
  destruct (mergeIDMappings_spec (u0 :: us)) as [(u & Hmu & ->)|[Hmu [e ->]]]; [done| |].
  2:{ right. split; [|eexists; reflexivity]. intros (u & g & H & _). by apply Hmu in H. }
  simpl.
  destruct (mergeIDMappings_spec (g0 :: gs)) as [(g & Hmg & ->)|[Hmg [e ->]]]; [done| |].
  2:{ right. split; [|eexists; reflexivity]. intros (u' & g & _ & H & _). by apply Hmg in H. }
  simpl. rewrite Hmu, Hmg. unfold IdRangeMin.
  repeat case_bool_decide; simpl;
    first [ left; split; [exists u, g; split_and!; (done || lia)
                         | exists u, g; done]
          | right; split; [|eexists; reflexivity];
            intros (u' & g' & Hu' & Hg' & ? & ? & ? & ? & ? & ?);
            injection Hu' as <-; injection Hg' as <-; lia ].
Qed.

(** [cfgIDMappings] on a spec with a mapping and no override: it is
    [validateIDMappings], which either accepts and leaves the merged ranges,
    or returns an error. *)
Lemma cfgIDMappings_cases mgr spec l :
  Spec_Linux spec = Some l →
  Mgr_Enabled mgr = false ∨ (Mgr_UidMappings mgr = [] ∧ Mgr_GidMappings mgr = []) →
  UIDMappings l ≠ [] ∨ GIDMappings l ≠ [] →
  (validMappings l ∧
   ∃ u g, mergeRanges (UIDMappings l) = [u] ∧ mergeRanges (GIDMappings l) = [g] ∧
          cfgIDMappings mgr spec = Ok (setLinux spec (setIDMappings l [u] [g]))) ∨
  (¬ validMappings l ∧ isErr (cfgIDMappings mgr spec)).
Proof.
  intros Hl Hmgr Hne.
  assert (Hcfg : cfgIDMappings mgr spec = validateIDMappings spec).
  { unfold cfgIDMappings. rewrite Hl. simpl.
    assert (Hu : (if Mgr_Enabled mgr && bool_decide (0 < length (Mgr_UidMappings mgr))%nat
                  then Mgr_UidMappings mgr else UIDMappings l) = UIDMappings l).
    { destruct Hmgr as [-> | [-> _]]; [done|]. by rewrite andb_false_r. }
    assert (Hg : (if Mgr_Enabled mgr && bool_decide (0 < length (Mgr_GidMappings mgr))%nat
                  then Mgr_GidMappings mgr else GIDMappings l) = GIDMappings l).
    { destruct Hmgr as [-> | [_ ->]]; [done|]. by rewrite andb_false_r. }
    rewrite Hu, Hg.
    assert (Hb : bool_decide (length (UIDMappings l) = 0%nat)
                 && bool_decide (length (GIDMappings l) = 0%nat) = false).
    { destruct Hne as [H|H].
      - destruct (UIDMappings l); [done|]. done.
      - destruct (GIDMappings l); [done|]. by rewrite andb_false_r. }
    rewrite Hb.
    assert (Hs : setLinux spec (setIDMappings l (UIDMappings l) (GIDMappings l)) = spec).
    { destruct spec as [r p li m]. simpl in Hl. subst li. by destruct l. }
    by rewrite Hs. }
  rewrite Hcfg. by apply validateIDMappings_spec.
Qed.

Lemma mapsHostRoot_invalid l : mapsHostRoot l → ¬ validMappings l.
Proof.
  intros [(u' & Hu' & H0)|(g' & Hg' & H0)]
         (u1 & g1 & Hu1 & Hg1 & ? & ? & ? & ? & ? & ?).
  - rewrite Hu' in Hu1. injection Hu1 as <-. done.
  - rewrite Hg' in Hg1. injection Hg1 as <-. congruence.
Qed.

(** C4. For a spec that provides a UID or a GID mapping, with no override
    from the manager, [cfgIDMappings] succeeds exactly when each of the two
    lists merges to one range, that range starts at container id 0 with at
    least 65536 ids, the host ids of the two ranges are equal and not 0; it
    then leaves the two merged ranges in the spec.  Otherwise it returns an
    error; in particular it returns an error when a merged uid or gid range
    starts at host id 0, and [ConvertSpec], once the spec has passed the
    basic checks and the namespace stage, returns that error as an "invalid
    user/group ID config". *)
Theorem cfgIDMappings_validates mgr spec l :
  Spec_Linux spec = Some l →
  Mgr_Enabled mgr = false ∨ (Mgr_UidMappings mgr = [] ∧ Mgr_GidMappings mgr = []) →
  UIDMappings l ≠ [] ∨ GIDMappings l ≠ [] →
  (isOk (cfgIDMappings mgr spec) ↔ validMappings l) ∧
  (¬ validMappings l → isErr (cfgIDMappings mgr spec)) ∧
  (∀ spec', cfgIDMappings mgr spec = Ok spec' →
     ∃ u g, mergeRanges (UIDMappings l) = [u] ∧ mergeRanges (GIDMappings l) = [g] ∧
            spec' = setLinux spec (setIDMappings l [u] [g])) ∧
  (mapsHostRoot l →
     isErr (cfgIDMappings mgr spec) ∧
     ∀ h fs g, checkSpec h spec = Ok () → isOk (cfgNamespaces h mgr spec) →
       ∃ e, ConvertSpec h mgr fs spec g =
              Err (ErrCause "invalid user/group ID config" e)).
Proof.
  intros Hl Hmgr Hne.
  assert (Hroot : mapsHostRoot l → isErr (cfgIDMappings mgr spec)).
  { intros Hz. apply mapsHostRoot_invalid in Hz.
    destruct (cfgIDMappings_cases mgr spec l Hl Hmgr Hne) as [[Hv _]|[_ He]]; done. }
  split_and!.
  - destruct (cfgIDMappings_cases mgr spec l Hl Hmgr Hne)
      as [(Hv & u & g & _ & _ & Hok)|(Hnv & e & Herr)].
    + split; [done|]. intros _. rewrite Hok. by eexists.
    + split; [|done]. intros [s Hs]. congruence.
  - intros Hnv.
    destruct (cfgIDMappings_cases mgr spec l Hl Hmgr Hne) as [[Hv _]|[_ He]]; done.
  - intros spec' Hs.
    destruct (cfgIDMappings_cases mgr spec l Hl Hmgr Hne)
      as [(Hv & u & g & Hmu & Hmg & Hok)|(Hnv & e & Herr)]; [|congruence].
    rewrite Hok in Hs. injection Hs as <-. eauto.
  - intros Hz. split; [by apply Hroot|].
    intros h fs g Hcheck [spec1 Hns].
    pose proof Hns as Hns'.
    apply cfgNamespaces_Ok in Hns' as (l0 & nss & Hl0 & ->).
    assert (l0 = l) as -> by congruence.
    destruct (cfgIDMappings_cases mgr (setLinux spec (setNamespaces l nss))
                (setNamespaces l nss) eq_refl Hmgr Hne) as [[Hv _]|[_ [e He]]].
    + by apply mapsHostRoot_invalid in Hz.
    + exists e. unfold ConvertSpec. rewrite Hcheck. simpl. rewrite Hns. simpl.
      rewrite He. done.
Qed.

(** ** Read-only rootfs *)


(** ** Seccomp, blacklist mode *)

(** C1. A blacklist profile that answers [mount] with an errno comes out of
    the conversion unchanged whenever [mount] is on the whitelist: the diff
    set is computed as (ErrnoSet ∪ KillSet) minus the whitelist, so a name
    of the whitelist is never in it and stays under its errno action. *)
Theorem cfgSeccomp_blacklist_keeps_mount
    (W R : list string) (iter : gset string → list string) :
  "mount" ∈ W →
  cfgSeccomp W R iter (Some mountErrnoProfile) = Ok (Some mountErrnoProfile).
Proof.
  intros HW. unfold cfgSeccomp. simpl.
  assert (Hd : bool_decide
                 ("mount" ∈ ({["mount"]} ∪ ∅ ∪ ∅ : gset string)
                            ∖ foldl (λ acc sc, {[sc]} ∪ acc) ∅ W) = false).
  { apply bool_decide_eq_false. intros Hin.
    apply elem_of_difference in Hin as [_ Hn]. apply Hn.
    apply foldl_union_singleton. by right. }
  unfold removeNames. simpl. rewrite Hd. done.
Qed.

(** ** The launch: invariants of the parent's computations *)

Section LaunchInvariants.

Lemma keeps_ret {A} I (a : A) : keeps I (mret a).
Proof. by intros s Hs. Qed.

Lemma keeps_fail {A} I e : keeps I (@fail A e).
Proof. by intros s Hs. Qed.

Lemma keeps_panic {A} I : keeps I (@panic A).
Proof. by intros s Hs. Qed.

Lemma keeps_get I : keeps I get.
Proof. by intros s Hs. Qed.

Lemma keeps_pid I : keeps I pid.
Proof. intros s Hs. unfold pid. by destruct (cmdProcess s). Qed.

Lemma keeps_bind {A B} I (m : M A) (f : A → M B) :
  keeps I m → (∀ a, keeps I (f a)) → keeps I (m ≫= f).
Proof.
  intros Hm Hf s Hs. unfold mbind, M_bind. specialize (Hm s Hs).
  destruct (m s) as [[a|e|] s1]; simpl in *; [by apply Hf|done|done].
Qed.

Lemma keeps_try I (m : M unit) : keeps I m → keeps I (try m).
Proof.
  intros Hm s Hs. unfold try. specialize (Hm s Hs).
  by destruct (m s) as [[a|e|] s1].
Qed.

Lemma keeps_wrap {A} I ctx (m : M A) : keeps I m → keeps I (wrap ctx m).
Proof.
  intros Hm s Hs. unfold wrap. specialize (Hm s Hs).
  by destruct (m s) as [[a|e|] s1].
Qed.

Lemma keeps_defer {A} I (m : M A) (d : result A → M unit) :
  keeps I m → (∀ r, keeps I (d r)) → keeps I (defer m d).
Proof.
  intros Hm Hd s Hs. unfold defer. specialize (Hm s Hs).
  destruct (m s) as [r s1]. specialize (Hd r s1 Hm).
  by destruct (d r s1) as [[a|e|] s2].
Qed.

Lemma keeps_modify I (f : St → St) :
  (∀ s, I s → I (f s)) → keeps I (modify f).
Proof. intros Hf s Hs. by apply Hf. Qed.

Lemma keeps_call I w op :
  (∀ s r, I s → I (addEvent (Call op r) s)) → keeps I (call w op).
Proof.
  intros Hop s Hs. unfold call.
  destruct (w (trace s) op); simpl; by apply Hop.
Qed.

Lemma keeps_call_ I w op :
  (∀ s r, I s → I (addEvent (Call op r) s)) → keeps I (call_ w op).
Proof. intros Hop s Hs. unfold call_. simpl. by apply Hop. Qed.

Lemma launchInv_weaken seen s : launchInv seen s → launchInv [] s.
Proof.
  intros ([H1 H1'] & H2 & H3 & H4 & _). split_and!; try done.
  intros t Ht. by apply elem_of_nil in Ht.
Qed.

Lemma launchInv_addEvent seen e s :
  launchInv seen s →
  (∀ info r, e = Call (Register info) r → rootfsReady ∈ seen) →
  launchInv seen (addEvent e s).
Proof.
  intros ([H1 H1'] & H2 & H3 & H4 & H5) He. unfold launchInv. simpl.
  split_and!; [done|set_solver| | | |].
  - intros info r Hin. apply elem_of_app. left.
    apply elem_of_app in Hin as [Hin|Hin]; [by eapply H2|].
    apply list_elem_of_singleton in Hin. apply H5. by eapply He.
  - intros Hs. destruct (H3 Hs). split; apply elem_of_app; by left.
  - intros Hs. destruct (H4 Hs). split; apply elem_of_app; by left.
  - intros t Ht. apply elem_of_app. left. by apply H5.
Qed.

Lemma launchInv_recv seen t s :
  launchInv seen s → launchInv (t :: seen) (addEvent (Recv t) s).
Proof.
  intros ([H1 H1'] & H2 & H3 & H4 & H5). unfold launchInv. simpl.
  split_and!; [done|set_solver| | | |].
  - intros info r Hin. apply elem_of_app. left.
    apply elem_of_app in Hin as [Hin|Hin]; [by eapply H2|].
    by apply list_elem_of_singleton in Hin.
  - intros Hs. destruct (H3 Hs). split; apply elem_of_app; by left.
  - intros Hs. destruct (H4 Hs). split; apply elem_of_app; by left.
  - intros t' Ht. apply elem_of_app.
    apply elem_of_cons in Ht as [->|Ht]; [right; set_solver|left; by apply H5].
Qed.


(** Walk through a computation, one construct at a time. *)
Ltac keeps_walk side :=
  repeat first
    [ apply keeps_ret | apply keeps_fail | apply keeps_panic
    | apply keeps_get | apply keeps_pid
    | apply keeps_bind; [|intros ?]
    | apply keeps_try | apply keeps_wrap
    | apply keeps_call; side
    | apply keeps_call_; side
    | apply keeps_modify; side
    | match goal with
      | |- keeps _ (if ?b then _ else _) => destruct b
      | |- keeps _ (match ?x with _ => _ end) => destruct x
      end ].

(** The side conditions of [launchInv]: an event that is not a
    registration, or a state update that leaves the flags alone. *)
Ltac launch_side :=
  first
    [ by (intros ? ? ?; apply launchInv_addEvent; [assumption|];
          intros ? ? ?; first [discriminate | set_solver])
    | by (intros ? ((? & ?) & ? & ? & ? & ?); split_and!; simpl; eauto) ].

Variable w : World.
Variable child : Child.
Variable p : initProcess.

Lemma wait_keeps seen : keeps (launchInv seen) (wait w p).
Proof. unfold wait. keeps_walk launch_side. Qed.

Lemma terminate_keeps seen : keeps (launchInv seen) (terminate w p).
Proof. unfold terminate. keeps_walk launch_side; apply wait_keeps. Qed.

Lemma getChildPid_keeps seen : keeps (launchInv seen) (getChildPid w child).
Proof. unfold getChildPid. keeps_walk launch_side. Qed.

Lemma waitForChildExit_keeps seen c :
  keeps (launchInv seen) (waitForChildExit w child c).
Proof. unfold waitForChildExit. keeps_walk launch_side. Qed.

Lemma getPipeFds_keeps seen c idxs acc :
  keeps (launchInv seen) (getPipeFdsLoop w child c idxs acc).
Proof.
  revert acc. induction idxs as [|i idxs IH]; intros acc; simpl.
  - apply keeps_ret.
  - keeps_walk launch_side; apply IH.
Qed.

Lemma createNetworkInterfaces_keeps seen nets :
  keeps (launchInv seen) (createNetworkInterfaces w nets).
Proof.
  induction nets as [|typ nets IH]; simpl.
  - apply keeps_ret.
  - keeps_walk launch_side. apply IH.
Qed.

Lemma runHooks_keeps seen : keeps (launchInv seen) (runHooks w p).
Proof. unfold runHooks. keeps_walk launch_side. Qed.

Lemma prepare_keeps : keeps (launchInv []) (prepare w child p).
Proof.
  unfold prepare, setupDevSubdir, updateSpecState, sendConfig, getPipeFds.
  keeps_walk launch_side;
    first [ apply getChildPid_keeps | apply getPipeFds_keeps
          | apply waitForChildExit_keeps | apply createNetworkInterfaces_keeps ].
Qed.

(** The reply [procRun] and the flag [sentRun]. *)
Lemma sendRun_keeps seen ctx :
  procReady ∈ seen →
  keeps (launchInv seen)
    (_ ← wrap ctx (writeSync w procRun); modify setSentRun).
Proof.
  intros Hseen s Hs. unfold mbind, M_bind, wrap, writeSync, call, modify.
  destruct (w (trace s) (WriteSync procRun)) as [e|]; simpl.
  - apply launchInv_addEvent; [done|]. intros ? ? ?; discriminate.
  - assert (Hs' : launchInv seen (addEvent (Call (WriteSync procRun) None) s)).
    { apply launchInv_addEvent; [done|]. intros ? ? ?; discriminate. }
    destruct Hs' as ([H1 H1'] & H2 & H3 & H4 & H5).
    split_and!; simpl; try done.
    intros _. split; [by apply H5|]. set_solver.
Qed.

(** The reply [procResume] and the flag [sentResume]. *)
Lemma sendResume_keeps seen ctx :
  procHooks ∈ seen →
  keeps (launchInv seen)
    (_ ← wrap ctx (writeSync w procResume); modify setSentResume).
Proof.
  intros Hseen s Hs. unfold mbind, M_bind, wrap, writeSync, call, modify.
  destruct (w (trace s) (WriteSync procResume)) as [e|]; simpl.
  - apply launchInv_addEvent; [done|]. intros ? ? ?; discriminate.
  - assert (Hs' : launchInv seen (addEvent (Call (WriteSync procResume) None) s)).
    { apply launchInv_addEvent; [done|]. intros ? ? ?; discriminate. }
    destruct Hs' as ([H1 H1'] & H2 & H3 & H4 & H5).
    split_and!; simpl; try done.
    intros _. split; [by apply H5|]. set_solver.
Qed.

Lemma registerWithSysboxfs_keeps c :
  keeps (launchInv [rootfsReady]) (registerWithSysboxfs w p c).
Proof. unfold registerWithSysboxfs. keeps_walk launch_side. Qed.

Lemma handleSync_keeps c t :
  keeps (launchInv [t]) (handleSync w p c t).
Proof.
  destruct t; simpl; unfold writeSync;
    try (keeps_walk launch_side; fail).
  - (* procReady *)
    apply keeps_bind; [apply keeps_pid|intros ?].
    apply keeps_bind; [keeps_walk launch_side|intros ?].
    apply keeps_bind; [keeps_walk launch_side; apply runHooks_keeps|intros ?].
    apply keeps_bind; [keeps_walk launch_side|intros ?].
    apply keeps_bind; [keeps_walk launch_side|intros [e|]].
    + apply keeps_fail.
    + apply sendRun_keeps. set_solver.
  - (* procHooks *)
    apply keeps_bind; [keeps_walk launch_side|intros ?].
    apply keeps_bind; [apply runHooks_keeps|intros ?].
    apply sendResume_keeps. set_solver.
  - (* rootfsReady *)
    apply keeps_bind; [keeps_walk launch_side|intros ?].
    apply keeps_bind; [apply registerWithSysboxfs_keeps|intros ?].
    keeps_walk launch_side.
Qed.

Lemma parseSync_keeps c fs :
  keeps (launchInv []) (parseSync fs (handleSync w p c)).
Proof.
  induction fs as [|[t|e] fs IH]; simpl.
  - apply keeps_ret.
  - intros s Hs. unfold mbind, M_bind, modify, try. simpl.
    pose proof (launchInv_recv [] t s Hs) as Hr.
    pose proof (handleSync_keeps c t _ Hr) as Hh.
    destruct (handleSync w p c t (addEvent (Recv t) s)) as [[[]|e|] s1];
      simpl in *.
    + apply IH. by eapply launchInv_weaken.
    + by eapply launchInv_weaken.
    + by eapply launchInv_weaken.
  - apply keeps_ret.
Qed.

Lemma syncAndFinish_keeps c : keeps (launchInv []) (syncAndFinish w child p c).
Proof.
  unfold syncAndFinish.
  apply keeps_bind; [apply parseSync_keeps|intros ierr].
  keeps_walk launch_side; apply wait_keeps.
Qed.

Lemma startBody_keeps : keeps (launchInv []) (startBody w child p).
Proof.
  unfold startBody. apply keeps_bind; [apply prepare_keeps|intros c].
  apply syncAndFinish_keeps.
Qed.

Lemma rollback_keeps r : keeps (launchInv []) (rollback w p r).
Proof. unfold rollback. keeps_walk launch_side. Qed.

End LaunchInvariants.

(** ** The init launch: rollback and the required messages *)

Lemma startedSt_inv w child : launchInv [] (startedSt w child).
Proof.
  unfold launchInv, startedSt. simpl. split_and!; [by eexists|set_solver| | | |].
  - intros info r Hin. exfalso.
    repeat (apply elem_of_cons in Hin as [Hin|Hin]; [discriminate|]).
    by apply elem_of_nil in Hin.
  - done.
  - done.
  - intros t Ht. by apply elem_of_nil in Ht.
Qed.

(** [start] after a successful [cmd.Start]: the body, the rollback when the
    body returned an error, and the close of the parent's socket. *)
Lemma start_started w child p :
  w [] CmdStart = None →
  start w child p initSt =
    let '(r, s1) := startBody w child p (startedSt w child) in
    let s2 := (rollback w p r s1).2 in
    (r, addEvent (Call CloseParentSock (w (trace s2) CloseParentSock)) s2).
Proof.
  intros Hstart.
  unfold start, defer at 1, mbind, M_bind, try, startCmd, mbind, M_bind, try,
    call, modify, call_. simpl. rewrite Hstart. simpl.
  unfold startedSt, defer. simpl.
  destruct (startBody w child p _) as [r s1].
  assert (Hr : (rollback w p r s1).1 = Ok ()).
  { unfold rollback. destruct r as [[]|e|]; try done.
    unfold mbind, M_bind, try, terminate, mbind, M_bind, get, try, wait,
      mbind, M_bind, try, call, call_.
    destruct (cmdProcess s1); simpl;
      repeat (match goal with
              | |- context [w ?t ?o] => destruct (w t o); simpl
              | |- context [sharePidns p] => destruct (sharePidns p); simpl
              | |- context [hasIntelRdt p] => destruct (hasIntelRdt p); simpl
              end); done. }
  destruct (rollback w p r s1) as [r' s2]. simpl in *. subst r'. done.
Qed.

(** What the rollback does after an error, with the child process known. *)
Lemma rollback_Err w p e s proc :
  cmdProcess s = Some proc →
  ∃ r1 r2 rs r3 r4,
    trace (rollback w p (Err e) s).2 =
      trace s ++ [Call (Kill proc) r1; Call CmdWait r2]
        ++ (if sharePidns p then [Call SignalAllProcesses rs] else [])
        ++ [Call CgroupDestroy r3]
        ++ (if hasIntelRdt p then [Call RdtDestroy r4] else []) ∧
    cmdProcess (rollback w p (Err e) s).2 = Some proc.
Proof.
  intros Hproc.
  unfold rollback, mbind, M_bind, try, terminate, mbind, M_bind, get, try, wait,
    mbind, M_bind, try, call, call_. rewrite Hproc. simpl.
  destruct (sharePidns p), (hasIntelRdt p); simpl;
    repeat (match goal with
            | |- context [w ?t ?o] => destruct (w t o); simpl
            end);
    eexists _, _, _, _, _; rewrite <- ?app_assoc; simpl;
    (split; [reflexivity|done]).
  Unshelve. all: exact None.
Qed.

(** C7. When [start] returns an error after the bootstrapper has been
    started, the last things the parent did are: SIGKILL to the child
    process, a wait for it, the destruction of the cgroup and, when Intel RDT
    is configured, of the RDT allocation (then it closes its socket).  And
    when no [rootfsReady] message was read, no registration with the
    filesystem virtualizer was attempted. *)
Theorem start_error_rolls_back w child p e s' :
  w [] CmdStart = None →
  start w child p initSt = (Err e, s') →
  ∃ proc before r1 r2 rs r3 r4 r5,
    cmdProcess s' = Some proc ∧
    trace s' =
      before ++ [Call (Kill proc) r1; Call CmdWait r2]
        ++ (if sharePidns p then [Call SignalAllProcesses rs] else [])
        ++ [Call CgroupDestroy r3]
        ++ (if hasIntelRdt p then [Call RdtDestroy r4] else [])
        ++ [Call CloseParentSock r5] ∧
    Call CmdStart None ∈ before ∧
    (Recv rootfsReady ∉ trace s' →
       ∀ info r, Call (Register info) r ∉ trace s').
Proof.
  intros Hstart H. rewrite start_started in H by done.
  pose proof (startBody_keeps w child p _ (startedSt_inv w child)) as Hinv.
  destruct (startBody w child p (startedSt w child)) as [r s1].
  cbv zeta in H. simpl in Hinv. injection H as -> <-.
  pose proof (rollback_keeps w p (Err e) _ Hinv) as Hinv2.
  destruct Hinv as (([proc Hproc] & Hst) & _).
  destruct (rollback_Err w p e s1 proc Hproc) as (r1 & r2 & rs & r3 & r4 & Htr & Hp).
  set (s2 := (rollback w p (Err e) s1).2) in *.
  exists proc, (trace s1), r1, r2, rs, r3, r4, (w (trace s2) CloseParentSock).
  cbn [trace cmdProcess addEvent]. split_and!.
  - done.
  - rewrite Htr. rewrite <- !app_assoc. reflexivity.
  - done.
  - intros Hno info r Hin. apply Hno.
    destruct Hinv2 as (_ & Hreg & _).
    apply elem_of_app in Hin as [Hin|Hin].
    + apply elem_of_app. left. by eapply Hreg.
    + apply list_elem_of_singleton in Hin. discriminate.
Qed.

(** How [syncAndFinish] ends, from the outcome of the sync loop. *)
Lemma syncAndFinish_cases w child p c s ierr s1 :
  parseSync (frames child) (handleSync w p c) s = (Ok ierr, s1) →
  (sentRun s1 = false →
     (syncAndFinish w child p c s).1 =
       Err (match ierr with
            | Some e => ErrCause "container init" e
            | None => noProcReady
            end)) ∧
  (sentRun s1 = true → newMountNs p = true → sentResume s1 = false →
     (syncAndFinish w child p c s).1 = Err noResume) ∧
  (isOk (syncAndFinish w child p c s).1 →
     sentRun (syncAndFinish w child p c s).2 = true ∧
     (newMountNs p = true → sentResume (syncAndFinish w child p c s).2 = true)).
Proof.
  intros Hps. unfold syncAndFinish, mbind, M_bind. rewrite Hps.
  unfold get. simpl.
  destruct (sentRun s1) eqn:Hrun; simpl.
  2:{ split_and!; [done|done|]. intros [[] H]. destruct ierr; discriminate. }
  destruct (newMountNs p) eqn:Hns, (sentResume s1) eqn:Hres; simpl;
    try (split_and!; [done|done|]; intros [[] H]; discriminate);
    unfold wrap, call, try, wait, mbind, M_bind, try, call, call_;
    destruct (w (trace s1) Shutdown); simpl;
    try (split_and!; [done|done|]; intros [[] H]; discriminate);
    destruct ierr as [e|]; simpl;
    repeat (match goal with
            | |- context [w ?t ?o] => destruct (w t o); simpl
            | |- context [sharePidns p] => destruct (sharePidns p); simpl
            end);
    split_and!; try done; try (intros [[] H]; discriminate).
Qed.

Lemma parseSync_no_panic_or_ok w child p c s :
  ∃ r s1, parseSync (frames child) (handleSync w p c) s = (r, s1) ∧
          (∀ e, r ≠ Err e).
Proof.
  generalize (frames child) as fs. intros fs. revert s.
  induction fs as [|[t|e] fs IH]; intros s; simpl.
  - eexists _, _. split; [reflexivity|done].
  - unfold mbind, M_bind, modify, try. simpl.
    destruct (handleSync w p c t (addEvent (Recv t) s)) as [[[]|e|] s1].
    + apply IH.
    + eexists _, _. split; [reflexivity|done].
    + eexists _, _. split; [reflexivity|done].
  - eexists _, _. split; [reflexivity|done].
Qed.

(** C8. [start] returns success only after it has read a [procReady]
    message and written the [procRun] reply, and, when the configuration
    has a new mount namespace, only after it has read [procHooks] and
    written [procResume].  When the sync loop ends and [procRun] was not
    sent, what follows the loop returns the "container init" error; when
    [procRun] was sent but, with a new mount namespace, [procResume] was not,
    it returns the "could not synchronise" error. *)
Theorem start_needs_procReady w child p :
  (∀ s', start w child p initSt = (Ok (), s') →
     (Recv procReady ∈ trace s' ∧ Call (WriteSync procRun) None ∈ trace s') ∧
     (newMountNs p = true →
        Recv procHooks ∈ trace s' ∧ Call (WriteSync procResume) None ∈ trace s')) ∧
  (∀ c s ierr s1,
     parseSync (frames child) (handleSync w p c) s = (Ok ierr, s1) →
     sentRun s1 = false →
     (syncAndFinish w child p c s).1 =
       Err (match ierr with
            | Some e => ErrCause "container init" e
            | None => noProcReady
            end)) ∧
  (∀ c s ierr s1,
     parseSync (frames child) (handleSync w p c) s = (Ok ierr, s1) →
     sentRun s1 = true → newMountNs p = true → sentResume s1 = false →
     (syncAndFinish w child p c s).1 = Err noResume).
Proof.
  split_and!.
  - intros s' H.
    destruct (w [] CmdStart) as [e|] eqn:Hstart.
    { exfalso. revert H.
      unfold start, defer, mbind, M_bind, try, startCmd, mbind, M_bind, try,
        call, modify, call_, fail. simpl. rewrite Hstart. simpl. done. }
    rewrite start_started in H by done.
    pose proof (startBody_keeps w child p _ (startedSt_inv w child)) as Hinv.
    assert (Hflags : isOk (startBody w child p (startedSt w child)).1 →
              sentRun (startBody w child p (startedSt w child)).2 = true ∧
              (newMountNs p = true →
               sentResume (startBody w child p (startedSt w child)).2 = true)).
    { unfold startBody, mbind, M_bind.
      destruct (prepare w child p (startedSt w child)) as [[c|e|] s0];
        [|by intros [[] ?]|by intros [[] ?]].
      destruct (parseSync_no_panic_or_ok w child p c s0) as (r & s1 & Hps & Hne).
      destruct r as [ierr|e|].
      - by destruct (syncAndFinish_cases w child p c s0 ierr s1 Hps) as (_ & _ & ?).
      - by destruct (Hne e).
      - unfold syncAndFinish, mbind, M_bind. rewrite Hps. by intros [[] ?]. }
    destruct (startBody w child p (startedSt w child)) as [r s1].
    cbv zeta in H. simpl in Hinv, Hflags. injection H as -> <-.
    destruct Hflags as [Hrun Hres]; [by eexists|].
    destruct Hinv as (_ & _ & H3 & H4 & _).
    cbn [rollback mret M_ret snd trace addEvent].
    split.
    + destruct (H3 Hrun). split; apply elem_of_app; by left.
    + intros Hns. destruct (H4 (Hres Hns)). split; apply elem_of_app; by left.
  - intros c s ierr s1 Hps Hrun.
    by destruct (syncAndFinish_cases w child p c s ierr s1 Hps) as (H & _ & _); auto.
  - intros c s ierr s1 Hps Hrun Hns Hres.
    by destruct (syncAndFinish_cases w child p c s ierr s1 Hps) as (_ & H & _); auto.
Qed.

(** ** The setns launch: cgroup placement *)

(** An error of the cgroup placement is the error of the launch. *)
Lemma setnsStart_placement_error w child p sA sB e :
  w [] CmdStart = None →
  beforeCgroups w child p (setnsStartedSt w child) = (Ok (), sA) →
  enterCgroups w p sA = (Err e, sB) →
  (setnsStart w child p initSt).1 = Err e.
Proof.
  intros Hstart HA HB.
  unfold setnsStart, defer at 1, mbind at 1, M_bind at 1, try at 1, startCmd,
    mbind at 1, M_bind at 1, try at 1, call at 1. simpl. rewrite Hstart. simpl.
  unfold mbind at 1, M_bind at 1, call_ at 1. simpl.
  unfold mbind at 1, M_bind at 1, call_ at 1. simpl.
  unfold defer, call_.
  unfold setnsStartedSt in HA. simpl in HA.
  unfold mbind at 1, M_bind at 1. rewrite HA.
  unfold mbind at 1, M_bind at 1. rewrite HB.
  unfold setnsRollback, mbind, M_bind, try, setnsTerminate, mbind, M_bind, get,
    try, setnsWait, call.
  destruct (cmdProcess sB); simpl;
    repeat (match goal with
            | |- context [w ?t ?o] => destruct (w t o); simpl
            end); done.
Qed.

(** C9, as amended.  When the placement of the process in the container's
    cgroups fails, with EBUSY or with any other error: with rootless cgroups
    the failure is ignored; otherwise, under cgroup v2 unified mode, when
    the cgroup file of the init process parses and has the unified entry,
    the parent writes the pid to that cgroup directory and goes on exactly
    when the write succeeds; in every other case the placement returns the
    error wrapped as "adding pid to cgroups", and that error is the error of
    the launch. *)
Theorem setns_cgroup_fallback w child p s proc e0 :
  cmdProcess s = Some proc →
  hasCgroupPaths p = true →
  w (trace s) (EnterPid proc) = Some e0 →
  let s1 := addEvent (Call (EnterPid proc) (Some e0)) s in
  let parse := ParseCgroupFile (initProcessPid p) in
  let s2 := addEvent (Call parse None) s1 in
  (rootlessCgroups p = true → enterCgroups w p s = (Ok (), s1)) ∧
  (rootlessCgroups p = false →
     (∀ path,
        IsCgroup2UnifiedMode p = true → w (trace s1) parse = None →
        initCg p !! "" = Some path →
        let write :=
          WriteCgroupProc (filepathJoin p (UnifiedMountpoint p) path) proc in
        enterCgroups w p s =
          match w (trace s2) write with
          | None => (Ok (), addEvent (Call write None) s2)
          | Some e => (Err (addingPid e), addEvent (Call write (Some e)) s2)
          end) ∧
     (IsCgroup2UnifiedMode p = false ∨ is_Some (w (trace s1) parse)
      ∨ initCg p !! "" = None →
        (enterCgroups w p s).1 = Err (addingPid e0)) ∧
     (∀ e sA sB,
        w [] CmdStart = None →
        beforeCgroups w child p (setnsStartedSt w child) = (Ok (), sA) →
        enterCgroups w p sA = (Err e, sB) →
        (setnsStart w child p initSt).1 = Err e)).
Proof.
  intros Hproc Hpaths Henter s1 parse s2.
  assert (Hhead : enterCgroups w p s =
    if rootlessCgroups p then (Ok (), s1)
    else
      (err ←
         (if IsCgroup2UnifiedMode p then
            initCgErr ← try (call w parse);
            match initCgErr with
            | None =>
                match initCg p !! "" with
                | Some initCgPath =>
                    try (call w (WriteCgroupProc
                                   (filepathJoin p (UnifiedMountpoint p) initCgPath)
                                   proc))
                | None => mret (Some e0)
                end
            | Some _ => mret (Some e0)
            end
          else mret (Some e0));
       match err with
       | Some e => fail (addingPid e)
       | None => mret ()
       end) s1).
  { unfold enterCgroups. rewrite Hpaths.
    unfold mbind at 1, M_bind at 1, pid. rewrite Hproc.
    unfold mbind at 1, M_bind at 1, try at 1, call at 1. rewrite Henter.
    fold s1. by destruct (rootlessCgroups p). }
  split.
  - intros Hr. by rewrite Hhead, Hr.
  - intros Hr. rewrite Hr in Hhead. split_and!.
    + intros path Huni Hparse Hcg write. rewrite Hhead, Huni.
      unfold mbind, M_bind, try, call. rewrite Hparse. fold s2. rewrite Hcg.
      fold write. by destruct (w (trace s2) write).
    + intros Hcase. rewrite Hhead.
      destruct (IsCgroup2UnifiedMode p) eqn:Huni; [|done].
      unfold mbind, M_bind, try, call.
      destruct (w (trace s1) parse) as [e|] eqn:Hparse; [done|].
      destruct (initCg p !! "") eqn:Hcg; [|done].
      destruct Hcase as [?|[[? ?]|?]]; done.
    + intros e sA sB. apply setnsStart_placement_error.
Qed.

(** ** The theorems at concrete inputs *)

Lemma cfgSeccomp_whitelist_closure_witness :
  ∃ s' (D : gset string) (added : list LinuxSyscall),
    cfgSeccomp sampleWhitelist ["clone"] elements (Some sampleWhitelistProfile)
      = Ok (Some s') ∧
    DefaultAction s' = DefaultAction sampleWhitelistProfile ∧
    (∀ n, n ∈ D ↔ n ∈ sampleWhitelist
                  ∧ ¬ underAction ActAllow (Syscalls sampleWhitelistProfile) n) ∧
    added ≡ₚ allowEntry <$> elements D ∧
    Syscalls s' = map (stripArgs ["clone"]) (Syscalls sampleWhitelistProfile) ++ added ∧
    (∀ n, n ∈ sampleWhitelist → underAction ActAllow (Syscalls s') n) ∧
    (∀ sc, sc ∈ Syscalls s' → (∃ n, n ∈ names sc ∧ n ∉ ["clone"]) →
           Syscall_Args sc = []).
Proof.
  apply (cfgSeccomp_whitelist_closure sampleWhitelist ["clone"] elements
           sampleWhitelistProfile).
  - intros X. reflexivity.
  - simpl. constructor.
  - left. reflexivity.
Defined.

(** What the whitelist branch returns on the sample profile: [mount] loses
    its argument restriction, [clone] keeps it, and the two missing names of
    the whitelist are appended. *)
Example cfgSeccomp_whitelist_sample :
  ∃ s', cfgSeccomp sampleWhitelist ["clone"] elements (Some sampleWhitelistProfile)
          = Ok (Some s') ∧
        map (λ sc, (names sc, Action sc, length (Syscall_Args sc))) (Syscalls s') ≡ₚ
          [ (["mount"], ActAllow, 0%nat); (["clone"], ActAllow, 1%nat);
            (["kexec_load"], ActErrno, 0%nat);
            (["umount2"], ActAllow, 0%nat); (["pivot_root"], ActAllow, 0%nat) ].
Proof.
  eexists. split; [vm_compute; reflexivity|].
  simpl. apply NoDup_Permutation.
  - repeat (apply NoDup_cons; split; [set_solver|]). apply NoDup_nil_2.
  - repeat (apply NoDup_cons; split; [set_solver|]). apply NoDup_nil_2.
  - intros x. set_solver.
Qed.

Lemma cfgSeccomp_blacklist_keeps_mount_witness :
  "mount" ∈ sampleWhitelist ∧
  cfgSeccomp sampleWhitelist ["clone"] elements (Some mountErrnoProfile)
    = Ok (Some mountErrnoProfile).
Proof.
  assert (H : "mount" ∈ sampleWhitelist) by (unfold sampleWhitelist; constructor).
  split; [exact H|].
  exact (cfgSeccomp_blacklist_keeps_mount sampleWhitelist ["clone"] elements H).
Defined.

(** In blacklist mode a denied name that is not on the whitelist is what
    gets removed, and the entry it leaves empty stays in the profile (its
    [Names] is an empty slice, not nil). *)
Example cfgSeccomp_blacklist_removes_unlisted :
  cfgSeccomp sampleWhitelist ["clone"] elements (Some (denyProfile ["kexec_load"]))
  = Ok (Some (denyProfile [])).
Proof. vm_compute. reflexivity. Qed.

(** Two denied names that are not on the whitelist: the second removal
    slices past the end of the shortened slice. *)
Example cfgSeccomp_blacklist_panics :
  cfgSeccomp sampleWhitelist ["clone"] elements
    (Some (denyProfile ["kexec_load"; "open_by_handle_at"]))
  = Panic.
Proof. vm_compute. reflexivity. Qed.

(** With three such names the loop skips the one that moved into the place
    of the removed one, and panics at the last index. *)
Example removeLoop_skips :
  removeLoop {[ "a"; "b" ]} [0; 1; 2]%nat ["a"; "b"; "c"] 3 = Ok (["b"; "c"; "c"], 2%nat).
Proof. vm_compute. reflexivity. Qed.

Lemma ConvertSpec_unmasks_paths_witness :
  ∃ a b spec' g',
    ConvertSpec sampleHost noMgr sampleFs (sampleSpec false ["/sbin/init"] "")
      initGlobals = Ok (a, b, spec', g') ∧
    ∃ l' p' arg0,
      Spec_Linux spec' = Some l' ∧ Spec_Process spec' = Some p' ∧
      Process_Args p' !! 0%nat = Some arg0 ∧
      (∀ x, x ∈ sysboxExposedPaths → x ∉ MaskedPaths l') ∧
      (∀ x, x ∈ sysboxRwPaths → x ∉ ReadonlyPaths l') ∧
      (arg0 = "/sbin/init" →
         (∀ x, x ∈ sysboxSystemdExposedPaths → x ∉ MaskedPaths l') ∧
         (∀ x, x ∈ sysboxSystemdRwPaths → x ∉ ReadonlyPaths l')).
Proof.
  eexists _, _, _, _. split.
  - vm_compute. reflexivity.
  - refine (ConvertSpec_unmasks_paths sampleHost noMgr sampleFs
              (sampleSpec false ["/sbin/init"] "") initGlobals _ _ _ _ _).
    vm_compute. reflexivity.
Defined.

(** The sample systemd spec after the conversion: of its masked paths only
    [/proc/keys] is left, of its read-only paths only [/proc/bus]. *)
Example ConvertSpec_systemd_sample :
  ∃ a b spec' g' l',
    ConvertSpec sampleHost noMgr sampleFs (sampleSpec false ["/sbin/init"] "")
      initGlobals = Ok (a, b, spec', g') ∧
    Spec_Linux spec' = Some l' ∧
    MaskedPaths l' = ["/proc/keys"] ∧ ReadonlyPaths l' = ["/proc/bus"].
Proof.
  eexists _, _, _, _, _. split; [vm_compute; reflexivity|].
  split; [reflexivity|]. split; reflexivity.
Qed.

Lemma checkSpec_host_netns_witness :
  checkSpec sampleHost (sampleSpec false ["/bin/sh"] "/proc/1/ns/net")
    = Err hostNetnsShared ∧
  ConvertSpec sampleHost noMgr sampleFs
    (sampleSpec false ["/bin/sh"] "/proc/1/ns/net") initGlobals
    = Err (ErrCause "invalid or unsupported container spec" hostNetnsShared).
Proof.
  refine (proj1 (checkSpec_host_netns sampleHost noMgr sampleFs
            (sampleSpec false ["/bin/sh"] "/proc/1/ns/net") initGlobals
            {| Root_Path := "/rootfs"; Readonly := false |}
            (sampleLinux "/proc/1/ns/net")
            [newNs "pid"; newNs "ipc"; newNs "uts"; newNs "mount"]
            {| Namespace_Type := "network"; Namespace_Path := "/proc/1/ns/net" |}
            []
            {| Dev := 4; Ino := 100 |} {| Dev := 4; Ino := 100 |}
            eq_refl eq_refl eq_refl _ eq_refl _ eq_refl eq_refl) _).
  - intros n Hn [Ht _].
    repeat (apply elem_of_cons in Hn as [->|Hn]; [discriminate|]).
    by apply elem_of_nil in Hn.
  - discriminate.
  - split; reflexivity.
Defined.

(** A network namespace path that is another file passes the check. *)
Example checkSpec_other_netns :
  checkSpec sampleHost (sampleSpec false ["/bin/sh"] "/run/netns/c1") = Ok ().
Proof. vm_compute. reflexivity. Qed.

Lemma systemdInit_reads_first_arg_witness :
  systemdInit (sampleProcess ["/sbin/init"; "--log-level=debug"]) = Ok true ∧
  systemdInit (sampleProcess []) = Panic ∧
  ConvertProcessSpec sampleHost (sampleProcess []) = Panic.
Proof.
  split.
  - exact (proj1 (proj1 (systemdInit_reads_first_arg sampleHost noMgr sampleFs
              (sampleProcess ["/sbin/init"; "--log-level=debug"]))
            "/sbin/init" ["--log-level=debug"] eq_refl)).
  - destruct (proj2 (systemdInit_reads_first_arg sampleHost noMgr sampleFs
                       (sampleProcess [])) eq_refl) as (H1 & H2 & _).
    split; [exact H1|exact H2].
Defined.

(** A spec with an empty argument list and nothing else wrong: the
    conversion panics in the mount stage. *)
Example ConvertSpec_empty_args_panics :
  ConvertSpec sampleHost noMgr sampleFs (sampleSpec false [] "") initGlobals = Panic.
Proof. vm_compute. reflexivity. Qed.

Lemma cfgIDMappings_validates_witness :
  (isOk (cfgIDMappings noMgr splitMappingSpec)
   ↔ validMappings (setIDMappings (sampleLinux "")
       [uidRange 32768 198304 32768; uidRange 0 165536 32768]
       [uidRange 0 165536 65536])) ∧
  cfgIDMappings noMgr splitMappingSpec =
    Ok (setLinux splitMappingSpec
          (setIDMappings (sampleLinux "")
             [uidRange 0 165536 65536] [uidRange 0 165536 65536])).
Proof.
  destruct (cfgIDMappings_validates noMgr splitMappingSpec
              (setIDMappings (sampleLinux "")
                 [uidRange 32768 198304 32768; uidRange 0 165536 32768]
                 [uidRange 0 165536 65536]))
    as (Hiff & _ & _ & _).
  - reflexivity.
  - left. reflexivity.
  - left. discriminate.
  - split; [exact Hiff|]. vm_compute. reflexivity.
Defined.

(** A mapping onto host id 0 is rejected, and so is a gap between the
    sub-ranges. *)
Example cfgIDMappings_rejects_host_root :
  cfgIDMappings noMgr
    (setLinux splitMappingSpec
       (setIDMappings (sampleLinux "") [uidRange 0 0 65536] [uidRange 0 0 65536]))
  = Err (ErrStr "detected user-ns uid mapping to host ID 0; this breaks container isolation").
Proof. vm_compute. reflexivity. Qed.

Example cfgIDMappings_rejects_gap :
  cfgIDMappings noMgr
    (setLinux splitMappingSpec
       (setIDMappings (sampleLinux "")
          [uidRange 0 165536 32768; uidRange 40000 198304 32768]
          [uidRange 0 165536 65536]))
  = Err (ErrStr "id mappings are not contiguous").
Proof. vm_compute. reflexivity. Qed.

(** The read-only sample after the conversion, with the filesystem
    virtualizer enabled: the /sys mounts of the table carry [ro], and the
    read-only paths have gained four of the five virtualized destinations;
    [/proc/sys], which the spec listed and the mount stage added again, is
    gone. *)
Example ConvertSpec_readonly_sample :
  ∃ a b spec' g' l',
    ConvertSpec sampleHost noMgr sampleFs (sampleSpec true ["/bin/sh"] "")
      initGlobals = Ok (a, b, spec', g') ∧
    Spec_Linux spec' = Some l' ∧
    ReadonlyPaths l' =
      ["/proc/bus"; "/tmp"; "/proc/swaps"; "/proc/uptime";
       "/sys/devices/virtual/dmi/id/product_uuid";
       "/sys/module/nf_conntrack/parameters/hashsize"] ∧
    map (λ m, (Destination m, Options m)) (take 3 (sysboxMounts g')) =
      [ ("/sys", ["noexec"; "nosuid"; "nodev"; "ro"]);
        ("/sys/fs/cgroup", ["noexec"; "nosuid"; "nodev"; "ro"]);
        ("/sys/kernel/config",
         ["rprivate"; "noexec"; "nosuid"; "nodev"; "size=1m"; "ro"]) ].
Proof.
  eexists _, _, _, _, _. split; [vm_compute; reflexivity|].
  split; [reflexivity|]. split; reflexivity.
Qed.

Lemma start_error_rolls_back_witness :
  ∃ e s',
    start sendConfigFails sampleChild sampleInit initSt = (Err e, s') ∧
    ∃ proc before r1 r2 rs r3 r4 r5,
      cmdProcess s' = Some proc ∧
      trace s' =
        before ++ [Call (Kill proc) r1; Call CmdWait r2]
          ++ (if sharePidns sampleInit then [Call SignalAllProcesses rs] else [])
          ++ [Call CgroupDestroy r3]
          ++ (if hasIntelRdt sampleInit then [Call RdtDestroy r4] else [])
          ++ [Call CloseParentSock r5] ∧
      Call CmdStart None ∈ before ∧
      (Recv rootfsReady ∉ trace s' →
         ∀ info r, Call (Register info) r ∉ trace s').
Proof.
  eexists _, _. split.
  - vm_compute. reflexivity.
  - refine (start_error_rolls_back sendConfigFails sampleChild sampleInit _ _
              eq_refl _).
    vm_compute. reflexivity.
Defined.

(** An error injected where the config is sent: the error names the phase,
    the final child (pid 102) is killed and waited for, the cgroup and the
    RDT allocation are destroyed, and there is no registration. *)
Example start_sendConfig_fails :
  ∃ s',
    start sendConfigFails sampleChild sampleInit initSt =
      (Err (ErrCause "sending config to init process" (ErrErrno EIO)), s') ∧
    drop 19 (trace s') =
      [ Call WriteConfig (Some (ErrErrno EIO));
        Call (Kill 102) None; Call CmdWait None;
        Call CgroupDestroy None; Call RdtDestroy None;
        Call CloseParentSock None ] ∧
    ∀ info r, Call (Register info) r ∉ trace s'.
Proof.
  eexists. split; [vm_compute; reflexivity|]. split; [reflexivity|].
  intros info r Hin. simpl in Hin.
  repeat (apply elem_of_cons in Hin as [Hin|Hin]; [discriminate|]).
  by apply elem_of_nil in Hin.
Qed.

Lemma start_needs_procReady_witness :
  ∃ s',
    start calmWorld sampleChild sampleInit initSt = (Ok (), s') ∧
    (Recv procReady ∈ trace s' ∧ Call (WriteSync procRun) None ∈ trace s') ∧
    (newMountNs sampleInit = true →
       Recv procHooks ∈ trace s' ∧ Call (WriteSync procResume) None ∈ trace s').
Proof.
  eexists. split.
  - vm_compute. reflexivity.
  - refine (proj1 (start_needs_procReady calmWorld sampleChild sampleInit) _ _).
    vm_compute. reflexivity.
Defined.

(** A child that closes the socket without ever sending [procReady]. *)
Example start_without_procReady :
  (start calmWorld quietChild sampleInit initSt).1 = Err noProcReady.
Proof. vm_compute. reflexivity. Qed.

Lemma setns_cgroup_fallback_witness :
  ∃ s',
    enterCgroups enterPidDenied sampleSetns (setCmdProcess (Some 102) initSt)
      = (Ok (), s') ∧
    trace s' =
      [ Call (EnterPid 102) (Some (ErrErrno EACCES));
        Call (ParseCgroupFile 42) None;
        Call (WriteCgroupProc "/sys/fs/cgroup/docker/c1/init.scope" 102) None ].
Proof.
  destruct (setns_cgroup_fallback enterPidDenied quietChild sampleSetns
              (setCmdProcess (Some 102) initSt) 102 (ErrErrno EACCES)
              eq_refl eq_refl eq_refl) as [_ H].
  destruct (H eq_refl) as (Hfb & _).
  eexists. split.
  - exact (Hfb "/docker/c1/init.scope" eq_refl eq_refl eq_refl).
  - reflexivity.
Defined.

(** C9 as stated fails.  The placement fails with EACCES, which is not
    EBUSY; the host is in cgroup v2 unified mode; the parent falls back to
    the cgroup of the init process, and the launch succeeds. *)
Lemma setns_placement_counterexample :
  ∃ s',
    setnsStart enterPidDenied quietChild sampleSetns initSt = (Ok (), s') ∧
    Call (EnterPid 102) (Some (ErrErrno EACCES)) ∈ trace s' ∧
    ErrErrno EACCES ≠ ErrErrno EBUSY.
Proof.
  eexists. split; [vm_compute; reflexivity|]. split; [|discriminate].
  simpl. set_solver.
Qed.

(** With rootless cgroups a failed placement is not an error either. *)
Example setns_rootless_ignores_placement :
  (setnsStart enterPidDenied quietChild
     {| hasCgroupPaths := true; rootlessCgroups := true; intelRdtPath := "";
        hasBootstrapData := true; initProcessPid := 42;
        IsCgroup2UnifiedMode := false; initCg := ∅;
        UnifiedMountpoint := "/sys/fs/cgroup"; filepathJoin := λ a b, a +:+ b |}
     initSt).1 = Ok ().
Proof. vm_compute. reflexivity. Qed.

(** Without unified mode the same failure ends the launch. *)
Example setns_v1_placement_fails :
  (setnsStart enterPidDenied quietChild
     {| hasCgroupPaths := true; rootlessCgroups := false; intelRdtPath := "";
        hasBootstrapData := true; initProcessPid := 42;
        IsCgroup2UnifiedMode := false; initCg := ∅;
        UnifiedMountpoint := "/sys/fs/cgroup"; filepathJoin := λ a b, a +:+ b |}
     initSt).1 = Err (addingPid (ErrErrno EACCES)).
Proof. vm_compute. reflexivity. Qed.

(** * Further properties *)
(** ** Namespaces *)

Lemma specNsSet_elem (nss : list LinuxNamespace) (acc : gset string) (t : string) :
  t ∈ foldl (λ acc ns, {[Namespace_Type ns]} ∪ acc) acc nss
  ↔ t ∈ acc ∨ t ∈ map Namespace_Type nss.
Proof.
  revert acc. induction nss as [|x l IH]; intros acc; simpl.
  - set_solver.
  - rewrite IH. set_solver.
Qed.

Lemma usernsOverride_map mgr (nss : list LinuxNamespace) :
  (if Mgr_Enabled mgr && negb (bool_decide (Mgr_Userns mgr = ""))
   then map (λ ns, if bool_decide (Namespace_Type ns = UserNamespace)
                   then {| Namespace_Type := Namespace_Type ns;
                           Namespace_Path := Mgr_Userns mgr |}
                   else ns) nss
   else nss) = map (usernsOverride mgr) nss.
Proof.
  unfold usernsOverride.
  destruct (Mgr_Enabled mgr && negb (bool_decide (Mgr_Userns mgr = ""))); simpl.
  - done.
  - by rewrite map_id.
Qed.

Lemma usernsOverride_type mgr ns :
  Namespace_Type (usernsOverride mgr ns) = Namespace_Type ns.
Proof. unfold usernsOverride. by destruct (_ && _). Qed.

(** What [cfgNamespaces] returns, in one equation. *)
Lemma cfgNamespaces_eq h mgr spec l :
  Spec_Linux spec = Some l →
  cfgNamespaces h mgr spec =
    if bool_decide (requiredNamespaces ⊆ nsTypes l)
    then Ok (setLinux spec (setNamespaces l
           (map (usernsOverride mgr)
              (Namespaces l ++
               map newNs (setIter h (list_to_set allNamespaces
                                     ∖ list_to_set (nsTypes l)))))))
    else Err (ErrStr "container spec missing namespaces").
Proof.
  intros Hl. unfold cfgNamespaces. rewrite Hl. simpl.
  set (specNsSet := foldl (λ acc ns, {[Namespace_Type ns]} ∪ acc) ∅ (Namespaces l)).
  assert (Hspec : specNsSet = list_to_set (nsTypes l)).
  { apply leibniz_equiv. intros t. unfold specNsSet, nsTypes.
    rewrite specNsSet_elem, elem_of_list_to_set. set_solver. }
  rewrite Hspec.
  assert (Hreq : ({["network"]} ∪ ({["mount"]} ∪ ({["uts"]} ∪ ({["ipc"]} ∪ ({["pid"]} ∪ ∅))))
                  : gset string) = list_to_set requiredNamespaces).
  { apply leibniz_equiv. intros t. unfold requiredNamespaces.
    rewrite elem_of_list_to_set. set_solver. }
  assert (Hall : ({["cgroup"]} ∪ ({["user"]} ∪ ({["network"]} ∪ ({["mount"]} ∪
                   ({["uts"]} ∪ ({["ipc"]} ∪ ({["pid"]} ∪ ∅))))))
                  : gset string) = list_to_set allNamespaces).
  { apply leibniz_equiv. intros t. unfold allNamespaces.
    rewrite elem_of_list_to_set. set_solver. }
  rewrite Hall, Hreq.
  assert (Hsub : bool_decide ((list_to_set requiredNamespaces : gset string)
                              ⊆ list_to_set (nsTypes l))
                 = bool_decide (requiredNamespaces ⊆ nsTypes l)).
  { apply bool_decide_ext. split.
    - intros Hs t Ht. apply (elem_of_list_to_set (C := gset string)).
      apply Hs. by apply elem_of_list_to_set.
    - intros Hs t Ht. apply elem_of_list_to_set. apply Hs.
      by apply (elem_of_list_to_set (C := gset string)). }
  rewrite Hsub. clear Hsub.
  destruct (bool_decide (requiredNamespaces ⊆ nsTypes l)); cbn [negb]; [|done].
  rewrite (foldl_snoc_map newNs). by rewrite usernsOverride_map.
Qed.

(** ** What the conversion leaves of the spec *)

Lemma cfgMounts_linux h mgr fs spec g b spec' g' :
  cfgMounts h mgr fs spec g b = Ok (spec', g') →
  Spec_Linux spec' = Spec_Linux spec ∨
  ∃ l ro, Spec_Linux spec = Some l ∧
          Spec_Linux spec' = Some (setReadonlyPaths l ro).
Proof.
  unfold cfgMounts. intros H.
  res_step H as [s1 g1] H1. res_step H as [s2 g2] H2. res_step H as s3 H3.
  res_step H as p Hp. res_step H as sd Hsd.
  apply cfgSysboxMounts_Ok in H1 as ((_ & _ & HL1) & _).
  assert (HL3 : Spec_Linux s3 = Spec_Linux s2).
  { destruct (Mgr_Enabled mgr).
    - by apply sysMgrSetupMounts_Ok in H3 as (_ & _ & ?).
    - by injection H3 as <-. }
  assert (HL4 : Spec_Linux spec' = Spec_Linux s3).
  { destruct sd; simpl in H; injection H as <- <-; done. }
  destruct (Fs_Enabled fs).
  - apply cfgSysboxFsMounts_Ok in H2
      as (_ & _ & _ & _ & _ & root & kept & _ & _ & Hlin).
    destruct (Readonly root).
    + destruct Hlin as (l & Hl & Hl'). right. eexists l, _.
      split; [congruence|]. rewrite HL4, HL3. exact Hl'.
    + left. congruence.
  - injection H2 as <- <-. left. congruence.
Qed.

(** The namespaces and the ID mappings of the converted spec are the ones
    the first two stages leave. *)
Lemma ConvertSpec_linux h mgr fs spec g a b spec' g' :
  ConvertSpec h mgr fs spec g = Ok (a, b, spec', g') →
  ∃ spec1 spec2 l2 l',
    cfgNamespaces h mgr spec = Ok spec1 ∧ cfgIDMappings mgr spec1 = Ok spec2 ∧
    Spec_Linux spec2 = Some l2 ∧ Spec_Linux spec' = Some l' ∧
    Namespaces l' = Namespaces l2 ∧
    UIDMappings l' = UIDMappings l2 ∧ GIDMappings l' = GIDMappings l2.
Proof.
  intros H.
  apply ConvertSpec_Ok_inv in H
    as (spec1 & spec2 & spec3 & spec4 & spec5 & spec6 & l & seccomp & p & p'
        & _ & Hns & Hid & _ & Hm & Hmask & Hro & Hoom & Hl & _ & _ & _ & ->).
  exists spec1, spec2.
  pose proof Hid as Hid'.
  apply cfgIDMappings_Ok in Hid' as (l1 & u & gi & Hl1 & Hs2).
  apply cfgMounts_linux in Hm.
  apply cfgMaskedPaths_Ok in Hmask as (p3 & l3 & arg3 & _ & _ & Hl3 & ->).
  apply cfgReadonlyPaths_Ok in Hro as (p4 & l4 & arg4 & _ & _ & Hl4 & ->).
  apply cfgOomScoreAdj_Ok in Hoom as (HL & _).
  cbn [Spec_Linux setLinux setProcess] in *.
  rewrite HL in Hl. injection Hl as <-. injection Hl4 as <-.
  exists (setIDMappings l1 u gi). eexists.
  split; [done|]. split; [done|]. split; [by rewrite Hs2|].
  split; [reflexivity|].
  rewrite Hs2 in Hm. cbn [Spec_Linux setLinux] in Hm.
  destruct Hm as [Hm|(l0 & ro & Hl0 & Hm)].
  - rewrite Hl3 in Hm. injection Hm as ->. done.
  - rewrite Hl3 in Hm. injection Hm as ->. injection Hl0 as <-. done.
Qed.

(** The namespaces the stage adds. *)
Lemma cfgNamespaces_added h (l : Linux) :
  (∀ X, setIter h X ≡ₚ elements X) →
  let added := setIter h (list_to_set allNamespaces ∖ list_to_set (nsTypes l)) in
  NoDup added ∧ (∀ t, t ∈ added ↔ t ∈ allNamespaces ∧ t ∉ nsTypes l).
Proof.
  intros Hiter added. unfold added. split.
  - rewrite Hiter. apply NoDup_elements.
  - intros t. rewrite Hiter, elem_of_elements, elem_of_difference,
      !elem_of_list_to_set. done.
Qed.

(** X1. After a successful conversion the spec has a namespace entry of each
    of the seven types: the entries of the input come first, in their order,
    followed by one entry with an empty path for each type the input did not
    have (in the order the set of missing types is iterated), each passed
    through the manager's override of the user namespace. *)
Theorem ConvertSpec_completes_namespaces h mgr fs spec g a b spec' g' :
  (∀ X, setIter h X ≡ₚ elements X) →
  ConvertSpec h mgr fs spec g = Ok (a, b, spec', g') →
  ∃ l l' added,
    Spec_Linux spec = Some l ∧ Spec_Linux spec' = Some l' ∧
    requiredNamespaces ⊆ nsTypes l ∧
    Namespaces l' = map (usernsOverride mgr) (Namespaces l ++ map newNs added) ∧
    nsTypes l' = nsTypes l ++ added ∧
    NoDup added ∧
    (∀ t, t ∈ added ↔ t ∈ allNamespaces ∧ t ∉ nsTypes l) ∧
    (∀ t, t ∈ allNamespaces → t ∈ nsTypes l').
Proof.
  intros Hiter H.
  apply ConvertSpec_linux in H
    as (spec1 & spec2 & l2 & l' & Hns & Hid & Hl2 & Hl' & HN & _ & _).
  pose proof Hns as Hns'.
  apply cfgNamespaces_Ok in Hns' as (l & nss & Hl & _).
  rewrite (cfgNamespaces_eq _ _ _ _ Hl) in Hns.
  case_bool_decide as Hreq; [|done]. injection Hns as <-.
  apply cfgIDMappings_Ok in Hid as (l1 & u & gi & Hl1 & ->).
  cbn [Spec_Linux setLinux] in Hl1, Hl2. injection Hl1 as <-. injection Hl2 as <-.
  cbn [Namespaces setIDMappings setNamespaces] in HN.
  destruct (cfgNamespaces_added h l Hiter) as [Hnd Hadded].
  set (added := setIter h (list_to_set allNamespaces ∖ list_to_set (nsTypes l))) in *.
  assert (Htypes : nsTypes l' = nsTypes l ++ added).
  { unfold nsTypes. rewrite HN, map_map.
    erewrite map_ext; [|intros; apply usernsOverride_type].
    rewrite map_app, map_map. simpl. by rewrite map_id. }
  exists l, l', added. split_and!; try done.
  intros t Ht. rewrite Htypes. apply elem_of_app.
  destruct (decide (t ∈ nsTypes l)); [by left|right]. by apply Hadded.
Qed.

(** X2. A spec that passes the basic checks and lacks one of the five
    required namespaces is refused: the conversion returns the error of the
    namespace stage and converts nothing. *)
Theorem ConvertSpec_missing_namespace h mgr fs spec g l t :
  checkSpec h spec = Ok () →
  Spec_Linux spec = Some l →
  t ∈ requiredNamespaces → t ∉ nsTypes l →
  cfgNamespaces h mgr spec = Err (ErrStr "container spec missing namespaces") ∧
  ConvertSpec h mgr fs spec g =
    Err (ErrCause "invalid namespace config"
           (ErrStr "container spec missing namespaces")).
Proof.
  intros Hcheck Hl Ht Hnot.
  assert (Hns : cfgNamespaces h mgr spec
                = Err (ErrStr "container spec missing namespaces")).
  { rewrite (cfgNamespaces_eq _ _ _ _ Hl).
    case_bool_decide as Hreq; [|done]. exfalso. by apply Hnot, Hreq. }
  split; [done|]. unfold ConvertSpec. rewrite Hcheck. simpl. by rewrite Hns.
Qed.

(** X3. The user namespace override.  When the manager is enabled and
    configures a user namespace path, every entry of type [user] of the
    converted spec, present in the input or added, has that path, and every
    other entry has the path it had (empty for an added one).  Without an
    override, the entries of the input are kept as they are and the added
    ones have an empty path. *)
Theorem ConvertSpec_userns_override h mgr fs spec g a b spec' g' :
  ConvertSpec h mgr fs spec g = Ok (a, b, spec', g') →
  ∃ l l' added,
    Spec_Linux spec = Some l ∧ Spec_Linux spec' = Some l' ∧
    length (Namespaces l') = length (Namespaces l ++ map newNs added) ∧
    (Mgr_Enabled mgr = true → Mgr_Userns mgr ≠ "" →
       ∀ i ns, (Namespaces l ++ map newNs added) !! i = Some ns →
         Namespaces l' !! i =
           Some (if bool_decide (Namespace_Type ns = UserNamespace)
                 then {| Namespace_Type := UserNamespace;
                         Namespace_Path := Mgr_Userns mgr |}
                 else ns)) ∧
    (Mgr_Enabled mgr = false ∨ Mgr_Userns mgr = "" →
       Namespaces l' = Namespaces l ++ map newNs added).
Proof.
  intros H.
  apply ConvertSpec_linux in H
    as (spec1 & spec2 & l2 & l' & Hns & Hid & Hl2 & Hl' & HN & _ & _).
  pose proof Hns as Hns'.
  apply cfgNamespaces_Ok in Hns' as (l & nss & Hl & _).
  rewrite (cfgNamespaces_eq _ _ _ _ Hl) in Hns.
  remember (setIter h (list_to_set allNamespaces ∖ list_to_set (nsTypes l)))
    as added eqn:Hadd.
  case_bool_decide as Hreq; [|done]. injection Hns as <-.
  apply cfgIDMappings_Ok in Hid as (l1 & u & gi & Hl1 & ->).
  cbn [Spec_Linux setLinux] in Hl1, Hl2. injection Hl1 as <-. injection Hl2 as <-.
  cbn [Namespaces setIDMappings setNamespaces] in HN.
  exists l, l', added. split_and!; try done.
  - by rewrite HN, length_map.
  - intros Hen Hpath i ns Hi. rewrite HN.
    change (map (usernsOverride mgr) ?x) with (usernsOverride mgr <$> x).
    rewrite list_lookup_fmap, Hi. simpl. f_equal.
    unfold usernsOverride. rewrite Hen.
    rewrite (bool_decide_eq_false_2 _ Hpath). simpl.
    case_bool_decide as Ht; [|done]. by rewrite Ht.
  - intros Hno. rewrite HN. unfold usernsOverride.
    assert (Hc : Mgr_Enabled mgr && negb (bool_decide (Mgr_Userns mgr = "")) = false).
    { destruct Hno as [-> | ->]; [done|]. by rewrite andb_false_r. }
    rewrite Hc. simpl. by rewrite map_id.
Qed.

(** ** ID mappings, without the manager *)

Lemma mergeRanges_single (m : LinuxIDMapping) : mergeRanges [m] = [m].
Proof. done. Qed.

Lemma setLinux_same spec l : Spec_Linux spec = Some l → setLinux spec l = spec.
Proof. intros Hl. destruct spec as [r p li m]. simpl in Hl. by subst li. Qed.

Lemma setIDMappings_same l : setIDMappings l (UIDMappings l) (GIDMappings l) = l.
Proof. by destruct l. Qed.

Lemma cfgIDMappings_disabled mgr spec spec' :
  Mgr_Enabled mgr = false →
  cfgIDMappings mgr spec = Ok spec' →
  ∃ l l', Spec_Linux spec = Some l ∧ spec' = setLinux spec l' ∧
          l' = setIDMappings l (UIDMappings l') (GIDMappings l') ∧
          singleRange l' ∧
          (UIDMappings l = [] → GIDMappings l = [] →
             UIDMappings l' = [uidRange 0 defaultUid IdRangeMin] ∧
             GIDMappings l' = [uidRange 0 defaultGid IdRangeMin]).
Proof.
  intros Hmgr H. unfold cfgIDMappings in H. res_step H as l Hl.
  rewrite Hmgr in H. cbn [andb] in H.
  rewrite setIDMappings_same, (setLinux_same _ _ Hl) in H.
  exists l.
  destruct (bool_decide (length (UIDMappings l) = 0%nat)
            && bool_decide (length (GIDMappings l) = 0%nat)) eqn:Hb.
  - apply andb_true_iff in Hb as [Hu Hg].
    apply bool_decide_eq_true in Hu, Hg.
    apply length_zero_iff_nil in Hu, Hg.
    unfold allocIDMappings in H. rewrite Hmgr, Hl in H. simpl in H.
    injection H as <-. rewrite Hu, Hg. simpl.
    eexists. split; [done|]. split; [reflexivity|]. split; [reflexivity|].
    split; [|done].
    eexists _, _. split_and!; try reflexivity; done.
  - destruct (validateIDMappings_spec spec l Hl)
      as [(Hv & u & g & Hu & Hg & Hok)|(_ & e & He)]; [|congruence].
    rewrite Hok in H. injection H as <-.
    destruct Hv as (u' & g' & Hu' & Hg' & Hv).
    rewrite Hu in Hu'. injection Hu' as <-.
    rewrite Hg in Hg'. injection Hg' as <-.
    eexists. split; [done|]. split; [reflexivity|]. split; [reflexivity|].
    split.
    + exists u, g. done.
    + intros Hu0 Hg0. rewrite Hu0 in Hu. done.
Qed.

(** X4. Without the manager, a spec that has come out of the ID-mapping
    stage goes through it again unchanged: the stage is idempotent. *)
Theorem cfgIDMappings_idempotent mgr spec spec' :
  Mgr_Enabled mgr = false →
  cfgIDMappings mgr spec = Ok spec' →
  cfgIDMappings mgr spec' = Ok spec'.
Proof.
  intros Hmgr H.
  apply (cfgIDMappings_disabled _ _ _ Hmgr) in H
    as (l & l' & Hl & -> & Hl' & (u & g & Hu & Hg & Hv) & _).
  destruct (cfgIDMappings_cases mgr (setLinux spec l') l' eq_refl)
    as [(_ & u0 & g0 & Hu0 & Hg0 & Hok)|(Hnv & _)].
  - by left.
  - left. by rewrite Hu.
  - rewrite Hok. rewrite Hu, mergeRanges_single in Hu0. injection Hu0 as <-.
    rewrite Hg, mergeRanges_single in Hg0. injection Hg0 as <-.
    rewrite <- Hu, <- Hg, setIDMappings_same. done.
  - exfalso. apply Hnv. exists u, g. rewrite Hu, Hg. done.
Qed.

(** X5. Without the manager, the converted spec maps one range of uids and
    one range of gids, each from container id 0 with at least 65536 ids, both
    on the same host id, which is not 0.  When the input has no mapping at
    all, the two ranges are the default one: 65536 ids from host id 231072. *)
Theorem ConvertSpec_single_range h mgr fs spec g a b spec' g' :
  Mgr_Enabled mgr = false →
  ConvertSpec h mgr fs spec g = Ok (a, b, spec', g') →
  ∃ l l',
    Spec_Linux spec = Some l ∧ Spec_Linux spec' = Some l' ∧
    singleRange l' ∧
    (UIDMappings l = [] → GIDMappings l = [] →
       UIDMappings l' = [uidRange 0 231072 65536] ∧
       GIDMappings l' = [uidRange 0 231072 65536]).
Proof.
  intros Hmgr H.
  apply ConvertSpec_linux in H
    as (spec1 & spec2 & l2 & l' & Hns & Hid & Hl2 & Hl' & _ & HU & HG).
  apply cfgNamespaces_Ok in Hns as (l & nss & Hl & ->).
  apply (cfgIDMappings_disabled _ _ _ Hmgr) in Hid
    as (l1 & l2' & Hl1 & -> & _ & (u & gi & Hu & Hg & Hv) & Hdef).
  cbn [Spec_Linux setLinux] in Hl1, Hl2. injection Hl1 as <-. injection Hl2 as <-.
  exists l, l'. split_and!; try done.
  - exists u, gi. rewrite HU, HG. done.
  - intros Hu0 Hg0. rewrite HU, HG. by apply Hdef.
Qed.

(** X6. The ids the manager hands out are taken as they are.  For a spec
    with no mapping and a manager with no override, the stage asks the
    manager for 65536 ids and, whatever pair of host ids it answers (equal
    or not, 0 or not), maps container id 0 onto them; a failed request is
    returned as "subid allocation failed". *)
Theorem cfgIDMappings_manager_allocation mgr spec l :
  Mgr_Enabled mgr = true →
  Mgr_UidMappings mgr = [] → Mgr_GidMappings mgr = [] →
  Spec_Linux spec = Some l →
  UIDMappings l = [] → GIDMappings l = [] →
  (∀ uid gid, ReqSubid mgr 65536 = Ok (uid, gid) →
     cfgIDMappings mgr spec =
       Ok (setLinux spec (setIDMappings l [uidRange 0 uid 65536]
                                          [uidRange 0 gid 65536]))) ∧
  (∀ e, ReqSubid mgr 65536 = Err e →
     cfgIDMappings mgr spec = Err (ErrCause "subid allocation failed" e)).
Proof.
  intros Hmgr HMu HMg Hl Hu Hg.
  assert (Hcfg : cfgIDMappings mgr spec = allocIDMappings mgr spec).
  { unfold cfgIDMappings. rewrite Hl. simpl.
    rewrite HMu, HMg, Hmgr, Hu, Hg. simpl.
    rewrite <- Hu at 1. rewrite <- Hg at 1.
    by rewrite setIDMappings_same, (setLinux_same _ _ Hl). }
  rewrite Hcfg. unfold allocIDMappings. rewrite Hmgr, Hl. unfold IdRangeMin.
  split.
  - intros uid gid ->. simpl. by rewrite Hu, Hg.
  - by intros e ->.
Qed.

(** ** The process of the converted spec *)

Lemma cfgOomScoreAdj_eq spec spec' :
  cfgOomScoreAdj spec = Ok spec' →
  ∃ p, Spec_Process spec = Some p ∧
       Spec_Process spec' =
         Some (setOOMScoreAdj p (Z.max (-999) <$> OOMScoreAdj p)).
Proof.
  unfold cfgOomScoreAdj. intros H. res_step H as p Hp. exists p. split; [done|].
  destruct (OOMScoreAdj p) as [adj|] eqn:Ho.
  - case_bool_decide; injection H as <-; simpl.
    + do 3 f_equal. lia.
    + rewrite Hp. f_equal. destruct p; simpl in *. subst.
      unfold setOOMScoreAdj. simpl. do 2 f_equal. lia.
  - injection H as <-. rewrite Hp. f_equal. destruct p; simpl in *. by subst.
Qed.

Lemma ConvertProcessSpec_eq h p p' :
  ConvertProcessSpec h p = Ok p' →
  ∃ c arg0,
    Capabilities p = Some c ∧ Process_Args p !! 0%nat = Some arg0 ∧
    let noCaps : list string := [] in
    let caps := if bool_decide (UID (Process_User p) = 0) then linuxCaps else noCaps in
    let p1 := setApparmorProfile
                (setCapabilities p
                   {| Bounding := linuxCaps; Effective := caps;
                      Inheritable := caps; Permitted := caps; Ambient := caps |})
                "" in
    p' = if bool_decide (arg0 = "/sbin/init") then cfgSystemdEnv h p1 else p1.
Proof.
  unfold ConvertProcessSpec. intros H.
  res_step H as p1 Hp1. res_step H as p2 Hp2. res_step H as sd Hsd.
  injection H as <-. unfold cfgAppArmor in Hp2. injection Hp2 as <-.
  unfold cfgCapabilities in Hp1. res_step Hp1 as c Hc.
  rewrite systemdInit_spec in Hsd.
  destruct (Process_Args (setApparmorProfile p1 "")) as [|arg0 rest] eqn:Hargs;
    [done|].
  injection Hsd as <-. exists c, arg0. split; [done|].
  case_bool_decide; injection Hp1 as <-; simpl in Hargs; rewrite Hargs;
    split; done.
Qed.

(** The process of the converted spec is the process of the input after the
    clamp of the OOM score and the process conversion. *)
Lemma ConvertSpec_process h mgr fs spec g a b spec' g' :
  ConvertSpec h mgr fs spec g = Ok (a, b, spec', g') →
  ∃ p p',
    Spec_Process spec = Some p ∧ Spec_Process spec' = Some p' ∧
    ConvertProcessSpec h (setOOMScoreAdj p (Z.max (-999) <$> OOMScoreAdj p))
      = Ok p'.
Proof.
  intros H.
  apply ConvertSpec_Ok_inv in H
    as (spec1 & spec2 & spec3 & spec4 & spec5 & spec6 & l & seccomp & p & p'
        & _ & Hns & Hid & _ & Hm & Hmask & Hro & Hoom & Hl & _ & Hp & Hconv & ->).
  apply cfgNamespaces_Ok in Hns as (l0 & nss & _ & ->).
  apply cfgIDMappings_Ok in Hid as (l1 & u & gi & _ & ->).
  apply cfgMounts_Ok in Hm as (_ & HP & _).
  apply cfgMaskedPaths_Ok in Hmask as (p3 & l3 & arg3 & Hp3 & _ & _ & ->).
  apply cfgReadonlyPaths_Ok in Hro as (p4 & l4 & arg4 & _ & _ & _ & ->).
  apply cfgOomScoreAdj_eq in Hoom as (p5 & Hp5 & Hp6).
  cbn [Spec_Process setLinux setProcess] in *.
  rewrite Hp6 in Hp. injection Hp as <-.
  assert (p5 = p3) as -> by congruence.
  exists p3, p'. split_and!; [congruence|done|done].
Qed.

(** X7. The capabilities and the AppArmor profile of the converted process.
    The arguments and the user are those of the input; the AppArmor profile
    is empty; the bounding set is the full list of capabilities; an init
    process of uid 0 has the full list in the effective, inheritable,
    permitted and ambient sets too, any other init process has these four
    sets empty. *)
Theorem ConvertSpec_capabilities h mgr fs spec g a b spec' g' :
  ConvertSpec h mgr fs spec g = Ok (a, b, spec', g') →
  ∃ p p' c',
    Spec_Process spec = Some p ∧ Spec_Process spec' = Some p' ∧
    Process_Args p' = Process_Args p ∧ Process_User p' = Process_User p ∧
    ApparmorProfile p' = "" ∧
    Capabilities p' = Some c' ∧ Bounding c' = linuxCaps ∧
    (UID (Process_User p) = 0 →
       Effective c' = linuxCaps ∧ Inheritable c' = linuxCaps ∧
       Permitted c' = linuxCaps ∧ Ambient c' = linuxCaps) ∧
    (UID (Process_User p) ≠ 0 →
       Effective c' = [] ∧ Inheritable c' = [] ∧
       Permitted c' = [] ∧ Ambient c' = []).
Proof.
  intros H. apply ConvertSpec_process in H as (p & p' & Hp & Hp' & Hconv).
  apply ConvertProcessSpec_eq in Hconv as (c & arg0 & _ & _ & Heq).
  set (caps := if bool_decide (UID (Process_User p) = 0) then linuxCaps else []).
  exists p, p', {| Bounding := linuxCaps; Effective := caps; Inheritable := caps;
                   Permitted := caps; Ambient := caps |}.
  split; [done|]. split; [done|]. rewrite Heq.
  assert (Hc0 : UID (Process_User p) = 0 → caps = linuxCaps).
  { intros Huid. unfold caps. by rewrite bool_decide_eq_true_2. }
  assert (Hc1 : UID (Process_User p) ≠ 0 → caps = []).
  { intros Huid. unfold caps. by rewrite bool_decide_eq_false_2. }
  destruct (bool_decide (arg0 = "/sbin/init"));
    (split_and!; [reflexivity|reflexivity|reflexivity|reflexivity|reflexivity|
                  intros Huid; cbn [Effective Inheritable Permitted Ambient];
                  by rewrite (Hc0 Huid)|
                  intros Huid; cbn [Effective Inheritable Permitted Ambient];
                  by rewrite (Hc1 Huid)]).
Qed.

(** X8. The OOM score adjustment of the converted process is never below
    -999: a value below it is raised to -999, any other value and an absent
    value are kept. *)
Theorem ConvertSpec_oom_score h mgr fs spec g a b spec' g' :
  ConvertSpec h mgr fs spec g = Ok (a, b, spec', g') →
  ∃ p p',
    Spec_Process spec = Some p ∧ Spec_Process spec' = Some p' ∧
    OOMScoreAdj p' = Z.max (-999) <$> OOMScoreAdj p ∧
    (∀ adj, OOMScoreAdj p' = Some adj → -999 ≤ adj) ∧
    (OOMScoreAdj p' = None ↔ OOMScoreAdj p = None).
Proof.
  intros H. apply ConvertSpec_process in H as (p & p' & Hp & Hp' & Hconv).
  apply ConvertProcessSpec_eq in Hconv as (c & arg0 & _ & _ & Heq).
  exists p, p'. split; [done|]. split; [done|].
  assert (Ho : OOMScoreAdj p' = Z.max (-999) <$> OOMScoreAdj p).
  { rewrite Heq. by destruct (bool_decide (arg0 = "/sbin/init")). }
  split; [done|]. rewrite Ho. split.
  - intros adj Hadj. destruct (OOMScoreAdj p); simpl in Hadj; [|done].
    injection Hadj as <-. lia.
  - by destruct (OOMScoreAdj p).
Qed.

(** ** The environment of a systemd container *)

Lemma List_filter_idem {A} (f : A → bool) (l : list A) :
  List.filter f (List.filter f l) = List.filter f l.
Proof.
  induction l as [|x l IH]; simpl; [done|].
  destruct (f x) eqn:Hf; simpl; [|done]. by rewrite Hf, IH.
Qed.

Lemma cfgSystemdEnv_eq h p sname sval :
  GetEnvVarInfo h "container=private-users" = Ok (sname, sval) →
  cfgSystemdEnv h p =
    setEnv p (List.filter (λ v, negb (bool_decide (envName h v = Some sname)))
                (Env p) ++ ["container=private-users"]).
Proof.
  intros Hs. unfold cfgSystemdEnv, Utils.StringSliceRemoveMatch.
  do 2 f_equal. apply List.filter_ext. intros v. f_equal.
  unfold sysboxSystemdEnvVars. simpl.
  unfold envName at 2. rewrite Hs.
  destruct (envName h v) as [name|]; simpl.
  - rewrite orb_false_r. apply bool_decide_ext. naive_solver.
  - done.
Qed.

(** X9. The environment of the converted process.  When the first argument
    is [/sbin/init], every variable of the input whose name is the name of
    [container=private-users] is dropped, the others are kept in their
    order, and [container=private-users] is appended; otherwise the
    environment is the one of the input. *)
Theorem ConvertSpec_systemd_env h mgr fs spec g a b spec' g' sname sval :
  GetEnvVarInfo h "container=private-users" = Ok (sname, sval) →
  ConvertSpec h mgr fs spec g = Ok (a, b, spec', g') →
  ∃ p p' arg0,
    Spec_Process spec = Some p ∧ Spec_Process spec' = Some p' ∧
    Process_Args p !! 0%nat = Some arg0 ∧
    Env p' =
      if bool_decide (arg0 = "/sbin/init")
      then List.filter (λ v, negb (bool_decide (envName h v = Some sname))) (Env p)
           ++ ["container=private-users"]
      else Env p.
Proof.
  intros Hs H. apply ConvertSpec_process in H as (p & p' & Hp & Hp' & Hconv).
  apply ConvertProcessSpec_eq in Hconv as (c & arg0 & _ & Harg & Heq).
  exists p, p', arg0. split; [done|]. split; [done|]. split; [done|].
  rewrite Heq. destruct (bool_decide (arg0 = "/sbin/init")); [|done].
  by rewrite (cfgSystemdEnv_eq _ _ _ _ Hs).
Qed.

(** X10. Setting up the systemd environment twice is the same as setting it
    up once: the second run drops the variable the first one appended and
    appends it again. *)
Theorem cfgSystemdEnv_idempotent h p sname sval :
  GetEnvVarInfo h "container=private-users" = Ok (sname, sval) →
  cfgSystemdEnv h (cfgSystemdEnv h p) = cfgSystemdEnv h p.
Proof.
  intros Hs. rewrite !(cfgSystemdEnv_eq _ _ _ _ Hs).
  unfold setEnv. cbn [Process_Args Env Process_User Capabilities
                      ApparmorProfile OOMScoreAdj].
  f_equal. rewrite List.filter_app, List_filter_idem.
  assert (Hn : envName h "container=private-users" = Some sname).
  { unfold envName. by rewrite Hs. }
  cbn [List.filter]. rewrite Hn.
  rewrite bool_decide_eq_true_2 by done. simpl. by rewrite app_nil_r.
Qed.

(** ** Mounts: who wins a conflict *)

Lemma List_filter_sublist {A} (f : A → bool) (l : list A) :
  sublist (List.filter f l) l.
Proof.
  induction l as [|x l IH]; simpl; [done|].
  destruct (f x); by constructor.
Qed.

Lemma MountSliceRemove_elem (s db : list Mount) cmp (m : Mount) :
  m ∈ Utils.MountSliceRemove s db cmp
  ↔ m ∈ s ∧ ∀ m2, m2 ∈ db → cmp m m2 = false.
Proof.
  unfold Utils.MountSliceRemove.
  rewrite list_elem_of_In, filter_In, negb_true_iff, <- list_elem_of_In.
  split; intros [Hin Hc]; (split; [done|]).
  - intros m2 Hm2. destruct (cmp m m2) eqn:E; [|done].
    assert (Hex : existsb (λ m0, cmp m m0) db = true).
    { apply existsb_exists. exists m2. split; [by apply list_elem_of_In|done]. }
    congruence.
  - apply not_true_is_false. intros Hex.
    apply existsb_exists in Hex as (m2 & Hm2 & E).
    apply list_elem_of_In in Hm2. rewrite (Hc m2 Hm2) in E. done.
Qed.

Lemma MountSliceRemove_sublist (s db : list Mount) cmp :
  sublist (Utils.MountSliceRemove s db cmp) s.
Proof. apply List_filter_sublist. Qed.

Lemma elem_of_destinations (d : string) (l : list Mount) :
  d ∈ destinations l ↔ ∃ m, m ∈ l ∧ Destination m = d.
Proof.
  unfold destinations.
  change (map Destination l) with (Destination <$> l).
  rewrite list_elem_of_fmap. naive_solver.
Qed.

Lemma roSysMounts_destinations l : destinations (roSysMounts l) = destinations l.
Proof.
  unfold destinations, roSysMounts. rewrite map_map. apply map_ext.
  intros m. by destruct (Utils.HasPrefix _ _).
Qed.

(** X11. The sysbox-required mounts win over the mounts of the spec.  The
    stage keeps, in their order, the mounts of the spec whose destination
    neither lies under [/sys/fs/cgroup/] nor is the destination of a
    sysbox-required mount, and appends the sysbox-required mounts: no mount
    that is kept shares its destination with an appended one. *)
Theorem cfgSysboxMounts_replaces_conflicts spec g spec' g' :
  cfgSysboxMounts spec g = Ok (spec', g') →
  ∃ kept,
    Mounts spec' = kept ++ sysboxMounts g' ∧
    sublist kept (Mounts spec) ∧
    (∀ m, m ∈ kept ↔
          m ∈ Mounts spec ∧
          Utils.HasPrefix (Destination m) "/sys/fs/cgroup/" = false ∧
          Destination m ∉ destinations (sysboxMounts g)) ∧
    destinations (sysboxMounts g') = destinations (sysboxMounts g) ∧
    (∀ m, m ∈ kept → Destination m ∉ destinations (sysboxMounts g')).
Proof.
  intros H. pose proof H as H'.
  apply cfgSysboxMounts_Ok in H' as (_ & _ & root & kept0 & Hroot & _ & Hsys).
  unfold cfgSysboxMounts in H. rewrite Hroot in H. simpl in H.
  injection H as <- Hg.
  assert (Hd : destinations (sysboxMounts g') = destinations (sysboxMounts g)).
  { rewrite Hsys. destruct (Readonly root); [|done]. apply roSysMounts_destinations. }
  eexists. split; [simpl; by rewrite Hg|].
  assert (Hkept : ∀ m,
    m ∈ Utils.MountSliceRemove
          (Utils.MountSliceRemove (Mounts spec) [mkMount "/sys/fs/cgroup/" "" "" []]
             (λ m1 m2, Utils.HasPrefix (Destination m1) (Destination m2)))
          (sysboxMounts g)
          (λ m1 m2, bool_decide (Destination m1 = Destination m2))
    ↔ m ∈ Mounts spec ∧
      Utils.HasPrefix (Destination m) "/sys/fs/cgroup/" = false ∧
      Destination m ∉ destinations (sysboxMounts g)).
  { intros m. rewrite !MountSliceRemove_elem, elem_of_destinations. split.
    - intros [[Hin Hcg] Hsysb]. split_and!; [done| |].
      + apply (Hcg (mkMount "/sys/fs/cgroup/" "" "" [])). set_solver.
      + intros (m2 & Hm2 & Heq). specialize (Hsysb m2 Hm2).
        apply bool_decide_eq_false in Hsysb. congruence.
    - intros (Hin & Hcg & Hsysb). split; [split; [done|]|].
      + intros m2 Hm2. apply list_elem_of_singleton in Hm2 as ->. done.
      + intros m2 Hm2. apply bool_decide_eq_false. intros Heq.
        apply Hsysb. by exists m2. }
  split_and!.
  - etrans; apply MountSliceRemove_sublist.
  - exact Hkept.
  - done.
  - intros m Hm. rewrite Hd. by apply Hkept in Hm as (_ & _ & ?).
Qed.

Lemma cfgSystemdMounts_kept spec g (m : Mount) :
  m ∈ Utils.MountSliceRemove (Mounts spec) (sysboxSystemdMounts g)
        (λ m1 m2, bool_decide (Destination m1 = Destination m2)
                  && negb (bool_decide (Mount_Type m1 = "tmpfs")))
  ↔ m ∈ Mounts spec ∧
    (Mount_Type m = "tmpfs" ∨
     Destination m ∉ destinations (sysboxSystemdMounts g)).
Proof.
  rewrite MountSliceRemove_elem, elem_of_destinations. split.
  - intros [Hin Hc]. split; [done|].
    destruct (decide (Mount_Type m = "tmpfs")) as [?|Hnt]; [by left|right].
    intros (m2 & Hm2 & Heq). specialize (Hc m2 Hm2).
    rewrite (bool_decide_eq_true_2 _ (eq_sym Heq)) in Hc.
    rewrite (bool_decide_eq_false_2 _ Hnt) in Hc. done.
  - intros [Hin Hc]. split; [done|]. intros m2 Hm2.
    destruct Hc as [Ht|Hd].
    + rewrite (bool_decide_eq_true_2 _ Ht). by rewrite andb_false_r.
    + rewrite bool_decide_eq_false_2; [done|].
      intros Heq. apply Hd. by exists m2.
Qed.

(** X12. On the systemd directories a tmpfs mount of the spec wins, any
    other mount of the spec loses.  The stage keeps the mounts of the spec
    that are tmpfs mounts or whose destination is not one of the table of
    systemd mounts, and appends the mounts of the table whose destination no
    tmpfs mount of the spec has; it leaves the table reduced to the mounts
    it appended, so the table can only shrink. *)
Theorem cfgSystemdMounts_priority spec g :
  ∃ kept,
    Mounts (cfgSystemdMounts spec g).1
      = kept ++ sysboxSystemdMounts (cfgSystemdMounts spec g).2 ∧
    sublist kept (Mounts spec) ∧
    sublist (sysboxSystemdMounts (cfgSystemdMounts spec g).2)
            (sysboxSystemdMounts g) ∧
    (∀ m, m ∈ kept ↔
          m ∈ Mounts spec ∧
          (Mount_Type m = "tmpfs" ∨
           Destination m ∉ destinations (sysboxSystemdMounts g))) ∧
    (∀ t, t ∈ sysboxSystemdMounts (cfgSystemdMounts spec g).2 ↔
          t ∈ sysboxSystemdMounts g ∧
          ∀ m, m ∈ Mounts spec → Mount_Type m = "tmpfs" →
               Destination m ≠ Destination t).
Proof.
  unfold cfgSystemdMounts. cbn [fst snd Mounts setMounts sysboxSystemdMounts
                                setSysboxSystemdMounts].
  eexists. split; [reflexivity|].
  pose proof (cfgSystemdMounts_kept spec g) as Hkept.
  split_and!.
  - apply MountSliceRemove_sublist.
  - apply MountSliceRemove_sublist.
  - exact Hkept.
  - intros t. rewrite MountSliceRemove_elem. split.
    + intros [Hin Hc]. split; [done|]. intros m Hm Ht Heq.
      assert (Hk : m ∈ Utils.MountSliceRemove (Mounts spec) (sysboxSystemdMounts g)
          (λ m1 m2, bool_decide (Destination m1 = Destination m2)
                    && negb (bool_decide (Mount_Type m1 = "tmpfs")))).
      { apply Hkept. split; [done|by left]. }
      specialize (Hc m Hk).
      rewrite (bool_decide_eq_true_2 _ (eq_sym Heq)) in Hc.
      rewrite (bool_decide_eq_true_2 _ Ht) in Hc. done.
    + intros [Hin Hc]. split; [done|]. intros m2 Hm2.
      apply Hkept in Hm2 as [Hm2 _].
      destruct (decide (Mount_Type m2 = "tmpfs")) as [Ht|Hnt].
      * rewrite bool_decide_eq_false_2; [done|].
        intros Heq. by apply (Hc m2 Hm2 Ht).
      * rewrite (bool_decide_eq_false_2 _ Hnt). by rewrite andb_false_r.
Qed.

(** ** Mounts: the manager's mounts *)

(** The special directories left to the manager after the loop over the
    mounts of the spec. *)
Lemma specialDir_fold (ms : list Mount) (pl pl' : list MountPrepInfo)
    (sd sd' : gmap string MntKind) :
  foldl (λ '(prepList, specialDir) m,
           if bool_decide (Mount_Type m = "bind")
              && bool_decide (is_Some (specialDir !! Destination m))
           then (prepList ++ [{| Prep_Source := Source m; Exclusive := true |}],
                 delete (Destination m) specialDir)
           else (prepList, specialDir))
        (pl, sd) ms = (pl', sd') →
  ∀ d k, sd' !! d = Some k ↔
         sd !! d = Some k ∧
         ¬ ∃ m, m ∈ ms ∧ Mount_Type m = "bind" ∧ Destination m = d.
Proof.
  revert pl sd. induction ms as [|m ms IH]; intros pl sd; simpl.
  - intros [= <- <-] d k. set_solver.
  - intros H d k.
    destruct (bool_decide (Mount_Type m = "bind")
              && bool_decide (is_Some (sd !! Destination m))) eqn:Hc.
    + apply andb_true_iff in Hc as [Hb Hs].
      apply bool_decide_eq_true in Hb, Hs.
      rewrite (IH _ _ H d k). split.
      * intros [Hd Hno]. apply lookup_delete_Some in Hd as [Hne Hd].
        split; [done|]. intros (m' & Hin & Hb' & Hd').
        apply elem_of_cons in Hin as [->|Hin]; [done|]. apply Hno. eauto.
      * intros [Hd Hno]. split.
        -- apply lookup_delete_Some. split; [|done]. intros <-.
           apply Hno. exists m. set_solver.
        -- intros (m' & Hin & Hb' & Hd'). apply Hno. exists m'. set_solver.
    + rewrite (IH _ _ H d k). split.
      * intros [Hd Hno]. split; [done|]. intros (m' & Hin & Hb' & Hd').
        apply elem_of_cons in Hin as [->|Hin]; [|apply Hno; eauto].
        rewrite (bool_decide_eq_true_2 _ Hb') in Hc. simpl in Hc.
        apply bool_decide_eq_false in Hc. apply Hc. rewrite Hd'. eauto.
      * intros [Hd Hno]. split; [done|].
        intros (m' & Hin & Hb' & Hd'). apply Hno. exists m'. set_solver.
Qed.

Lemma roAll_options (ms : list Mount) (m : Mount) :
  m ∈ map (λ m, setOptions m (Utils.StringSliceRemove (Options m) ["rw"] ++ ["ro"])) ms →
  "ro" ∈ Options m ∧ "rw" ∉ Options m.
Proof.
  intros Hin. apply list_elem_of_fmap in Hin as (m0 & -> & _). simpl.
  split; [set_solver|]. intros Hrw. apply elem_of_app in Hrw as [Hrw|Hrw].
  - apply StringSliceRemove_elem in Hrw as [_ Hrw]. set_solver.
  - set_solver.
Qed.

(** The manager stage, taken apart. *)
Lemma sysMgrSetupMounts_inv h mgr spec b spec' :
  sysMgrSetupMounts h mgr spec b = Ok spec' →
  ∃ l uidMap gidMap root rootPath prepList specialDir ms,
    Spec_Linux spec = Some l ∧
    UIDMappings l !! 0%nat = Some uidMap ∧ GIDMappings l !! 0%nat = Some gidMap ∧
    Spec_Root spec = Some root ∧ Abs h (Root_Path root) = Ok rootPath ∧
    (∀ d k, specialDir !! d = Some k ↔
            specialDirs !! d = Some k ∧
            ¬ ∃ m, m ∈ Mounts spec ∧ Mount_Type m = "bind" ∧ Destination m = d) ∧
    (prepList ≠ [] →
       PrepMounts mgr (HostID uidMap) (HostID gidMap) prepList = Ok ()) ∧
    ReqMounts mgr rootPath (HostID uidMap) (HostID gidMap) b
      (map (λ '(dest, kind), {| Kind := kind; Dest := dest |})
           (mapIter h specialDir)) = Ok ms ∧
    let mounts :=
      Utils.MountSliceRemove ms (Mounts spec)
        (λ m1 m2, bool_decide (Destination m1 = Destination m2)) in
    spec' = setMounts spec
              (Mounts spec ++
               if Readonly root
               then map (λ m, setOptions m
                           (Utils.StringSliceRemove (Options m) ["rw"] ++ ["ro"]))
                        mounts
               else mounts).
Proof.
  unfold sysMgrSetupMounts. intros H.
  res_step H as l Hl. res_step H as u Hu. res_step H as g Hg.
  destruct (foldl _ _ _) as [prepList specialDir] eqn:Hfold.
  res_step H as [] Hprep. res_step H as root Hroot.
  res_step H as rootPath Hpath. res_step H as ms Hms.
  injection H as <-.
  exists l, u, g, root, rootPath, prepList, specialDir, ms.
  split_and!; try done.
  - intros d k. rewrite (specialDir_fold _ _ _ _ _ Hfold d k).
    split; intros [? Hno]; (split; [done|]); intros (m & Hin & ?);
      apply Hno; exists m; (split; [|done]).
    + rewrite elem_of_reverse in *. done.
    + rewrite elem_of_reverse in *. done.
  - intros Hne. destruct prepList; [done|]. simpl in Hprep. done.
  - simpl. destruct (Readonly root); [|done]. by rewrite foldl_snoc_map.
Qed.

Lemma List_filter_decide {A} (f : A → bool) (P : A → Prop)
    `{!∀ x, Decision (P x)} (l : list A) :
  (∀ x, f x = true ↔ P x) → List.filter f l = filter P l.
Proof.
  intros Hf. induction l as [|x l IH]; [done|].
  cbn [List.filter]. rewrite IH, filter_cons.
  destruct (decide (P x)) as [Hp|Hp].
  - by rewrite (proj2 (Hf x) Hp).
  - destruct (f x) eqn:E; [|done]. by apply Hf in E.
Qed.

Lemma MountSliceRemove_filter (s db : list Mount) :
  Utils.MountSliceRemove s db
    (λ m1 m2, bool_decide (Destination m1 = Destination m2))
  = filter (λ m, Destination m ∉ destinations db) s.
Proof.
  unfold Utils.MountSliceRemove. apply List_filter_decide. intros m.
  rewrite negb_true_iff, <- not_true_iff_false, existsb_exists,
    elem_of_destinations.
  split.
  - intros Hno (m2 & Hin & Heq). apply Hno. exists m2.
    rewrite <- list_elem_of_In. split; [done|]. by apply bool_decide_eq_true.
  - intros Hno (m2 & Hin & Heq). apply Hno. exists m2.
    rewrite <- list_elem_of_In in Hin. split; [done|].
    by apply bool_decide_eq_true in Heq.
Qed.

Lemma StringSliceRemove_one (s : list string) (x : string) :
  Utils.StringSliceRemove s [x] = filter (λ o, o ≠ x) s.
Proof.
  unfold Utils.StringSliceRemove, Utils.StringSliceContains.
  apply List_filter_decide. intros o. simpl.
  rewrite orb_false_r, negb_true_iff. apply bool_decide_eq_false.
Qed.

(** X13. The mounts of the spec win over the manager's mounts.  The manager
    is asked once, with the absolute path of the rootfs and the host ids of
    the first uid and gid mappings.  The stage leaves the mounts of the spec
    in place and appends, in the manager's order, exactly the mounts of the
    reply whose destination no mount of the spec has: as they are on a
    read-write rootfs; on a read-only rootfs each of them with the same
    destination, source and type and with its options without [rw] and
    followed by [ro]. *)
Theorem sysMgrSetupMounts_spec_priority h mgr spec b spec' :
  sysMgrSetupMounts h mgr spec b = Ok spec' →
  ∃ root rootPath l uidMap gidMap reqList ms added,
    Spec_Root spec = Some root ∧ Abs h (Root_Path root) = Ok rootPath ∧
    Spec_Linux spec = Some l ∧
    UIDMappings l !! 0%nat = Some uidMap ∧ GIDMappings l !! 0%nat = Some gidMap ∧
    ReqMounts mgr rootPath (HostID uidMap) (HostID gidMap) b reqList = Ok ms ∧
    Mounts spec' = Mounts spec ++ added ∧
    let kept := filter (λ m, Destination m ∉ destinations (Mounts spec)) ms in
    (Readonly root = false → added = kept) ∧
    (Readonly root = true →
       Forall2 (λ m' m,
                  Destination m' = Destination m ∧ Source m' = Source m ∧
                  Mount_Type m' = Mount_Type m ∧
                  Options m' = filter (λ o, o ≠ "rw") (Options m) ++ ["ro"])
               added kept) ∧
    (∀ m, m ∈ added → Destination m ∉ destinations (Mounts spec)) ∧
    (Readonly root = true →
       ∀ m, m ∈ added → "ro" ∈ Options m ∧ "rw" ∉ Options m).
Proof.
  intros H.
  apply sysMgrSetupMounts_inv in H
    as (l & u & gi & root & rootPath & prepList & specialDir & ms
        & Hl & Hu & Hg & Hroot & Habs & _ & _ & Hreq & ->).
  rewrite MountSliceRemove_filter.
  exists root, rootPath, l, u, gi. eexists _, ms, _.
  do 7 (split; [first [done|exact Hreq|reflexivity]|]).
  cbv zeta. split_and!.
  - intros Hro. by rewrite Hro.
  - intros Hro. rewrite Hro.
    induction (filter (λ m, Destination m ∉ destinations (Mounts spec)) ms)
      as [|m k IH]; [constructor|].
    cbn [map]. constructor; [|exact IH].
    split_and!; try done. simpl. by rewrite StringSliceRemove_one.
  - intros m Hin.
    assert (Hk : ∀ m0,
              m0 ∈ filter (λ m, Destination m ∉ destinations (Mounts spec)) ms →
              Destination m0 ∉ destinations (Mounts spec)).
    { intros m0 Hm0. by apply list_elem_of_filter in Hm0 as [? _]. }
    destruct (Readonly root).
    + apply list_elem_of_fmap in Hin as (m0 & -> & Hin0). exact (Hk m0 Hin0).
    + by apply Hk.
  - intros Hro m Hin. rewrite Hro in Hin. by apply roAll_options in Hin.
Qed.

(** X14. The manager is asked to set up exactly the special directories
    the spec does not bind-mount itself: each of /var/lib/docker,
    /var/lib/kubelet, /var/lib/rancher/k3s and the containerd overlayfs
    snapshotter directory is in the request, with its kind, unless a mount of
    type bind of the spec has it as destination. *)
Theorem sysMgrSetupMounts_requests h mgr spec b spec' :
  (∀ X, mapIter h X ≡ₚ map_to_list X) →
  sysMgrSetupMounts h mgr spec b = Ok spec' →
  ∃ rootPath uid gid reqList ms,
    ReqMounts mgr rootPath uid gid b reqList = Ok ms ∧
    NoDup reqList ∧
    ∀ d k, {| Kind := k; Dest := d |} ∈ reqList ↔
           specialDirs !! d = Some k ∧
           ¬ ∃ m, m ∈ Mounts spec ∧ Mount_Type m = "bind" ∧ Destination m = d.
Proof.
  intros Hiter H.
  apply sysMgrSetupMounts_inv in H
    as (l & u & gi & root & rootPath & prepList & specialDir & ms
        & _ & _ & _ & _ & _ & Hsd & _ & Hreq & _).
  eexists _, _, _, _, ms. split; [exact Hreq|]. split.
  - change (map ?f ?x) with (f <$> x). apply NoDup_fmap_2.
    + intros [d1 k1] [d2 k2] [= -> ->]. done.
    + rewrite Hiter. apply NoDup_map_to_list.
  - intros d k. rewrite <- Hsd.
    change (map ?f ?x) with (f <$> x). rewrite list_elem_of_fmap. split.
    + intros ([d' k'] & Heq & Hin). injection Heq as -> ->.
      rewrite Hiter in Hin. by apply elem_of_map_to_list in Hin.
    + intros Hin. exists (d, k). split; [done|]. rewrite Hiter.
      by apply elem_of_map_to_list.
Qed.

(** ** Mounts: the stages of [cfgMounts] and the package tables *)

Lemma cfgMounts_stages h mgr fs spec g b spec' g' :
  cfgMounts h mgr fs spec g b = Ok (spec', g') →
  ∃ s1 g1 s2 g2 s3 p (sd : bool),
    cfgSysboxMounts spec g = Ok (s1, g1) ∧
    (if Fs_Enabled fs then cfgSysboxFsMounts h fs s1 g1 else Ok (s1, g1))
      = Ok (s2, g2) ∧
    (if Mgr_Enabled mgr then sysMgrSetupMounts h mgr s2 b else Ok s2) = Ok s3 ∧
    Spec_Process s3 = Some p ∧ systemdInit p = Ok sd ∧
    spec' = setMounts (if sd then cfgSystemdMounts s3 g2 else (s3, g2)).1
              (sortMounts h
                 (Mounts (if sd then cfgSystemdMounts s3 g2 else (s3, g2)).1)) ∧
    g' = (if sd then cfgSystemdMounts s3 g2 else (s3, g2)).2.
Proof.
  unfold cfgMounts. intros H.
  res_step H as [s1 g1] H1. res_step H as [s2 g2] H2. res_step H as s3 H3.
  res_step H as p Hp. res_step H as sd Hsd.
  exists s1, g1, s2, g2, s3, p, sd. split_and!; try done.
  - destruct sd; simpl in *; by injection H as <- <-.
  - destruct sd; simpl in *; by injection H as <- <-.
Qed.

Lemma cfgSysboxFsMounts_mounts h fs spec g spec' g' :
  cfgSysboxFsMounts h fs spec g = Ok (spec', g') →
  Mounts spec' =
    Utils.MountSliceRemove (Mounts spec) (sysboxFsMounts g)
      (λ m1 m2, bool_decide (Destination m1 = Destination m2))
    ++ sysboxFsMounts g' ∧
  SysboxFsDir g' = Mountpoint fs ∧
  sysboxSystemdMounts g' = sysboxSystemdMounts g ∧
  sysboxFsMounts g' =
    map (λ m, setSource m (Utils.Replace1 (Source m) (SysboxFsDir g)
                             (Join h (Mountpoint fs) (Id fs))))
        (sysboxFsMounts g).
Proof.
  unfold cfgSysboxFsMounts. intros H. res_step H as root Hroot.
  res_step H as spec1 Hspec1. injection H as <- <-.
  assert (HM : Mounts spec1 = Mounts spec).
  { destruct (Readonly root).
    - res_step Hspec1 as l Hl. by injection Hspec1 as <-.
    - by injection Hspec1 as <-. }
  done.
Qed.




(** X16. Every injected mount is in the converted spec.  When [sortMounts]
    only reorders, each mount of the three tables the conversion leaves is a
    mount of the converted spec, unless a later stage removed it as a
    conflict: a sysbox-required mount is there when its destination is not
    one of the virtualized mounts (virtualizer enabled) and it is a tmpfs or
    not on a systemd directory (systemd init); a virtualized mount
    (virtualizer enabled) under the second condition; a systemd mount
    (systemd init) always. *)
Theorem ConvertSpec_injects_tables h mgr fs spec g a b spec' g' :
  (∀ l, sortMounts h l ≡ₚ l) →
  ConvertSpec h mgr fs spec g = Ok (a, b, spec', g') →
  ∃ p arg0,
    Spec_Process spec = Some p ∧ Process_Args p !! 0%nat = Some arg0 ∧
    let systemdOk (m : Mount) :=
      arg0 = "/sbin/init" →
      Mount_Type m = "tmpfs" ∨
      Destination m ∉ destinations (sysboxSystemdMounts g) in
    (∀ m, m ∈ sysboxMounts g' →
          (Fs_Enabled fs = true →
             Destination m ∉ destinations (sysboxFsMounts g)) →
          systemdOk m → m ∈ Mounts spec') ∧
    (Fs_Enabled fs = true →
       ∀ m, m ∈ sysboxFsMounts g' → systemdOk m → m ∈ Mounts spec') ∧
    (arg0 = "/sbin/init" →
       ∀ m, m ∈ sysboxSystemdMounts g' → m ∈ Mounts spec').
Proof.
  intros Hsort H.
  apply ConvertSpec_Ok_inv in H
    as (spec1 & spec2 & spec3 & spec4 & spec5 & spec6 & l & seccomp & p & p'
        & _ & Hns & Hid & _ & Hm & Hmask & Hro & Hoom & _ & _ & _ & _ & ->).
  apply cfgNamespaces_Ok in Hns as (l0 & nss & _ & ->).
  apply cfgIDMappings_Ok in Hid as (l1 & u & gi & _ & ->).
  apply cfgMaskedPaths_Ok in Hmask as (p3 & l3 & arg3 & Hp3 & Harg3 & _ & ->).
  apply cfgReadonlyPaths_Ok in Hro as (p4 & l4 & arg4 & _ & _ & _ & ->).
  apply cfgOomScoreAdj_Ok in Hoom as (_ & _ & HM6 & _).
  cbn [Mounts setLinux setProcess] in *. rewrite HM6. clear HM6.
  pose proof (cfgMounts_Ok _ _ _ _ _ _ _ _ Hm) as (_ & HP & _).
  apply cfgMounts_stages in Hm
    as (s1 & g1 & s2 & g2 & s3 & q & sd & H1 & H2 & H3 & Hq & Hsd & -> & ->).
  cbn [Spec_Process setLinux setMounts] in HP, Hp3.
  exists p3, arg3. split; [congruence|]. split; [done|].
  (* the systemd test *)
  assert (q = p3) as ->.
  { destruct sd; simpl in Hp3; congruence. }
  rewrite systemdInit_spec in Hsd.
  destruct (Process_Args p3) as [|x rest] eqn:Hargs; [done|].
  injection Harg3 as <-. injection Hsd as <-.
  (* the tables after each stage *)
  pose proof (cfgSysboxMounts_Ok _ _ _ _ H1)
    as (_ & _ & r1 & kept1 & _ & HM1 & _).
  assert (HG1 : sysboxFsMounts g1 = sysboxFsMounts g
                ∧ sysboxSystemdMounts g1 = sysboxSystemdMounts g).
  { unfold cfgSysboxMounts in H1. res_step H1 as r Hr. injection H1 as _ <-.
    by destruct (Readonly r). }
  destruct HG1 as [HF1 HS1].
  assert (HG2 : sysboxMounts g2 = sysboxMounts g1
                ∧ sysboxSystemdMounts g2 = sysboxSystemdMounts g).
  { destruct (Fs_Enabled fs).
    - pose proof (cfgSysboxFsMounts_mounts _ _ _ _ _ _ H2) as (_ & _ & ? & _).
      apply cfgSysboxFsMounts_Ok in H2 as (_ & _ & ? & _). split; congruence.
    - injection H2 as _ <-. done. }
  destruct HG2 as [HB2 HS2].
  assert (HM2 : ∀ m, m ∈ Mounts s2 ↔
            (m ∈ Mounts s1 ∧
             (Fs_Enabled fs = true →
                Destination m ∉ destinations (sysboxFsMounts g)))
            ∨ (Fs_Enabled fs = true ∧ m ∈ sysboxFsMounts g2)).
  { intros m. destruct (Fs_Enabled fs).
    - apply cfgSysboxFsMounts_mounts in H2 as (-> & _).
      rewrite elem_of_app, MountSliceRemove_elem, HF1. split.
      + intros [[Hin Hc]|Hin]; [left|right; done]. split; [done|].
        intros _ (m2 & Hm2 & Heq)%elem_of_destinations.
        specialize (Hc m2 Hm2). apply bool_decide_eq_false in Hc. congruence.
      + intros [[Hin Hc]|[_ Hin]]; [left|right; done]. split; [done|].
        intros m2 Hm2. apply bool_decide_eq_false. intros Heq.
        apply (Hc eq_refl). apply elem_of_destinations. by exists m2.
    - injection H2 as <- <-. split; [intros ?; left; done|].
      intros [[? _]|[? _]]; done. }
  assert (HM3 : ∀ m, m ∈ Mounts s2 → m ∈ Mounts s3).
  { intros m Hin. destruct (Mgr_Enabled mgr).
    - apply sysMgrSetupMounts_inv in H3
        as (? & ? & ? & ? & ? & ? & ? & ? & _ & _ & _ & _ & _ & _ & _ & _ & ->).
      simpl. set_solver.
    - by injection H3 as <-. }
  set (fin := if bool_decide (x = "/sbin/init")
              then cfgSystemdMounts s3 g2 else (s3, g2)).
  assert (HM4 : ∀ m, m ∈ Mounts s3 →
            (x = "/sbin/init" →
               Mount_Type m = "tmpfs" ∨
               Destination m ∉ destinations (sysboxSystemdMounts g)) →
            m ∈ Mounts fin.1).
  { intros m Hin Hc. unfold fin. case_bool_decide as Hx; [|done].
    simpl. apply elem_of_app. left. apply cfgSystemdMounts_kept.
    split; [done|]. rewrite HS2. by apply Hc. }
  assert (HB4 : sysboxMounts fin.2 = sysboxMounts g1
                ∧ sysboxFsMounts fin.2 = sysboxFsMounts g2).
  { unfold fin. by case_bool_decide. }
  destruct HB4 as [HB4 HF4].
  cbn [Mounts setMounts]. fold fin.
  split_and!.
  - intros m Hin Hfs Hsdok. rewrite Hsort. apply HM4; [|done].
    apply HM3, HM2. left. split; [|done].
    rewrite HM1. apply elem_of_app. right. by rewrite <- HB4.
  - intros Hen m Hin Hsdok. rewrite Hsort. apply HM4; [|done].
    apply HM3, HM2. right. split; [done|]. by rewrite <- HF4.
  - intros Hx m Hin. rewrite Hsort. unfold fin in *.
    rewrite (bool_decide_eq_true_2 _ Hx) in *.
    simpl. apply elem_of_app. by right.
Qed.

(** ** Read-only rootfs: the virtualized mount on /proc/sys *)

(** With the filesystem virtualizer enabled and a [sortMounts] that only
    reorders, a mount of the table of virtualized mounts that the conversion
    leaves is a mount of the converted spec, unless the systemd stage
    removed it. *)
Lemma ConvertSpec_fs_mounts h mgr fs spec g a b spec' g' :
  (∀ l, sortMounts h l ≡ₚ l) →
  ConvertSpec h mgr fs spec g = Ok (a, b, spec', g') →
  Fs_Enabled fs = true →
  ∃ p arg0,
    Spec_Process spec = Some p ∧ Process_Args p !! 0%nat = Some arg0 ∧
    ∀ m, m ∈ sysboxFsMounts g' →
         (arg0 = "/sbin/init" →
            Mount_Type m = "tmpfs" ∨
            Destination m ∉ destinations (sysboxSystemdMounts g)) →
         m ∈ Mounts spec'.
Proof.
  intros Hsort H Hen.
  apply ConvertSpec_Ok_inv in H
    as (spec1 & spec2 & spec3 & spec4 & spec5 & spec6 & l & seccomp & p & p'
        & _ & Hns & Hid & _ & Hm & Hmask & Hro & Hoom & _ & _ & _ & _ & ->).
  apply cfgNamespaces_Ok in Hns as (l0 & nss & _ & ->).
  apply cfgIDMappings_Ok in Hid as (l1 & u & gi & _ & ->).
  apply cfgMaskedPaths_Ok in Hmask as (p3 & l3 & arg3 & Hp3 & Harg3 & _ & ->).
  apply cfgReadonlyPaths_Ok in Hro as (p4 & l4 & arg4 & _ & _ & _ & ->).
  apply cfgOomScoreAdj_Ok in Hoom as (_ & _ & HM6 & _).
  cbn [Mounts setLinux setProcess] in *. rewrite HM6. clear HM6.
  pose proof (cfgMounts_Ok _ _ _ _ _ _ _ _ Hm) as (_ & HP & _).
  apply cfgMounts_stages in Hm
    as (s1 & g1 & s2 & g2 & s3 & q & sd & H1 & H2 & H3 & Hq & Hsd & -> & ->).
  cbn [Spec_Process setLinux setMounts] in HP, Hp3.
  exists p3, arg3. split; [congruence|]. split; [done|].
  assert (q = p3) as ->.
  { destruct sd; simpl in Hp3; congruence. }
  rewrite systemdInit_spec in Hsd.
  destruct (Process_Args p3) as [|x rest] eqn:Hargs; [done|].
  injection Harg3 as <-. injection Hsd as <-.
  assert (HS1 : sysboxSystemdMounts g1 = sysboxSystemdMounts g).
  { unfold cfgSysboxMounts in H1. res_step H1 as r Hr. injection H1 as _ <-.
    by destruct (Readonly r). }
  rewrite Hen in H2.
  pose proof (cfgSysboxFsMounts_mounts _ _ _ _ _ _ H2) as (HM2 & _ & HS2 & _).
  assert (HM3 : ∀ m, m ∈ Mounts s2 → m ∈ Mounts s3).
  { intros m Hin. destruct (Mgr_Enabled mgr).
    - apply sysMgrSetupMounts_inv in H3
        as (? & ? & ? & ? & ? & ? & ? & ? & _ & _ & _ & _ & _ & _ & _ & _ & ->).
      simpl. set_solver.
    - by injection H3 as <-. }
  intros m Hin Hok. cbn [Mounts setMounts]. rewrite Hsort.
  assert (Hin3 : m ∈ Mounts s3).
  { apply HM3. rewrite HM2. apply elem_of_app. right.
    by destruct (bool_decide (x = "/sbin/init")). }
  case_bool_decide as Hx; [|done].
  simpl. apply elem_of_app. left. apply cfgSystemdMounts_kept.
  split; [done|]. rewrite HS2, HS1. by apply Hok.
Qed.

(** C2. On a read-only rootfs with the filesystem virtualizer enabled, the
    destination [/proc/sys] of the virtualized mounts does not reach
    [readonly_paths].  [cfgSysboxFsMounts] appends the destination of every
    virtualized mount to the read-only paths, so the spec that leaves the
    mount stage lists [/proc/sys]; [cfgReadonlyPaths], which [ConvertSpec]
    runs after the mount stage, then removes the sysbox rw paths [/proc] and
    [/proc/sys].  So when the table of virtualized mounts has a mount on
    [/proc/sys] (and [sortMounts] only reorders), the converted spec has a
    mount on [/proc/sys] with the options of that table entry, hence without
    [ro], and [/proc/sys] is not in its [readonly_paths]: nothing remounts
    it read-only.  The destinations of the other virtualized mounts, the
    ones that are not sysbox rw paths (nor, under [/sbin/init], systemd rw
    paths), are in [readonly_paths]. *)
Theorem ConvertSpec_readonly_loses_proc_sys
    h mgr fs spec g a b spec' g' root m :
  (∀ l, sortMounts h l ≡ₚ l) →
  ConvertSpec h mgr fs spec g = Ok (a, b, spec', g') →
  Spec_Root spec = Some root → Readonly root = true →
  Fs_Enabled fs = true →
  m ∈ sysboxFsMounts g → Destination m = "/proc/sys" →
  "/proc/sys" ∉ destinations (sysboxSystemdMounts g) →
  (∃ spec1 spec2 spec3 l3,
     cfgNamespaces h mgr spec = Ok spec1 ∧
     cfgIDMappings mgr spec1 = Ok spec2 ∧
     cfgMounts h mgr fs spec2 g b = Ok (spec3, g') ∧
     Spec_Linux spec3 = Some l3 ∧
     "/proc/sys" ∈ ReadonlyPaths l3) ∧
  ∃ m' l' p' arg0,
    m' ∈ Mounts spec' ∧ m' ∈ sysboxFsMounts g' ∧
    Destination m' = "/proc/sys" ∧ Options m' = Options m ∧
    Spec_Linux spec' = Some l' ∧
    "/proc/sys" ∉ ReadonlyPaths l' ∧
    Spec_Process spec' = Some p' ∧ Process_Args p' !! 0%nat = Some arg0 ∧
    ∀ m2, m2 ∈ sysboxFsMounts g →
          Destination m2 ∉ sysboxRwPaths →
          (arg0 = "/sbin/init" → Destination m2 ∉ sysboxSystemdRwPaths) →
          Destination m2 ∈ ReadonlyPaths l'.
Proof.
  intros Hsort H Hroot Hro Hen Hm Hd Hsd.
  pose proof (ConvertSpec_fs_mounts _ _ _ _ _ _ _ _ _ Hsort H Hen)
    as (p0 & a0 & Hp0 & Ha0 & Hmounts).
  apply ConvertSpec_Ok_inv in H
    as (spec1 & spec2 & spec3 & spec4 & spec5 & spec6 & l & seccomp & p & p'
        & _ & Hns & Hid & _ & Hmnt & Hmask & Hrop & Hoom & Hl & _ & Hp & Hconv & ->).
  pose proof Hns as Hns'. pose proof Hid as Hid'.
  apply cfgNamespaces_Ok in Hns' as (l0 & nss & _ & Hs1).
  apply cfgIDMappings_Ok in Hid' as (l1 & u & gi & _ & Hs2).
  pose proof (cfgMounts_Ok _ _ _ _ _ _ _ _ Hmnt)
    as (HR & HP & HD & HO & root' & Hroot' & _ & _ & Hfs).
  assert (root' = root) as ->.
  { rewrite Hs2, Hs1 in Hroot'. simpl in Hroot'. congruence. }
  destruct (Hfs Hro Hen) as (l2 & l3 & Hl2 & Hl3 & _ & Hpaths).
  assert (Hdest : ∀ m2, m2 ∈ sysboxFsMounts g → Destination m2 ∈ ReadonlyPaths l3).
  { intros m2 Hm2. rewrite Hpaths. apply elem_of_app. right.
    apply list_elem_of_fmap. eauto. }
  split.
  { exists spec1, spec2, spec3, l3. split_and!; try done.
    rewrite <- Hd. by apply Hdest. }
  (* the entry of the table the conversion leaves *)
  apply list_elem_of_lookup_1 in Hm as [i Hi].
  assert (Hm' : ∃ m', sysboxFsMounts g' !! i = Some m'
                      ∧ Destination m' = Destination m ∧ Options m' = Options m).
  { assert (HDi : (Destination <$> sysboxFsMounts g') !! i = Some (Destination m)).
    { change (Destination <$> sysboxFsMounts g')
        with (map Destination (sysboxFsMounts g')).
      rewrite HD. change (map Destination ?x) with (Destination <$> x).
      by rewrite list_lookup_fmap, Hi. }
    assert (HOi : (Options <$> sysboxFsMounts g') !! i = Some (Options m)).
    { change (Options <$> sysboxFsMounts g')
        with (map Options (sysboxFsMounts g')).
      rewrite HO. change (map Options ?x) with (Options <$> x).
      by rewrite list_lookup_fmap, Hi. }
    rewrite list_lookup_fmap in HDi. rewrite list_lookup_fmap in HOi.
    destruct (sysboxFsMounts g' !! i) as [m'|]; [|done].
    injection HDi as HDi. injection HOi as HOi. by exists m'. }
  destruct Hm' as (m' & Hi' & Hd' & Ho').
  apply list_elem_of_lookup_2 in Hi'.
  (* the paths of the converted spec *)
  apply cfgMaskedPaths_Ok in Hmask as (p3 & l3' & arg3 & Hp3 & Harg3 & Hl3' & ->).
  assert (l3' = l3) as -> by congruence.
  apply cfgReadonlyPaths_Ok in Hrop as (p4 & l4 & arg4 & Hp4 & Harg4 & Hl4 & ->).
  apply cfgOomScoreAdj_Ok in Hoom as (HL & _ & _ & p5 & p6 & Hp5 & Hp6 & Hargs).
  apply ConvertProcessSpec_Ok in Hconv.
  cbn [Spec_Linux Spec_Process setLinux setProcess] in *.
  assert (p4 = p3) as -> by congruence.
  assert (p5 = p3) as -> by congruence.
  assert (p6 = p) as -> by congruence.
  assert (arg4 = arg3) as -> by congruence.
  injection Hl4 as <-. rewrite HL in Hl. injection Hl as <-.
  assert (p0 = p3) as ->.
  { rewrite Hs2, Hs1 in HP. simpl in HP. congruence. }
  assert (a0 = arg3) as -> by congruence.
  exists m'. eexists _, p', arg3.
  split_and!; [|done|congruence|done|reflexivity| |reflexivity| |].
  - apply Hmounts; [done|]. intros _. right. by rewrite Hd', Hd.
  - cbn [ReadonlyPaths setSeccomp setReadonlyPaths setMaskedPaths].
    intros Hin. apply StringSliceRemove_elem in Hin as [_ Hin].
    apply Hin. unfold sysboxRwPaths. set_solver.
  - by rewrite Hconv, Hargs.
  - intros m2 Hm2 Hrw Hsys.
    cbn [ReadonlyPaths setSeccomp setReadonlyPaths setMaskedPaths].
    apply StringSliceRemove_elem. split; [|done].
    case_bool_decide; [|by apply Hdest].
    apply StringSliceRemove_elem. split; [by apply Hdest|]. by apply Hsys.
Qed.

(** ** The sources of the virtualized mounts *)

Lemma Replace1_unfold (s old new : string) :
  Utils.Replace1 s old new =
    if String.prefix old s
    then new +:+ String.substring (String.length old)
                   (String.length s - String.length old) s
    else match s with
         | EmptyString => EmptyString
         | String c s' => String c (Utils.Replace1 s' old new)
         end.
Proof. by destruct s. Qed.

Lemma append_assoc (s1 s2 s3 : string) :
  (s1 +:+ s2) +:+ s3 = s1 +:+ (s2 +:+ s3).
Proof.
  induction s1 as [|c s1 IH]; [done|].
  change (String c ((s1 +:+ s2) +:+ s3) = String c (s1 +:+ (s2 +:+ s3))).
  by rewrite IH.
Qed.

Lemma prefix_app (old rest : string) : String.prefix old (old +:+ rest) = true.
Proof.
  induction old as [|c old IH]. { by destruct rest. }
  change (String.prefix (String c old) (String c (old +:+ rest)) = true).
  simpl. destruct (Ascii.ascii_dec c c); [done|congruence].
Qed.

Lemma substring_all (s : string) : String.substring 0 (String.length s) s = s.
Proof. induction s as [|c s IH]; simpl; [done|]. by rewrite IH. Qed.

Lemma substring_app (old rest : string) :
  String.substring (String.length old)
    (String.length (old +:+ rest) - String.length old) (old +:+ rest) = rest.
Proof.
  induction old as [|c old IH].
  - change (EmptyString +:+ rest) with rest. simpl. rewrite Nat.sub_0_r.
    apply substring_all.
  - change (String c old +:+ rest) with (String c (old +:+ rest)). simpl.
    exact IH.
Qed.

(** [strings.Replace(s, old, new, 1)] on a string that starts with [old]. *)
Lemma Replace1_prefix (old rest new : string) :
  Utils.Replace1 (old +:+ rest) old new = new +:+ rest.
Proof.
  rewrite Replace1_unfold, prefix_app. by rewrite substring_app.
Qed.

(** X17. The sources of the virtualized mounts are moved under the
    container's directory of the virtualizer's mountpoint: a table entry
    whose source starts with the directory recorded in [SysboxFsDir] gets
    the source [Join(mountpoint, id)] followed by the rest of its path, and
    keeps its destination, type and options; [SysboxFsDir] becomes the
    mountpoint. *)
Theorem cfgSysboxFsMounts_sources h fs spec g spec' g' :
  cfgSysboxFsMounts h fs spec g = Ok (spec', g') →
  SysboxFsDir g' = Mountpoint fs ∧
  length (sysboxFsMounts g') = length (sysboxFsMounts g) ∧
  ∀ i m rest,
    sysboxFsMounts g !! i = Some m →
    Source m = SysboxFsDir g +:+ rest →
    sysboxFsMounts g' !! i =
      Some (setSource m (Join h (Mountpoint fs) (Id fs) +:+ rest)).
Proof.
  intros H. apply cfgSysboxFsMounts_mounts in H as (_ & Hdir & _ & Hfs).
  split; [done|]. rewrite Hfs. split; [by rewrite length_map|].
  intros i m rest Hi Hsrc.
  change (map ?f ?x) with (f <$> x). rewrite list_lookup_fmap, Hi. simpl.
  by rewrite Hsrc, Replace1_prefix.
Qed.

(** X18. A second conversion in the same process nests the directories.
    After a first conversion for container [id1], the recorded directory is
    the bare mountpoint while the sources already contain [id1]; a second
    conversion, for container [id2], therefore gives a table entry the
    source [Join(mountpoint2, id2)/id1/rest] instead of
    [Join(mountpoint2, id2)/rest]. *)
Theorem cfgSysboxFsMounts_second_conversion h fs1 fs2 spec1 spec2 g s1 g1 s2 g2 :
  Join h (Mountpoint fs1) (Id fs1) = Mountpoint fs1 +:+ "/" +:+ Id fs1 →
  cfgSysboxFsMounts h fs1 spec1 g = Ok (s1, g1) →
  cfgSysboxFsMounts h fs2 spec2 g1 = Ok (s2, g2) →
  ∀ i m rest,
    sysboxFsMounts g !! i = Some m →
    Source m = SysboxFsDir g +:+ rest →
    sysboxFsMounts g2 !! i =
      Some (setSource m
              (Join h (Mountpoint fs2) (Id fs2) +:+ "/" +:+ Id fs1 +:+ rest)).
Proof.
  intros Hjoin H1 H2 i m rest Hi Hsrc.
  apply cfgSysboxFsMounts_mounts in H1 as (_ & Hdir1 & _ & Hfs1).
  apply cfgSysboxFsMounts_mounts in H2 as (_ & _ & _ & Hfs2).
  rewrite Hfs2, Hfs1, Hdir1, map_map.
  change (map ?f ?x) with (f <$> x). rewrite list_lookup_fmap, Hi. simpl.
  rewrite Hsrc, Replace1_prefix, Hjoin.
  unfold setSource. simpl. do 2 f_equal.
  rewrite !append_assoc. rewrite Replace1_prefix.
  by rewrite ?append_assoc.
Qed.

(** ** The basic checks *)

Lemma checkNetns_no_path h (nss : list LinuxNamespace) :
  (∀ ns, ns ∈ nss → Namespace_Type ns = NetworkNamespace → Namespace_Path ns = "") →
  checkNetns h nss = Ok ().
Proof.
  induction nss as [|ns nss IH]; intros Hall; simpl; [done|].
  destruct (bool_decide (Namespace_Type ns = NetworkNamespace)) eqn:Ht; simpl.
  - apply bool_decide_eq_true in Ht.
    assert (Hp : Namespace_Path ns = "") by (apply Hall; [set_solver|done]).
    rewrite (bool_decide_eq_true_2 _ Hp). simpl.
    apply IH. intros. apply Hall; set_solver.
  - apply IH. intros. apply Hall; set_solver.
Qed.

(** X19. The basic checks at their edges.  A spec without a root or without
    a linux section is refused as "not a linux container spec", and the
    conversion returns that error; a spec with both whose network namespace
    entries all have an empty path (new namespaces) passes the checks
    whatever the host answers to [stat]. *)
Theorem checkSpec_edges h mgr fs spec g :
  (Spec_Root spec = None ∨ Spec_Linux spec = None →
     checkSpec h spec = Err (ErrStr "not a linux container spec") ∧
     ConvertSpec h mgr fs spec g =
       Err (ErrCause "invalid or unsupported container spec"
              (ErrStr "not a linux container spec"))) ∧
  (∀ root l,
     Spec_Root spec = Some root → Spec_Linux spec = Some l →
     (∀ ns, ns ∈ Namespaces l → Namespace_Type ns = NetworkNamespace →
            Namespace_Path ns = "") →
     checkSpec h spec = Ok ()).
Proof.
  split.
  - intros Hnil.
    assert (Hc : checkSpec h spec = Err (ErrStr "not a linux container spec")).
    { unfold checkSpec. destruct Hnil as [-> | ->]; [done|].
      by destruct (Spec_Root spec). }
    split; [done|]. unfold ConvertSpec. by rewrite Hc.
  - intros root l Hroot Hl Hall. unfold checkSpec. rewrite Hroot, Hl.
    by apply checkNetns_no_path.
Qed.

(** X20. The first network namespace entry with a path decides alone, and a
    failed [stat] is an error: when the runtime's own namespace cannot be
    stat-ed the check fails with that error, and when the entry's path
    cannot be stat-ed it fails with that one; entries after the first one
    with a path are not looked at. *)
Theorem checkSpec_stat_errors h spec root l pre ns post :
  Spec_Root spec = Some root →
  Spec_Linux spec = Some l →
  Namespaces l = pre ++ ns :: post →
  (∀ n, n ∈ pre →
     ¬ (Namespace_Type n = NetworkNamespace ∧ Namespace_Path n ≠ "")) →
  Namespace_Type ns = NetworkNamespace →
  Namespace_Path ns ≠ "" →
  (∀ e, Stat h "/proc/self/ns/net" = Err e →
     checkSpec h spec =
       Err (ErrCause "unable to stat sysbox's network namespace" e)) ∧
  (∀ st1 e, Stat h "/proc/self/ns/net" = Ok st1 →
     Stat h (Namespace_Path ns) = Err e →
     checkSpec h spec = Err (ErrCause "unable to stat" e)) ∧
  (∀ post', checkNetns h (pre ++ ns :: post') = checkNetns h (pre ++ ns :: post)).
Proof.
  intros Hroot Hl Hns Hpre Htype Hpath.
  assert (Hc : ∀ post', checkNetns h (pre ++ ns :: post') = checkNetns h [ns]).
  { intros post'. by apply checkNetns_first. }
  split_and!; [| |intros post'; by rewrite !Hc];
    unfold checkSpec; rewrite Hroot, Hl, Hns, Hc; simpl;
    rewrite (bool_decide_eq_true_2 _ Htype), (bool_decide_eq_false_2 _ Hpath);
    simpl.
  - by intros e ->.
  - intros st1 e -> ->. reflexivity.
Qed.

(** ** Seccomp: the sets of names, and what is left untouched *)

Lemma categorizeName_sets act sets l n :
  let r := foldl (categorizeName act) sets l in
  (n ∈ r.1.2 ↔ n ∈ sets.1.2 ∨ (act = ActErrno ∧ n ∈ l)) ∧
  (n ∈ r.2 ↔ n ∈ sets.2 ∨ (act = ActKill ∧ n ∈ l)).
Proof.
  revert sets. induction l as [|x l IH]; intros [[a e] k]; simpl.
  - set_solver.
  - destruct (IH (categorizeName act (a, e, k) x)) as [IH1 IH2].
    rewrite IH1, IH2. unfold categorizeName, ActAllow, ActErrno, ActKill.
    repeat case_bool_decide; simpl; subst; try done; set_solver.
Qed.

Lemma categorize_sets_gen syscalls sets n :
  let r := foldl (λ sets sc, foldl (categorizeName (Action sc)) sets (names sc))
             sets syscalls in
  (n ∈ r.1.2 ↔ n ∈ sets.1.2 ∨ underAction ActErrno syscalls n) ∧
  (n ∈ r.2 ↔ n ∈ sets.2 ∨ underAction ActKill syscalls n).
Proof.
  revert sets. induction syscalls as [|sc l IH]; intros sets; simpl.
  - unfold underAction. set_solver.
  - destruct (IH (foldl (categorizeName (Action sc)) sets (names sc))) as [IH1 IH2].
    destruct (categorizeName_sets (Action sc) sets (names sc) n) as [C1 C2].
    simpl in C1, C2. rewrite IH1, IH2, C1, C2. unfold underAction.
    split; (split;
      [ intros [[?|[? ?]]|(sc' & ? & ? & ?)];
        [by left|right; exists sc; set_solver|right; exists sc'; set_solver]
      | intros [?|(sc' & Hin & ? & ?)]; [by left; left|];
        apply elem_of_cons in Hin as [->|?];
        [left; right; done|right; exists sc'; done] ]).
Qed.

(** The errno and kill sets of a profile. *)
Lemma categorize_denied syscalls n :
  (n ∈ (categorize syscalls).1.2 ↔ underAction ActErrno syscalls n) ∧
  (n ∈ (categorize syscalls).2 ↔ underAction ActKill syscalls n).
Proof.
  unfold categorize.
  destruct (categorize_sets_gen syscalls (∅, ∅, ∅) n) as [H1 H2].
  simpl in H1, H2. rewrite H1, H2. set_solver.
Qed.

(** One removal on a slice of length [len] over the array [arr]. *)
Lemma shiftDown_take (i len : nat) (arr : list string) :
  (i < len)%nat → (len ≤ length arr)%nat →
  take (len - 1) (shiftDown i arr len) = delete i (take len arr) ∧
  length (shiftDown i arr len) = length arr.
Proof.
  intros Hi Hlen. unfold shiftDown. split.
  - rewrite delete_take_drop, take_take, Nat.min_l by lia.
    rewrite app_assoc. apply take_app_length'.
    rewrite length_app, length_take, length_drop, length_take. lia.
  - rewrite !length_app, length_take, !length_drop, length_take. lia.
Qed.

Lemma filter_delete_out (D : gset string) (l : list string) (i : nat) (x : string) :
  l !! i = Some x → x ∈ D →
  filter (λ n, n ∉ D) (delete i l) = filter (λ n, n ∉ D) l.
Proof.
  intros Hi Hx. rewrite <- (take_drop_middle l i x Hi) at 2.
  rewrite delete_take_drop, !filter_app, filter_cons_False; [done|].
  intros Hn. by apply Hn.
Qed.

(** The removal loop, when it returns: the names it leaves are names of the
    slice, in their order, and among them are all the names outside the diff
    set. *)
Lemma removeLoop_keeps (D : gset string) (idx : list nat) (orig arr arr' : list string)
    (len len' : nat) :
  removeLoop D idx arr len = Ok (arr', len') →
  (len ≤ length arr)%nat →
  sublist (take len arr) orig →
  filter (λ n, n ∉ D) (take len arr) = filter (λ n, n ∉ D) orig →
  (len' ≤ length arr')%nat ∧
  sublist (take len' arr') orig ∧
  filter (λ n, n ∉ D) (take len' arr') = filter (λ n, n ∉ D) orig.
Proof.
  revert arr len. induction idx as [|i idx IH]; intros arr len H Hlen Hsub Hf.
  - simpl in H. injection H as <- <-. done.
  - simpl in H. destruct (arr !! i) as [x|] eqn:Hi; [|done].
    case_bool_decide as Hx.
    + case_bool_decide as Hb; [|done].
      destruct (shiftDown_take i len arr ltac:(lia) Hlen) as [Ht Hl].
      assert (Hix : take len arr !! i = Some x).
      { rewrite lookup_take_lt by lia. done. }
      apply IH in H; [done|lia| |].
      * rewrite Ht. etrans; [apply sublist_delete|done].
      * rewrite Ht, (filter_delete_out D _ i x Hix Hx). done.
    + by apply IH in H.
Qed.

Lemma removeNames_keeps (D : gset string) (sc sc' : LinuxSyscall) :
  removeNames D sc = Ok sc' →
  Action sc' = Action sc ∧ Syscall_Args sc' = Syscall_Args sc ∧
  (Names sc' = None ↔ Names sc = None) ∧
  sublist (names sc') (names sc) ∧
  filter (λ n, n ∉ D) (names sc') = filter (λ n, n ∉ D) (names sc).
Proof.
  unfold removeNames, names. intros H.
  destruct (Names sc) as [l|] eqn:Hn.
  - res_step H as [arr len] Hloop. injection H as <-. simpl.
    apply (removeLoop_keeps D _ l) in Hloop as (_ & Hsub & Hf).
    + split_and!; done.
    + done.
    + by rewrite firstn_all.
    + by rewrite firstn_all.
  - injection H as <-. rewrite Hn. done.
Qed.

Lemma removeDiffSet_keeps (D : gset string) (syscalls res : list LinuxSyscall) :
  removeDiffSet D syscalls = Ok res →
  (∀ sc', sc' ∈ res →
     ∃ sc, sc ∈ syscalls ∧ Action sc' = Action sc ∧
           Syscall_Args sc' = Syscall_Args sc ∧
           sublist (names sc') (names sc)) ∧
  (∀ sc n, sc ∈ syscalls → n ∈ names sc → n ∉ D →
     ∃ sc', sc' ∈ res ∧ Action sc' = Action sc ∧ n ∈ names sc') ∧
  sublist (Action <$> res) (Action <$> syscalls).
Proof.
  revert res. induction syscalls as [|sc rest IH]; intros res H; simpl in H.
  - injection H as <-. split_and!; [set_solver|set_solver|done].
  - res_step H as sc' Hsc. res_step H as rest' Hrest. injection H as <-.
    destruct (IH _ Hrest) as (IH1 & IH2 & IH3).
    apply removeNames_keeps in Hsc as (HA & HArgs & HN & Hsub & Hf).
    split_and!.
    + intros sc0 Hin.
      assert (Hin' : sc0 = sc' ∨ sc0 ∈ rest').
      { case_bool_decide; set_solver. }
      destruct Hin' as [->|Hin'].
      * exists sc. set_solver.
      * destruct (IH1 _ Hin') as (sc1 & ? & ?). exists sc1. set_solver.
    + intros sc0 n Hin Hn HnD.
      apply elem_of_cons in Hin as [->|Hin].
      * assert (Hn' : n ∈ names sc').
        { assert (Hnf : n ∈ filter (λ n, n ∉ D) (names sc)).
          { by apply list_elem_of_filter. }
          rewrite <- Hf in Hnf. by apply list_elem_of_filter in Hnf as [_ ?]. }
        exists sc'. split_and!; [|done|done].
        rewrite bool_decide_eq_true_2; [set_solver|].
        intros Hnone. unfold names in Hn'. rewrite Hnone in Hn'. simpl in Hn'.
        by apply elem_of_nil in Hn'.
      * destruct (IH2 _ _ Hin Hn HnD) as (sc1 & ? & ?). exists sc1.
        case_bool_decide; set_solver.
    + case_bool_decide; simpl; rewrite ?HA; by constructor.
Qed.

(** X21. In blacklist mode (an x86_64 profile with default action allow),
    when the conversion of the profile returns, it has only removed names,
    and only names of the diff set: every name of the resulting profile is
    a name of the same action in the input, and a name of the input is still
    there, under its action, when it is on the whitelist or listed under
    neither an errno nor a kill action anywhere in the profile.  No entry is
    added and the actions of the entries keep their order. *)
Theorem cfgSeccomp_blacklist_keeps_outside_diff
    (W R : list string) (iter : gset string → list string) (s s' : LinuxSeccomp) :
  ArchX86_64 ∈ Architectures s →
  DefaultAction s = ActAllow →
  cfgSeccomp W R iter (Some s) = Ok (Some s') →
  DefaultAction s' = ActAllow ∧ Architectures s' = Architectures s ∧
  sublist (Action <$> Syscalls s') (Action <$> Syscalls s) ∧
  (∀ act n, underAction act (Syscalls s') n → underAction act (Syscalls s) n) ∧
  (∀ act n, underAction act (Syscalls s) n →
     n ∈ W ∨ ¬ (underAction ActErrno (Syscalls s) n
                ∨ underAction ActKill (Syscalls s) n) →
     underAction act (Syscalls s') n).
Proof.
  intros Harch Hdef H. unfold cfgSeccomp in H.
  assert (Hs : foldl (λ b arch, if bool_decide (arch = ArchX86_64) then true else b)
                 false (Architectures s) = true)
    by (apply supportedArch_fold; by right).
  rewrite Hs, Hdef in H. simpl in H.
  pose proof (categorize_denied (Syscalls s)) as Hden.
  destruct (categorize (Syscalls s)) as [[aS eS] kS]. simpl in Hden.
  set (D := (eS ∪ kS) ∖ foldl (λ acc sc, {[sc]} ∪ acc) ∅ W) in *.
  res_step H as res Hres. injection H as <-.
  apply removeDiffSet_keeps in Hres as (H1 & H2 & H3).
  simpl. split_and!; try done.
  - intros act n (sc' & Hin & Hact & Hn).
    destruct (H1 _ Hin) as (sc & Hsc & HA & _ & Hsub).
    exists sc. split_and!; [done|congruence|].
    by apply (elem_of_sublist (names sc')).
  - intros act n (sc & Hin & Hact & Hn) Hout.
    assert (HnD : n ∉ D).
    { unfold D. rewrite elem_of_difference, foldl_union_singleton, elem_of_union.
      destruct (Hden n) as [He Hk]. rewrite He, Hk. set_solver. }
    destruct (H2 _ _ Hin Hn HnD) as (sc' & Hin' & HA & Hn').
    exists sc'. split_and!; [done|congruence|done].
Qed.

(** X22. Profiles the conversion does not touch, and the one it refuses.
    No profile gives no profile; a profile that does not list the x86_64
    architecture is returned as it is, whatever its default action; a
    profile for x86_64 whose default action is none of allow, errno and kill
    is refused. *)
Theorem cfgSeccomp_untouched_or_refused
    (W R : list string) (iter : gset string → list string) (s : LinuxSeccomp) :
  cfgSeccomp W R iter None = Ok None ∧
  (ArchX86_64 ∉ Architectures s → cfgSeccomp W R iter (Some s) = Ok (Some s)) ∧
  (ArchX86_64 ∈ Architectures s →
   DefaultAction s ≠ ActAllow → DefaultAction s ≠ ActErrno →
   DefaultAction s ≠ ActKill →
   cfgSeccomp W R iter (Some s) =
     Err (ErrStr "spec seccomp default actions other than allow, errno, and kill are not supported")).
Proof.
  split; [done|]. split.
  - intros Hno. unfold cfgSeccomp.
    assert (Hs : foldl (λ b arch, if bool_decide (arch = ArchX86_64) then true else b)
                   false (Architectures s) = false).
    { apply not_true_is_false. intros Ht.
      apply supportedArch_fold in Ht as [?|?]; done. }
    by rewrite Hs.
  - intros Harch Ha He Hk. unfold cfgSeccomp.
    assert (Hs : foldl (λ b arch, if bool_decide (arch = ArchX86_64) then true else b)
                   false (Architectures s) = true)
      by (apply supportedArch_fold; by right).
    rewrite Hs. simpl.
    rewrite (bool_decide_eq_true_2 _ Ha), (bool_decide_eq_true_2 _ He),
      (bool_decide_eq_true_2 _ Hk). done.
Qed.

(** ** The rootfs owner check *)

Lemma rootHostID_fold (ms : list LinuxIDMapping) :
  foldl (λ host mapping,
           if bool_decide (ContainerID mapping = 0) then HostID mapping else host)
        0 ms = rootHostID ms.
Proof.
  unfold rootHostID. induction ms as [|m ms IH] using rev_ind; [done|].
  rewrite foldl_app, filter_app. simpl. rewrite IH.
  case_bool_decide as Hc.
  - rewrite filter_cons_True by done. rewrite filter_nil, last_snoc. done.
  - rewrite filter_cons_False by done. rewrite filter_nil, app_nil_r. done.
Qed.

(** X29. When uid shifting on the rootfs is asked for.  With a rootfs whose
    owner can be read, [needUidShiftOnRootfs] answers yes exactly when the
    rootfs is owned by uid 0 and gid 0 and container id 0 is mapped, for
    uids and for gids, to one and the same host id that is not 0; the host
    id of container id 0 is the one of the last mapping for it, and 0 when
    no mapping names container id 0 (then the answer is no).  For a spec
    that maps one valid range, the answer is yes exactly when the rootfs is
    owned by root.  A failed [stat] is returned as it is. *)
Theorem needUidShiftOnRootfs_decides statOwner spec l root :
  Spec_Linux spec = Some l → Spec_Root spec = Some root →
  (∀ uid gid, statOwner (Root_Path root) = Ok (Some (uid, gid)) →
     needUidShiftOnRootfs statOwner spec =
       Ok (bool_decide (uid = 0 ∧ gid = 0 ∧
                        rootHostID (UIDMappings l) = rootHostID (GIDMappings l) ∧
                        rootHostID (UIDMappings l) ≠ 0)) ∧
     (singleRange l →
        needUidShiftOnRootfs statOwner spec = Ok (bool_decide (uid = 0 ∧ gid = 0)))) ∧
  (∀ e, statOwner (Root_Path root) = Err e →
     needUidShiftOnRootfs statOwner spec = Err e) ∧
  (statOwner (Root_Path root) = Ok None →
     needUidShiftOnRootfs statOwner spec =
       Err (ErrStr "failed to convert to syscall.Stat_t")).
Proof.
  intros Hl Hroot. unfold needUidShiftOnRootfs. rewrite Hl, Hroot. simpl.
  rewrite !rootHostID_fold. split_and!.
  - intros uid gid ->. simpl.
    assert (Heq : bool_decide (uid = 0) && bool_decide (gid = 0)
                  && bool_decide (rootHostID (UIDMappings l) ≠ uid)
                  && bool_decide (rootHostID (GIDMappings l) ≠ gid)
                  && bool_decide (rootHostID (UIDMappings l)
                                  = rootHostID (GIDMappings l))
                  = bool_decide (uid = 0 ∧ gid = 0 ∧
                      rootHostID (UIDMappings l) = rootHostID (GIDMappings l) ∧
                      rootHostID (UIDMappings l) ≠ 0)).
    { repeat case_bool_decide; simpl; try done; exfalso; naive_solver congruence. }
    rewrite Heq. split; [done|].
    intros (u & g & Hu & Hg & Hcu & _ & Hcg & _ & Hh & Hnz).
    f_equal. apply bool_decide_ext.
    assert (Hru : rootHostID (UIDMappings l) = HostID u).
    { unfold rootHostID. rewrite Hu. by rewrite filter_cons_True. }
    assert (Hrg : rootHostID (GIDMappings l) = HostID g).
    { unfold rootHostID. rewrite Hg. by rewrite filter_cons_True. }
    rewrite Hru, Hrg. naive_solver.
  - by intros e ->.
  - by intros ->.
Qed.

(** ** The stdio pipes *)

Lemma chownAll_trace k uid gid fds tr :
  ∃ evs,
    (ProcessIO.chownAll k uid gid fds tr).2 = tr ++ evs ∧
    openedFds evs = [] ∧ noClose evs ∧
    ((ProcessIO.chownAll k uid gid fds tr).1 = None →
       evs = map (λ fd, ProcessIO.Fchown fd uid gid None) fds).
Proof.
  revert tr. induction fds as [|fd fds IH]; intros tr; simpl.
  - exists []. rewrite app_nil_r. split_and!; try done. intros fd Hin.
    by apply elem_of_nil in Hin.
  - destruct (ProcessIO.FchownErr k tr fd) as [e|] eqn:He; simpl.
    + exists [ProcessIO.Fchown fd uid gid (Some e)]. split_and!; try done.
      intros fd' Hin. apply list_elem_of_singleton in Hin. done.
    + destruct (IH (tr ++ [ProcessIO.Fchown fd uid gid None]))
        as (evs & Htr & Hop & Hnc & Hok).
      exists (ProcessIO.Fchown fd uid gid None :: evs). split_and!.
      * rewrite Htr. by rewrite <- app_assoc.
      * done.
      * intros fd' Hin. apply elem_of_cons in Hin as [?|Hin]; [done|].
        by apply (Hnc fd').
      * intros Hnone. by rewrite (Hok Hnone).
Qed.

Lemma noClose_app a b : noClose a → noClose b → noClose (a ++ b).
Proof.
  intros Ha Hb fd Hin. apply elem_of_app in Hin as [?|?]; [by apply (Ha fd)|by apply (Hb fd)].
Qed.

Lemma openedFds_app a b : openedFds (a ++ b) = openedFds a ++ openedFds b.
Proof. unfold openedFds. by rewrite flat_map_app. Qed.

(** X30. [InitializeIO] leaks no descriptor.  It never panics.  When it
    returns an error, the last thing it did was to close every descriptor of
    every pipe it had opened, in the order they were opened, and it had
    closed nothing before.  When it succeeds it has opened three pipes,
    given the six descriptors to the root uid and gid of the container, and
    closed nothing; the process holds the read end of the first pipe as
    stdin and the write ends of the second and third as stdout and stderr,
    and the caller gets the opposite ends. *)
Theorem InitializeIO_closes_on_error k p uid gid :
  match ProcessIO.InitializeIO k p uid gid with
  | (Panic, _, _) => False
  | (Err e, _, tr) =>
      ∃ before, tr = before ++ map ProcessIO.Close (openedFds before) ∧
                noClose before
  | (Ok io, p', tr) =>
      ∃ r1 w1 r2 w2 r3 w3,
        tr = [ProcessIO.PipeOk r1 w1; ProcessIO.PipeOk r2 w2;
              ProcessIO.PipeOk r3 w3]
             ++ map (λ fd, ProcessIO.Fchown fd uid gid None)
                    [r1; w1; r2; w2; r3; w3] ∧
        noClose tr ∧
        p' = {| ProcessIO.Stdin := Some r1; ProcessIO.Stdout := Some w2;
                ProcessIO.Stderr := Some w3 |} ∧
        io = {| ProcessIO.IO_Stdin := w1; ProcessIO.IO_Stdout := r2;
                ProcessIO.IO_Stderr := r3 |}
  end.
Proof.
  assert (Hnc : ∀ l, Forall (λ ev, ∀ fd, ev ≠ ProcessIO.Close fd) l → noClose l).
  { intros l Hl fd Hin. rewrite Forall_forall in Hl. by apply (Hl _ Hin fd). }
  unfold ProcessIO.InitializeIO.
  destruct (ProcessIO.Pipe k []) as [[r1 w1]|e] eqn:E1.
  2:{ cbv beta iota zeta. exists [ProcessIO.PipeErr e]. split; [done|].
      apply Hnc. by repeat constructor. }
  destruct (ProcessIO.Pipe k [ProcessIO.PipeOk r1 w1]) as [[r2 w2]|e] eqn:E2.
  2:{ cbv beta iota zeta.
      exists [ProcessIO.PipeOk r1 w1; ProcessIO.PipeErr e]. split; [done|].
      apply Hnc. by repeat constructor. }
  destruct (ProcessIO.Pipe k ([ProcessIO.PipeOk r1 w1] ++ [ProcessIO.PipeOk r2 w2]))
    as [[r3 w3]|e] eqn:E3.
  2:{ cbv beta iota zeta.
      exists [ProcessIO.PipeOk r1 w1; ProcessIO.PipeOk r2 w2; ProcessIO.PipeErr e].
      split; [done|]. apply Hnc. by repeat constructor. }
  cbv beta iota zeta.
  destruct (chownAll_trace k uid gid ((([] ++ [r1; w1]) ++ [r2; w2]) ++ [r3; w3])
              (([ProcessIO.PipeOk r1 w1] ++ [ProcessIO.PipeOk r2 w2])
               ++ [ProcessIO.PipeOk r3 w3]))
    as (evs & Htr & Hop & Hncl & Hok).
  destruct (ProcessIO.chownAll k uid gid
              ((([] ++ [r1; w1]) ++ [r2; w2]) ++ [r3; w3])
              (([ProcessIO.PipeOk r1 w1] ++ [ProcessIO.PipeOk r2 w2])
               ++ [ProcessIO.PipeOk r3 w3])) as [[e|] tr'] eqn:Hch;
    simpl in Htr, Hok; subst tr'.
  - exists ([ProcessIO.PipeOk r1 w1; ProcessIO.PipeOk r2 w2;
             ProcessIO.PipeOk r3 w3] ++ evs).
    split.
    + unfold ProcessIO.cleanup. rewrite !openedFds_app, Hop. done.
    + apply (noClose_app [_; _; _]); [|done]. apply Hnc. by repeat constructor.
  - exists r1, w1, r2, w2, r3, w3. rewrite (Hok eq_refl). split_and!; try done.
    apply (noClose_app [_; _; _]); apply Hnc; by repeat constructor.
Qed.

(** ** The launch: what the rollback is for *)

Section LaunchProperties.

Variable w : World.
Variable child : Child.
Variable p : initProcess.

Lemma keeps_pid_bind {B} (I : St → Prop) (c : Z) (f : Z → M B) :
  (∀ s, I s → cmdProcess s = Some c) →
  keeps I (f c) → keeps I (pid ≫= f).
Proof.
  intros HI Hf s Hs. unfold mbind, M_bind, pid. rewrite (HI s Hs).
  by apply Hf.
Qed.

Lemma keeps_parseSync (I : St → Prop) (fn : syncType → M unit) (fs : list Frame) :
  (∀ t s, I s → I (addEvent (Recv t) s)) →
  (∀ t, keeps I (fn t)) →
  keeps I (parseSync fs fn).
Proof.
  intros Hrecv Hfn. induction fs as [|[t|e] fs IH]; simpl.
  - apply keeps_ret.
  - apply keeps_bind; [apply keeps_modify, Hrecv|intros _].
    apply keeps_bind; [apply keeps_try, Hfn|intros [e|]].
    + apply keeps_ret.
    + apply IH.
  - apply keeps_ret.
Qed.

Lemma noCleanup_addEvent e s :
  noCleanup s →
  (∀ op r, e = Call op r → cleanupOp op = false) →
  noCleanup (addEvent e s).
Proof.
  intros Hs He op r Hin. simpl in Hin.
  apply elem_of_app in Hin as [Hin|Hin]; [by eapply Hs|].
  apply list_elem_of_singleton in Hin. by eapply He.
Qed.

Ltac walk side :=
  repeat first
    [ apply keeps_ret | apply keeps_fail | apply keeps_panic
    | apply keeps_get | apply keeps_pid
    | apply keeps_bind; [|intros ?]
    | apply keeps_try | apply keeps_wrap
    | apply keeps_call; side
    | apply keeps_call_; side
    | match goal with
      | |- keeps _ (modify _) => apply keeps_modify; side
      end
    | match goal with
      | |- keeps _ (if ?b then _ else _) => destruct b
      | |- keeps _ (match ?x with _ => _ end) => destruct x
      end ].

Ltac clean_side :=
  first
    [ by (intros ? ? ?; apply noCleanup_addEvent; [assumption|];
          intros ? ? [= <- <-]; reflexivity)
    | by (intros ? ?; assumption) ].

Lemma wait_noCleanup : keeps noCleanup (wait w p).
Proof. unfold wait. walk clean_side. Qed.

Lemma getPipeFdsLoop_noCleanup c idxs acc :
  keeps noCleanup (getPipeFdsLoop w child c idxs acc).
Proof.
  revert acc. induction idxs as [|i idxs IH]; intros acc; simpl.
  - apply keeps_ret.
  - walk clean_side; apply IH.
Qed.

Lemma createNetworkInterfaces_noCleanup nets :
  keeps noCleanup (createNetworkInterfaces w nets).
Proof.
  induction nets as [|typ nets IH]; simpl.
  - apply keeps_ret.
  - walk clean_side. apply IH.
Qed.

Lemma prepare_noCleanup : keeps noCleanup (prepare w child p).
Proof.
  unfold prepare, setupDevSubdir, updateSpecState, sendConfig, getPipeFds,
    getChildPid, waitForChildExit.
  walk clean_side;
    first [ apply getPipeFdsLoop_noCleanup | apply createNetworkInterfaces_noCleanup ].
Qed.

Lemma handleSync_noCleanup c t : keeps noCleanup (handleSync w p c t).
Proof.
  destruct t; simpl; unfold writeSync, runHooks, registerWithSysboxfs;
    walk clean_side.
Qed.

Lemma startBody_noCleanup : keeps noCleanup (startBody w child p).
Proof.
  unfold startBody. apply keeps_bind; [apply prepare_noCleanup|intros c].
  unfold syncAndFinish.
  apply keeps_bind.
  { apply keeps_parseSync; [|apply handleSync_noCleanup].
    intros t s Hs. apply noCleanup_addEvent; [done|]. discriminate. }
  intros ierr. walk clean_side; apply wait_noCleanup.
Qed.

(** [start] when [cmd.Start] fails: the error is wrapped, the two child
    ends and the parent's socket are closed, and nothing else is called. *)
Lemma start_not_started e :
  w [] CmdStart = Some e →
  ∃ r1 r2 r3 s',
    start w child p initSt =
      (Err (ErrCause "starting init process command" e), s') ∧
    trace s' = [Call CmdStart (Some e); Call CloseChildSock r1;
                Call CloseChildLog r2; Call CloseParentSock r3] ∧
    cmdProcess s' = None ∧ opsSet s' = false.
Proof.
  intros Hstart.
  unfold start, defer, mbind, M_bind, try, startCmd, mbind, M_bind, try,
    call, modify, call_, fail. simpl. rewrite Hstart. simpl.
  eexists _, _, _, _. split; [reflexivity|]. done.
Qed.

(** X23. The rollback of the init launch runs on an error and only then.
    If [start] sent SIGKILL to a process, or destroyed the cgroup or the
    Intel RDT allocation, then [cmd.Start] had succeeded and [start] returns
    an error: a launch that succeeds, and also a launch that ends in a panic,
    kills nothing and destroys nothing. *)
Theorem start_cleanup_only_on_error r s' op res :
  start w child p initSt = (r, s') →
  Call op res ∈ trace s' → cleanupOp op = true →
  w [] CmdStart = None ∧ ∃ e, r = Err e.
Proof.
  intros H Hin Hop.
  destruct (w [] CmdStart) as [e|] eqn:Hstart.
  { exfalso. destruct (start_not_started e Hstart) as (r1 & r2 & r3 & s0 & Hs & Htr & _).
    rewrite Hs in H. injection H as <- <-. rewrite Htr in Hin.
    repeat (apply elem_of_cons in Hin as [[= -> ->]|Hin]; [discriminate Hop|]).
    by apply elem_of_nil in Hin. }
  split; [done|].
  rewrite start_started in H by done.
  assert (H0 : noCleanup (startedSt w child)).
  { intros op0 r0 Hin0. unfold startedSt in Hin0. simpl in Hin0.
    repeat (apply elem_of_cons in Hin0 as [[= -> ->]|Hin0]; [done|]).
    by apply elem_of_nil in Hin0. }
  pose proof (startBody_noCleanup _ H0) as Hinv.
  destruct (startBody w child p (startedSt w child)) as [r0 s1].
  cbv zeta in H. simpl in Hinv. injection H as <- <-.
  destruct r0 as [[]|e|]; [exfalso|by eexists|exfalso];
    cbn [rollback mret M_ret snd trace addEvent] in Hin;
    (apply elem_of_app in Hin as [Hin|Hin];
     [apply Hinv in Hin; congruence
     |apply list_elem_of_singleton in Hin; injection Hin as -> _; discriminate]).
Qed.

(** *** The sync loop: hooks, registration and the created state *)

Lemma hooksOK_plain e s :
  hooksOK p child s → (∀ h c r, e ≠ Call (RunHooks h c) r) →
  hooksOK p child (addEvent e s).
Proof.
  intros H He h c r Hin. simpl in *.
  apply elem_of_app in Hin as [Hin|Hin].
  - destruct (H _ _ _ Hin) as (? & ? & Hr). split_and!; [done|done|].
    destruct Hr as [?|[? ?]]; [left|right; split; [done|]]; set_solver.
  - apply list_elem_of_singleton in Hin. by destruct (He h c r).
Qed.

Lemma hooksOK_hook h r s :
  hooksOK p child s → hasHooks p = true →
  (Recv procHooks ∈ trace s ∨ (newMountNs p = false ∧ Recv procReady ∈ trace s)) →
  hooksOK p child (addEvent (Call (RunHooks h (PidFinal child)) r) s).
Proof.
  intros H Hh Hr h' c r' Hin. simpl in *.
  assert (Hr' : Recv procHooks ∈ trace s ++ [Call (RunHooks h (PidFinal child)) r]
                ∨ (newMountNs p = false
                   ∧ Recv procReady ∈ trace s ++ [Call (RunHooks h (PidFinal child)) r])).
  { destruct Hr as [?|[? ?]]; [left|right; split; [done|]]; set_solver. }
  apply elem_of_app in Hin as [Hin|Hin].
  - destruct (H _ _ _ Hin) as (? & ? & _). done.
  - apply list_elem_of_singleton in Hin. injection Hin as -> -> ->. done.
Qed.

Lemma regOK_plain e s :
  regOK p child s → (∀ info r, e ≠ Call (Register info) r) →
  regOK p child (addEvent e s).
Proof.
  intros H He info r Hin. simpl in *.
  apply elem_of_app in Hin as [Hin|Hin]; [by eapply H|].
  apply list_elem_of_singleton in Hin. by destruct (He info r).
Qed.

Lemma syncInv_plain seen e s :
  syncInv p child seen s →
  (∀ h c r, e ≠ Call (RunHooks h c) r) →
  (∀ info r, e ≠ Call (Register info) r) →
  syncInv p child seen (addEvent e s).
Proof.
  intros (H1 & H2 & H3 & (H4 & H4' & H4'') & H5) Hh Hr. split_and!; try done.
  - by apply hooksOK_plain.
  - by apply regOK_plain.
  - simpl. intros Hs. destruct (H3 Hs). split; [done|set_solver].
  - simpl. intros t Ht. apply elem_of_app. left. by apply H5.
Qed.

Lemma syncInv_recv seen t s :
  syncInv p child seen s → syncInv p child (t :: seen) (addEvent (Recv t) s).
Proof.
  intros Hs.
  assert (Hp : syncInv p child seen (addEvent (Recv t) s)).
  { apply syncInv_plain; [done|discriminate|discriminate]. }
  destruct Hp as (H1 & H2 & H3 & (H4 & H4' & H4'') & H5).
  split_and!; try done. simpl. intros t' Ht.
  apply elem_of_cons in Ht as [->|Ht]; [set_solver|by apply H5].
Qed.

Lemma syncInv_weaken seen s : syncInv p child seen s → syncInv p child [] s.
Proof.
  intros (H1 & H2 & H3 & (H4 & H4' & H4'') & H5). split_and!; try done.
  intros t Ht. by apply elem_of_nil in Ht.
Qed.

Ltac sync_side :=
  first
    [ by (intros ? ? ?; apply syncInv_plain; [assumption|discriminate|discriminate])
    | by (let H := fresh in
          intros ? (? & ? & H & (? & ? & ?) & ?); split_and!; simpl;
          try assumption;
          let Hs := fresh in
          intros Hs; destruct (H Hs); split; first [reflexivity | assumption]) ].

Ltac sync_pid :=
  intros ? (_ & _ & _ & (? & _) & _); assumption.

Ltac walk_sync :=
  repeat first
    [ apply keeps_ret | apply keeps_fail | apply keeps_panic
    | apply keeps_get
    | apply (keeps_pid_bind _ (PidFinal child)); [sync_pid|]
    | apply keeps_bind; [|intros ?]
    | apply keeps_try | apply keeps_wrap
    | apply keeps_call; sync_side
    | apply keeps_call_; sync_side
    | match goal with
      | |- keeps _ (modify _) => apply keeps_modify; sync_side
      end
    | match goal with
      | |- keeps _ (if ?b then _ else _) => destruct b
      | |- keeps _ (match ?x with _ => _ end) => destruct x
      end ].

Lemma wait_syncInv seen : keeps (syncInv p child seen) (wait w p).
Proof. unfold wait. walk_sync. Qed.

Lemma runHooks_syncInv seen :
  procHooks ∈ seen ∨ (newMountNs p = false ∧ procReady ∈ seen) →
  keeps (syncInv p child seen) (runHooks w p).
Proof.
  intros Hseen. unfold runHooks.
  destruct (hasHooks p) eqn:Hh; [|apply keeps_ret].
  assert (Hside : ∀ h s r, syncInv p child seen s →
            syncInv p child seen (addEvent (Call (RunHooks h (PidFinal child)) r) s)).
  { intros h s r Hs.
    assert (Hr : Recv procHooks ∈ trace s
                 ∨ (newMountNs p = false ∧ Recv procReady ∈ trace s)).
    { destruct Hs as (_ & _ & _ & _ & H5).
      destruct Hseen as [?|[? ?]]; [left|right; split; [done|]]; by apply H5. }
    destruct Hs as (H1 & H2 & H3 & (H4 & H4' & H4'') & H5).
    split_and!; try done.
    - by apply hooksOK_hook.
    - apply regOK_plain; [done|discriminate].
    - simpl. intros Hs. destruct (H3 Hs). split; [done|set_solver].
    - simpl. intros t Ht. apply elem_of_app. left. by apply H5. }
  apply keeps_bind; [apply keeps_call; sync_side|intros _].
  apply (keeps_pid_bind _ (PidFinal child)); [sync_pid|].
  apply keeps_bind; [apply keeps_call; intros; by apply Hside|intros _].
  apply keeps_call; intros; by apply Hside.
Qed.

Lemma registerWithSysboxfs_syncInv seen :
  keeps (syncInv p child seen) (registerWithSysboxfs w p (PidFinal child)).
Proof.
  unfold registerWithSysboxfs.
  destruct (sysFsEnabled p) eqn:Hen; simpl; [|apply keeps_ret].
  destruct (config_UidMappings p !! 0%nat) as [u|] eqn:Hu; [|apply keeps_panic].
  destruct (config_GidMappings p !! 0%nat) as [g|] eqn:Hg; [|apply keeps_panic].
  apply keeps_wrap, keeps_call.
  intros s r (H1 & H2 & H3 & (H4 & H4' & H4'') & H5).
  split_and!; try done.
  - apply hooksOK_plain; [done|discriminate].
  - intros info r' Hin. simpl in Hin.
    apply elem_of_app in Hin as [Hin|Hin]; [by eapply H2|].
    apply list_elem_of_singleton in Hin. injection Hin as -> _.
    split; [done|]. by exists u, g.
  - simpl. intros Hs. destruct (H3 Hs). split; [done|set_solver].
  - simpl. intros t Ht. apply elem_of_app. left. by apply H5.
Qed.

(** The end of the [procReady] handler: the state becomes [created], is
    stored, and [procRun] is sent. *)
Lemma readyTail_syncInv seen ctx :
  keeps (syncInv p child seen)
    (_ ← modify setCreated;
     uerr ← try (call w UpdateState);
     match uerr with
     | Some _ => fail (ErrCauseNil "store init state")
     | None => _ ← wrap ctx (writeSync w procRun); modify setSentRun
     end).
Proof.
  intros s Hs.
  assert (Hc : syncInv p child seen (setCreated s)).
  { destruct Hs as (H1 & H2 & H3 & (H4 & H4' & H4'') & H5).
    split_and!; simpl; naive_solver. }
  unfold mbind, M_bind, modify, try, call, wrap, writeSync, call, fail. simpl.
  destruct (w (trace s) UpdateState) as [e|] eqn:Hup; simpl.
  - apply (syncInv_plain _ _ _ Hc); discriminate.
  - assert (Hu : syncInv p child seen
                   (addEvent (Call UpdateState None) (setCreated s))).
    { apply (syncInv_plain _ _ _ Hc); discriminate. }
    destruct (w (trace s ++ [Call UpdateState None]) (WriteSync procRun)) as [e|];
      simpl.
    + apply (syncInv_plain _ _ _ Hu); discriminate.
    + assert (Hw : syncInv p child seen
                     (addEvent (Call (WriteSync procRun) None)
                        (addEvent (Call UpdateState None) (setCreated s)))).
      { apply (syncInv_plain _ _ _ Hu); discriminate. }
      destruct Hw as (H1 & H2 & H3 & (H4 & H4' & H4'') & H5).
      split_and!; simpl; try done. set_solver.
Qed.

Lemma handleSync_syncInv t :
  keeps (syncInv p child [t]) (handleSync w p (PidFinal child) t).
Proof.
  destruct t; simpl; unfold writeSync.
  1, 3, 5-11, 13-14: walk_sync.
  - (* procReady *)
    apply (keeps_pid_bind _ (PidFinal child)); [sync_pid|].
    apply keeps_bind; [walk_sync|intros ?].
    apply keeps_bind.
    { destruct (newMountNs p) eqn:Hns; simpl; [apply keeps_ret|].
      apply keeps_bind; [walk_sync|intros ?].
      apply runHooks_syncInv. right. split; [done|set_solver]. }
    intros ?. apply readyTail_syncInv.
  - (* procHooks *)
    apply keeps_bind; [walk_sync|intros ?].
    apply keeps_bind; [apply runHooks_syncInv; left; set_solver|intros ?].
    walk_sync.
  - (* rootfsReady *)
    apply keeps_bind; [walk_sync|intros ?].
    apply keeps_bind; [apply registerWithSysboxfs_syncInv|intros ?].
    walk_sync.
Qed.

Lemma parseSync_syncInv fs :
  keeps (syncInv p child [])
    (parseSync fs (handleSync w p (PidFinal child))).
Proof.
  induction fs as [|[t|e] fs IH]; simpl.
  - apply keeps_ret.
  - intros s Hs. unfold mbind, M_bind, modify, try. simpl.
    pose proof (syncInv_recv [] t s Hs) as Hr.
    pose proof (handleSync_syncInv t _ Hr) as Hh.
    destruct (handleSync w p (PidFinal child) t (addEvent (Recv t) s))
      as [[[]|e|] s1]; simpl in *.
    + apply IH. by eapply syncInv_weaken.
    + by eapply syncInv_weaken.
    + by eapply syncInv_weaken.
  - apply keeps_ret.
Qed.

Lemma syncAndFinish_syncInv :
  keeps (syncInv p child []) (syncAndFinish w child p (PidFinal child)).
Proof.
  unfold syncAndFinish.
  apply keeps_bind; [apply parseSync_syncInv|intros ierr].
  walk_sync; apply wait_syncInv.
Qed.

(** *** Before the sync loop *)

Lemma quiet_addEvent op r s :
  quiet s →
  match op with RunHooks _ _ | Register _ => False | _ => True end →
  quiet (addEvent (Call op r) s).
Proof.
  intros (H1 & H2 & H3) Hop. split_and!; simpl; [| |done].
  - intros op' r' Hin. apply elem_of_app in Hin as [Hin|Hin]; [by eapply H1|].
    apply list_elem_of_singleton in Hin. by injection Hin as -> ->.
  - intros t Hin. apply elem_of_app in Hin as [Hin|Hin]; [by eapply H2|].
    by apply list_elem_of_singleton in Hin.
Qed.

Ltac quiet_side :=
  first
    [ by (intros ? ? ?; apply quiet_addEvent; [assumption|exact I])
    | by (intros ? ?; assumption) ].

Lemma getPipeFdsLoop_quiet c idxs acc :
  keeps quiet (getPipeFdsLoop w child c idxs acc).
Proof.
  revert acc. induction idxs as [|i idxs IH]; intros acc; simpl.
  - apply keeps_ret.
  - walk quiet_side; apply IH.
Qed.

Lemma createNetworkInterfaces_quiet nets :
  keeps quiet (createNetworkInterfaces w nets).
Proof.
  induction nets as [|typ nets IH]; simpl.
  - apply keeps_ret.
  - walk quiet_side. apply IH.
Qed.

Lemma prepare_quiet : keeps quiet (prepare w child p).
Proof.
  unfold prepare, setupDevSubdir, updateSpecState, sendConfig, getPipeFds,
    getChildPid, waitForChildExit.
  walk quiet_side;
    first [ apply getPipeFdsLoop_quiet | apply createNetworkInterfaces_quiet ].
Qed.

(** Inversion of a successful step of a computation of the parent. *)
Lemma M_bind_Ok_inv {A B} (m : M A) (f : A → M B) s b s' :
  (m ≫= f) s = (Ok b, s') → ∃ a s1, m s = (Ok a, s1) ∧ f a s1 = (Ok b, s').
Proof.
  unfold mbind, M_bind. destruct (m s) as [[a|e|] s1]; [eauto|done|done].
Qed.

Lemma wrap_Ok_inv {A} ctx (m : M A) s a s' :
  wrap ctx m s = (Ok a, s') → m s = (Ok a, s').
Proof. unfold wrap. by destruct (m s) as [[a0|e|] s1]. Qed.

Lemma keeps_run {A} (I : St → Prop) (m : M A) s r s' :
  keeps I m → I s → m s = (r, s') → I s'.
Proof. intros Hk Hs E. specialize (Hk s Hs). by rewrite E in Hk. Qed.

Ltac fields_side := by (intros; assumption).

Lemma createNetworkInterfaces_fields c nets n :
  keeps (fieldsAre (Some c) true n) (createNetworkInterfaces w nets).
Proof.
  induction nets as [|typ nets IH]; simpl.
  - apply keeps_ret.
  - walk fields_side. apply IH.
Qed.

Lemma getPipeFdsLoop_length c idxs acc s fds' s' :
  getPipeFdsLoop w child c idxs acc s = (Ok fds', s') →
  length fds' = length acc.
Proof.
  revert acc s. induction idxs as [|i idxs IH]; intros acc s H; simpl in H.
  - by injection H as <- _.
  - unfold mbind, M_bind, try, call in H.
    destruct (w (trace s) (Readlink c i)) as [e|].
    + destruct (isPermission e); [by apply IH in H|done].
    + apply IH in H. by rewrite length_insert in H.
Qed.

Lemma prepare_post s c s' :
  prepare w child p s = (Ok c, s') →
  c = PidFinal child ∧ fieldsAre (Some (PidFinal child)) true 3 s'.
Proof.
  unfold prepare. intros H.
  apply M_bind_Ok_inv in H as (proc & s1 & _ & H).
  do 6 (apply M_bind_Ok_inv in H as (? & ? & _ & H)).
  apply M_bind_Ok_inv in H as (c0 & s7 & Hc & H).
  apply M_bind_Ok_inv in H as (fds0 & s8 & Hfds & H).
  apply M_bind_Ok_inv in H as ([] & s9 & Hset & H).
  apply M_bind_Ok_inv in H as ([] & s10 & H10 & H).
  apply M_bind_Ok_inv in H as ([] & s11 & H11 & H).
  apply M_bind_Ok_inv in H as ([] & s12 & H12 & H).
  apply M_bind_Ok_inv in H as ([] & s13 & H13 & H).
  apply M_bind_Ok_inv in H as ([] & s14 & H14 & H).
  apply M_bind_Ok_inv in H as ([] & s15 & H15 & H).
  apply M_bind_Ok_inv in H as ([] & s16 & H16 & H).
  injection H as <- <-.
  (* the pid read from the pipe *)
  assert (c0 = PidFinal child) as ->.
  { apply wrap_Ok_inv in Hc. unfold getChildPid, mbind, M_bind, try, call, call_ in Hc.
    destruct (w _ DecodePid); simpl in Hc; [done|].
    by injection Hc as <- _. }
  split; [done|].
  (* the descriptors *)
  apply wrap_Ok_inv in Hfds. apply getPipeFdsLoop_length in Hfds. simpl in Hfds.
  injection Hset as <-.
  assert (F9 : length (fds (setFds fds0 s8)) = 3%nat) by done.
  assert (F12 : length (fds s12) = 3%nat).
  { assert (K : ∀ (m : M unit), keeps (λ s, length (fds s) = 3%nat) m →
                ∀ s r s', length (fds s) = 3%nat → m s = (r, s') →
                          length (fds s') = 3%nat).
    { intros m Hk s0 r0 s0' Hs0 E.
      exact (keeps_run (λ s, length (fds s) = 3%nat) m s0 r0 s0' Hk Hs0 E). }
    eapply K; [|eapply K; [|eapply K; [|exact F9|exact H10]|exact H11]|exact H12];
      walk fields_side. }
  (* the wait for the bootstrapper *)
  assert (F13 : fieldsAre (Some (PidFinal child)) true 3 s13).
  { apply wrap_Ok_inv in H13.
    unfold waitForChildExit, mbind, M_bind, try, call, call_, modify, fail in H13.
    destruct (w (trace s12) ProcessWait); simpl in H13; [done|].
    destruct (exitSuccess child); simpl in H13; [|done].
    injection H13 as <-. done. }
  assert (K : ∀ (m : M unit), keeps (fieldsAre (Some (PidFinal child)) true 3) m →
              ∀ s r s', fieldsAre (Some (PidFinal child)) true 3 s → m s = (r, s') →
                        fieldsAre (Some (PidFinal child)) true 3 s').
  { intros m Hk s0 r0 s0' Hs0 E.
    exact (keeps_run (fieldsAre (Some (PidFinal child)) true 3) m s0 r0 s0'
             Hk Hs0 E). }
  eapply K; [|eapply K; [|eapply K; [|exact F13|exact H14]|exact H15]|exact H16].
  - unfold sendConfig. walk fields_side.
  - unfold updateSpecState. walk fields_side.
  - apply keeps_wrap, createNetworkInterfaces_fields.
Qed.

Lemma quiet_syncInv s :
  quiet s → fieldsAre (Some (PidFinal child)) true 3 s → syncInv p child [] s.
Proof.
  intros (H1 & H2 & H3) (F1 & F2 & F3). split_and!; try done.
  - intros h c r Hin. by destruct (H1 _ _ Hin).
  - intros info r Hin. by destruct (H1 _ _ Hin).
  - by rewrite H3.
  - intros t Ht. by apply elem_of_nil in Ht.
Qed.

(** The body of [start], after a successful [cmd.Start]. *)
Lemma startBody_inv :
  hooksOK p child (startBody w child p (startedSt w child)).2 ∧
  regOK p child (startBody w child p (startedSt w child)).2 ∧
  ((startBody w child p (startedSt w child)).1 = Ok () →
     syncInv p child [] (startBody w child p (startedSt w child)).2 ∧
     sentRun (startBody w child p (startedSt w child)).2 = true).
Proof.
  assert (H0 : quiet (startedSt w child)).
  { split_and!; [| |done].
    - intros op r Hin. unfold startedSt in Hin. simpl in Hin.
      repeat (apply elem_of_cons in Hin as [[= -> ->]|Hin]; [done|]).
      by apply elem_of_nil in Hin.
    - intros t Hin. unfold startedSt in Hin. simpl in Hin.
      repeat (apply elem_of_cons in Hin as [?|Hin]; [done|]).
      by apply elem_of_nil in Hin. }
  pose proof (prepare_quiet _ H0) as Hq.
  unfold startBody, mbind, M_bind.
  destruct (prepare w child p (startedSt w child)) as [[c|e|] s0] eqn:Hprep;
    simpl in Hq.
  - apply prepare_post in Hprep as [-> Hf].
    pose proof (syncAndFinish_syncInv _ (quiet_syncInv _ Hq Hf)) as Hs.
    split; [apply Hs|]. split; [apply Hs|]. intros Hok. split; [done|].
    destruct (parseSync_no_panic_or_ok w child p (PidFinal child) s0)
      as (r & s1 & Hps & Hne).
    destruct r as [ierr|e|].
    + destruct (syncAndFinish_cases w child p (PidFinal child) s0 ierr s1 Hps)
        as (_ & _ & Hfl).
      apply Hfl. by eexists.
    + by destruct (Hne e).
    + exfalso. revert Hok. unfold syncAndFinish, mbind, M_bind. by rewrite Hps.
  - destruct Hq as (H1 & _). split_and!; [| |done].
    + intros h c r Hin. by destruct (H1 _ _ Hin).
    + intros info r Hin. by destruct (H1 _ _ Hin).
  - destruct Hq as (H1 & _). split_and!; [| |done].
    + intros h c r Hin. by destruct (H1 _ _ Hin).
    + intros info r Hin. by destruct (H1 _ _ Hin).
Qed.

Lemma traceOK_plain e s :
  traceOK p child s →
  (∀ h c r, e ≠ Call (RunHooks h c) r) →
  (∀ info r, e ≠ Call (Register info) r) →
  traceOK p child (addEvent e s).
Proof.
  intros [H1 H2] Hh Hr. split; [by apply hooksOK_plain|by apply regOK_plain].
Qed.

Ltac trace_side :=
  first
    [ by (intros ? ? ?; apply traceOK_plain; [assumption|discriminate|discriminate])
    | by (intros ? ?; assumption) ].

Lemma rollback_traceOK r : keeps (traceOK p child) (rollback w p r).
Proof. unfold rollback, terminate, wait. walk trace_side. Qed.

(** What a run of [start] leaves in the trace. *)
Lemma start_traceOK r s' :
  start w child p initSt = (r, s') →
  hooksOK p child s' ∧ regOK p child s'.
Proof.
  intros H.
  destruct (w [] CmdStart) as [e|] eqn:Hstart.
  { destruct (start_not_started e Hstart) as (r1 & r2 & r3 & s0 & Hs & Htr & _).
    rewrite Hs in H. injection H as <- <-. split.
    - intros h c r0 Hin. rewrite Htr in Hin.
      repeat (apply elem_of_cons in Hin as [?|Hin]; [done|]).
      by apply elem_of_nil in Hin.
    - intros info r0 Hin. rewrite Htr in Hin.
      repeat (apply elem_of_cons in Hin as [?|Hin]; [done|]).
      by apply elem_of_nil in Hin. }
  rewrite start_started in H by done.
  destruct startBody_inv as (Hh & Hr & _).
  destruct (startBody w child p (startedSt w child)) as [r0 s1].
  cbv zeta in H. simpl in Hh, Hr. injection H as <- <-.
  pose proof (rollback_traceOK r0 s1 (conj Hh Hr)) as [Hh2 Hr2].
  cbn [snd].
  split.
  - apply hooksOK_plain; [done|discriminate].
  - apply regOK_plain; [done|discriminate].
Qed.

(** X24. What a successful init launch leaves behind.  When [start]
    returns without error, the container is in the created state and that
    state was stored, the process of the launch is the final child whose pid
    was read from the pipe, the process operations are set, and the three
    external descriptors are recorded. *)
Theorem start_success_state s' :
  start w child p initSt = (Ok (), s') →
  containerCreated s' = true ∧ Call UpdateState None ∈ trace s' ∧
  cmdProcess s' = Some (PidFinal child) ∧ opsSet s' = true ∧
  length (fds s') = 3%nat.
Proof.
  intros H.
  destruct (w [] CmdStart) as [e|] eqn:Hstart.
  { destruct (start_not_started e Hstart) as (r1 & r2 & r3 & s0 & Hs & _).
    rewrite Hs in H. done. }
  rewrite start_started in H by done.
  destruct startBody_inv as (_ & _ & Hok).
  destruct (startBody w child p (startedSt w child)) as [r0 s1].
  cbv zeta in H. simpl in Hok. injection H as -> <-.
  destruct (Hok eq_refl) as [(_ & _ & H3 & (F1 & F2 & F3) & _) Hrun].
  destruct (H3 Hrun) as [Hc Hu].
  cbn [rollback mret M_ret snd trace addEvent containerCreated cmdProcess
       opsSet fds].
  split_and!; try done. set_solver.
Qed.

(** *** The order of the hooks and the messages *)

Lemma lastRecv_call tr op r : lastRecv (tr ++ [Call op r]) = lastRecv tr.
Proof. unfold lastRecv. rewrite omap_app. simpl. by rewrite app_nil_r. Qed.

Lemma lastRecv_recv tr t : lastRecv (tr ++ [Recv t]) = Some t.
Proof. unfold lastRecv. rewrite omap_app. simpl. apply last_snoc. Qed.

(** Where an event sits in a trace that has grown by one event. *)
Lemma snoc_split (tr : list Event) e before x after :
  tr ++ [e] = before ++ x :: after →
  (∃ after', after = after' ++ [e] ∧ tr = before ++ x :: after') ∨
  (after = [] ∧ tr = before ∧ e = x).
Proof.
  destruct after as [|y after' _] using rev_ind; intros H.
  - right. apply app_inj_tail in H as [-> ->]. done.
  - rewrite app_comm_cons, app_assoc in H. apply app_inj_tail in H as [-> ->].
    left. by exists after'.
Qed.

Lemma hookOrder_plain e s :
  hookOrder p s → (∀ h c r, e ≠ Call (RunHooks h c) r) →
  hookOrder p (addEvent e s).
Proof.
  intros H He before after h c r Htr. simpl in Htr.
  apply snoc_split in Htr as [(after' & -> & Htr)|(-> & _ & Heq)].
  - by eapply H.
  - by destruct (He h c r).
Qed.

Lemma hookTurn_call t op r s :
  hookTurn p t s → (∀ h c, op ≠ RunHooks h c) →
  hookTurn p t (addEvent (Call op r) s).
Proof.
  intros [H Hl] Hop. split.
  - apply hookOrder_plain; [done|]. intros h c r' [= -> _]. by eapply Hop.
  - simpl. by rewrite lastRecv_call.
Qed.

Lemma hookTurn_hook t h c r s :
  hookTurn p t s →
  t = procHooks ∨ (newMountNs p = false ∧ t = procReady) →
  hookTurn p t (addEvent (Call (RunHooks h c) r) s).
Proof.
  intros [H Hl] Ht. split.
  - intros before after h' c' r' Htr. simpl in Htr.
    apply snoc_split in Htr as [(after' & -> & Htr)|(-> & <- & _)].
    + by eapply H.
    + rewrite Hl. destruct Ht as [->|[? ->]]; [by left|by right].
  - simpl. by rewrite lastRecv_call.
Qed.

Lemma hookTurn_recv t s : hookOrder p s → hookTurn p t (addEvent (Recv t) s).
Proof.
  intros H. split; [apply hookOrder_plain; [done|discriminate]|].
  simpl. apply lastRecv_recv.
Qed.

Ltac turn_side :=
  first
    [ by (intros ? ? ?; apply hookTurn_call; [assumption|discriminate])
    | by (intros ? ?; assumption) ].

Ltac order_side :=
  first
    [ by (intros ? ? ?; apply hookOrder_plain; [assumption|discriminate])
    | by (intros ? ?; assumption) ].

Lemma runHooks_hookTurn t :
  t = procHooks ∨ (newMountNs p = false ∧ t = procReady) →
  keeps (hookTurn p t) (runHooks w p).
Proof.
  intros Ht. unfold runHooks. destruct (hasHooks p); [|apply keeps_ret].
  apply keeps_bind; [apply keeps_call; turn_side|intros _].
  apply keeps_bind; [apply keeps_pid|intros c].
  apply keeps_bind; [apply keeps_call; intros; by apply hookTurn_hook|intros _].
  apply keeps_call; intros; by apply hookTurn_hook.
Qed.

Lemma handleSync_hookTurn c t : keeps (hookTurn p t) (handleSync w p c t).
Proof.
  destruct t; simpl; unfold writeSync, registerWithSysboxfs.
  1, 3, 5-14: walk turn_side.
  - (* procReady *)
    apply keeps_bind; [apply keeps_pid|intros ?].
    apply keeps_bind; [walk turn_side|intros ?].
    apply keeps_bind.
    { destruct (newMountNs p) eqn:Hns; simpl; [apply keeps_ret|].
      apply keeps_bind; [walk turn_side|intros ?].
      apply runHooks_hookTurn. by right. }
    intros ?. walk turn_side.
  - (* procHooks *)
    apply keeps_bind; [walk turn_side|intros ?].
    apply keeps_bind; [apply runHooks_hookTurn; by left|intros ?].
    walk turn_side.
Qed.

Lemma parseSync_hookOrder c fs :
  keeps (hookOrder p) (parseSync fs (handleSync w p c)).
Proof.
  induction fs as [|[t|e] fs IH]; simpl.
  - apply keeps_ret.
  - intros s Hs. unfold mbind, M_bind, modify, try. simpl.
    pose proof (handleSync_hookTurn c t _ (hookTurn_recv t s Hs)) as Hh.
    destruct (handleSync w p c t (addEvent (Recv t) s)) as [[[]|e|] s1];
      simpl in *.
    + apply IH, Hh.
    + apply Hh.
    + apply Hh.
  - apply keeps_ret.
Qed.

Lemma wait_hookOrder : keeps (hookOrder p) (wait w p).
Proof. unfold wait. walk order_side. Qed.

Lemma syncAndFinish_hookOrder c :
  keeps (hookOrder p) (syncAndFinish w child p c).
Proof.
  unfold syncAndFinish.
  apply keeps_bind; [apply parseSync_hookOrder|intros ierr].
  walk order_side; apply wait_hookOrder.
Qed.

Lemma quiet_hookOrder s : quiet s → hookOrder p s.
Proof.
  intros (H1 & _) before after h c r Htr. exfalso.
  apply (H1 (RunHooks h c) r). rewrite Htr. set_solver.
Qed.

Lemma rollback_hookOrder r : keeps (hookOrder p) (rollback w p r).
Proof. unfold rollback, terminate, wait. walk order_side. Qed.

(** The hooks of a run of [start] are in order. *)
Lemma start_hookOrder r s' :
  start w child p initSt = (r, s') → hookOrder p s'.
Proof.
  intros H.
  destruct (w [] CmdStart) as [e|] eqn:Hstart.
  { destruct (start_not_started e Hstart) as (r1 & r2 & r3 & s0 & Hs & Htr & _).
    rewrite Hs in H. injection H as <- <-.
    intros before after h c r0 Hb.
    assert (Hin : Call (RunHooks h c) r0 ∈ trace s0) by (rewrite Hb; set_solver).
    rewrite Htr in Hin.
    repeat (apply elem_of_cons in Hin as [?|Hin]; [done|]).
    by apply elem_of_nil in Hin. }
  rewrite start_started in H by done.
  assert (Hb : hookOrder p (startBody w child p (startedSt w child)).2).
  { assert (H0 : quiet (startedSt w child)).
    { split_and!; [| |done].
      - intros op r0 Hin. unfold startedSt in Hin. simpl in Hin.
        repeat (apply elem_of_cons in Hin as [[= -> ->]|Hin]; [done|]).
        by apply elem_of_nil in Hin.
      - intros t Hin. unfold startedSt in Hin. simpl in Hin.
        repeat (apply elem_of_cons in Hin as [?|Hin]; [done|]).
        by apply elem_of_nil in Hin. }
    pose proof (prepare_quiet _ H0) as Hq.
    unfold startBody, mbind, M_bind.
    destruct (prepare w child p (startedSt w child)) as [[c|e|] s0];
      simpl in Hq |- *.
    - apply syncAndFinish_hookOrder. by apply quiet_hookOrder.
    - by apply quiet_hookOrder.
    - by apply quiet_hookOrder. }
  destruct (startBody w child p (startedSt w child)) as [r0 s1].
  cbv zeta in H. simpl in Hb. injection H as <- <-.
  pose proof (rollback_hookOrder r0 s1 Hb) as Hr.
  cbn [snd]. apply hookOrder_plain; [done|discriminate].
Qed.

(** X25. The hooks of the init launch answer a message of the child.
    Whatever the outcome of [start], every run of a [Prestart] or
    [CreateRuntime] hook in its trace was made with hooks configured and for
    the pid of the final child, and the last message read from the child
    before that call is [procHooks] or, for a configuration without a new
    mount namespace, [procReady]: no hook runs before the first message, and
    with a new mount namespace none runs on [procReady]. *)
Theorem start_hooks_after_message r s' before after h c res :
  start w child p initSt = (r, s') →
  trace s' = before ++ Call (RunHooks h c) res :: after →
  hasHooks p = true ∧ c = PidFinal child ∧
  (lastRecv before = Some procHooks ∨
   (newMountNs p = false ∧ lastRecv before = Some procReady)).
Proof.
  intros H Htr.
  pose proof (start_hookOrder _ _ H) as Ho.
  apply start_traceOK in H as [Hh _].
  destruct (Hh h c res) as (Hhooks & Hc & _); [rewrite Htr; set_solver|].
  split; [done|]. split; [done|]. by eapply Ho.
Qed.

(** X26. The registration with the filesystem virtualizer.  Whatever the
    outcome of [start], every registration it attempted was made with the
    virtualizer enabled and carries the hostname of the configuration, the
    pid of the final child, the host ids of the first uid and gid mappings,
    the size of the first uid mapping, and, of the read-only and masked paths
    of the configuration, the ones under [/proc]. *)
Theorem start_registration r s' info res :
  start w child p initSt = (r, s') →
  Call (Register info) res ∈ trace s' →
  sysFsEnabled p = true ∧
  ∃ u g,
    config_UidMappings p !! 0%nat = Some u ∧
    config_GidMappings p !! 0%nat = Some g ∧
    info = regInfo p (PidFinal child) u g ∧
    (∀ x, x ∈ ProcRoPaths info ↔
          x ∈ config_ReadonlyPaths p ∧ Utils.HasPrefix x "/proc" = true) ∧
    (∀ x, x ∈ ProcMaskPaths info ↔
          x ∈ config_MaskPaths p ∧ Utils.HasPrefix x "/proc" = true).
Proof.
  intros H Hin. apply start_traceOK in H as [_ Hr].
  destruct (Hr _ _ Hin) as (Hen & u & g & Hu & Hg & ->).
  split; [done|]. exists u, g. split_and!; try done.
  - intros x. simpl. rewrite list_elem_of_In, filter_In, <- list_elem_of_In. done.
  - intros x. simpl. rewrite list_elem_of_In, filter_In, <- list_elem_of_In. done.
Qed.

(** One turn of the loop of [getPipeFds]. *)
Lemma getPipeFdsLoop_cons c i rest acc s :
  getPipeFdsLoop w child c (i :: rest) acc s =
    match w (trace s) (Readlink c i) with
    | None =>
        getPipeFdsLoop w child c rest (<[i := fdTarget child i]> acc)
          (addEvent (Call (Readlink c i) None) s)
    | Some e =>
        if isPermission e
        then getPipeFdsLoop w child c rest acc
               (addEvent (Call (Readlink c i) (Some e)) s)
        else (Err e, addEvent (Call (Readlink c i) (Some e)) s)
    end.
Proof.
  cbn [getPipeFdsLoop]. unfold mbind, M_bind, try, call.
  destruct (w (trace s) (Readlink c i)) as [e|]; [|reflexivity].
  by destruct (isPermission e).
Qed.

(** X27. The external descriptors.  [getPipeFds] reads the three links
    /proc/<pid>/fd/{0,1,2} in order and never panics.  It fails at the first
    link whose read fails with an error that is not a permission error, and
    returns that error.  Otherwise it returns three entries: the target of
    the link where the read succeeded, the empty string where it failed with
    a permission error. *)
Theorem getPipeFds_result c s :
  ∃ r s', getPipeFds w child c s = (r, s') ∧
    match r with
    | Panic => False
    | Err e =>
        isPermission e = false ∧
        ∃ i before, (i < 3)%nat ∧
          trace s' = trace s ++ before ++ [Call (Readlink c i) (Some e)] ∧
          ∀ ev, ev ∈ before →
            ∃ j r, ev = Call (Readlink c j) r ∧ (j < i)%nat
    | Ok l =>
        ∃ r0 r1 r2,
          trace s' = trace s ++ [Call (Readlink c 0) r0; Call (Readlink c 1) r1;
                                 Call (Readlink c 2) r2] ∧
          l = [fdEntry child 0 r0; fdEntry child 1 r1; fdEntry child 2 r2] ∧
          (∀ r e, r ∈ [r0; r1; r2] → r = Some e → isPermission e = true)
    end.
Proof.
  unfold getPipeFds.
  assert (Hperm : ∀ (l : list (option error)),
            Forall (λ r, ∀ e, r = Some e → isPermission e = true) l →
            ∀ r e, r ∈ l → r = Some e → isPermission e = true).
  { intros l Hl r e Hin. rewrite Forall_forall in Hl. by apply Hl. }
  assert (Hev : ∀ (i : nat) (l : list Event),
            Forall (λ ev, ∃ j r, ev = Call (Readlink c j) r ∧ (j < i)%nat) l →
            ∀ ev, ev ∈ l → ∃ j r, ev = Call (Readlink c j) r ∧ (j < i)%nat).
  { intros i l Hl ev Hin. rewrite Forall_forall in Hl. by apply Hl. }
  rewrite getPipeFdsLoop_cons.
  destruct (w (trace s) (Readlink c 0)) as [e0|] eqn:E0;
    [destruct (isPermission e0) eqn:P0|].
  2:{ eexists _, _. split; [reflexivity|]. split; [done|].
      exists 0%nat, []. split_and!; [lia|done|]. apply Hev. constructor. }
  all: rewrite getPipeFdsLoop_cons;
    match goal with
    | |- context [?ww ?t (Readlink ?cc 1)] =>
        destruct (ww t (Readlink cc 1)) as [e1|] eqn:E1;
          [destruct (isPermission e1) eqn:P1|]
    end.
  2,5:
    (eexists _, _; split; [reflexivity|]; split; [done|];
     eexists 1%nat, [_]; split_and!;
       [lia|cbn [trace addEvent]; by rewrite <- app_assoc|];
     apply Hev; repeat constructor; eexists 0%nat, _; split; [reflexivity|lia]).
  all: rewrite getPipeFdsLoop_cons;
    match goal with
    | |- context [?ww ?t (Readlink ?cc 2)] =>
        destruct (ww t (Readlink cc 2)) as [e2|] eqn:E2;
          [destruct (isPermission e2) eqn:P2|]
    end.
  2,5,8,11:
    (eexists _, _; split; [reflexivity|]; split; [done|];
     eexists 2%nat, [_; _]; split_and!;
       [lia|cbn [trace addEvent]; by rewrite <- !app_assoc|];
     apply Hev; repeat constructor;
     [eexists 0%nat, _|eexists 1%nat, _]; (split; [reflexivity|lia])).
  all: eexists _, _; (split; [reflexivity|]);
    eexists _, _, _; split_and!;
      [cbn [trace addEvent]; by rewrite <- !app_assoc|reflexivity|];
    apply Hperm; repeat constructor; intros ? [= <-]; assumption.
Qed.

End LaunchProperties.

(** ** The setns launch: what the rollback is for *)

Section SetnsProperties.

Variable w : World.
Variable child : Child.
Variable p : setnsProcess.

Ltac walk side :=
  repeat first
    [ apply keeps_ret | apply keeps_fail | apply keeps_panic
    | apply keeps_get | apply keeps_pid
    | apply keeps_bind; [|intros ?]
    | apply keeps_try | apply keeps_wrap
    | apply keeps_call; side
    | apply keeps_call_; side
    | match goal with
      | |- keeps _ (modify _) => apply keeps_modify; side
      end
    | match goal with
      | |- keeps _ (if ?b then _ else _) => destruct b
      | |- keeps _ (match ?x with _ => _ end) => destruct x
      end ].

Ltac clean_side :=
  first
    [ by (intros ? ? ?; apply noCleanup_addEvent; [assumption|];
          intros ? ? [= <- <-]; reflexivity)
    | by (intros ? ?; assumption) ].

Lemma setnsBody_noCleanup :
  keeps noCleanup
    (_ ← beforeCgroups w child p; _ ← enterCgroups w p; afterCgroups w child p).
Proof.
  unfold beforeCgroups, execSetns, enterCgroups, afterCgroups, applyIntelRdt,
    setnsWait.
  apply keeps_bind; [walk clean_side|intros _].
  apply keeps_bind; [walk clean_side|intros _].
  apply keeps_bind; [walk clean_side|intros _].
  apply keeps_bind; [walk clean_side|intros proc].
  apply keeps_bind; [walk clean_side|intros _].
  apply keeps_bind; [walk clean_side|intros _].
  apply keeps_bind.
  { apply keeps_parseSync.
    - intros t s Hs. apply noCleanup_addEvent; [done|]. discriminate.
    - intros t. destruct t; simpl; unfold writeSync; walk clean_side. }
  intros ierr. walk clean_side.
Qed.

(** [setnsStart] after a successful [cmd.Start]. *)
Lemma setnsStart_started :
  w [] CmdStart = None →
  setnsStart w child p initSt =
    let '(r, s1) :=
      (_ ← beforeCgroups w child p; _ ← enterCgroups w p; afterCgroups w child p)
        (setnsStartedSt w child) in
    let s2 := (setnsRollback w r s1).2 in
    (r, addEvent (Call CloseParentSock (w (trace s2) CloseParentSock)) s2).
Proof.
  intros Hstart.
  unfold setnsStart, defer at 1, mbind at 1, M_bind at 1, try at 1, startCmd,
    mbind at 1, M_bind at 1, try at 1, call at 1. simpl. rewrite Hstart. simpl.
  unfold mbind at 1, M_bind at 1, call_ at 1. simpl.
  unfold mbind at 1, M_bind at 1, call_ at 1. simpl.
  unfold defer, call_, setnsStartedSt. simpl.
  match goal with
  | |- context [(?m ≫= ?f) ?s0] => destruct ((m ≫= f) s0) as [r s1]
  end.
  assert (Hr : (setnsRollback w r s1).1 = Ok ()).
  { unfold setnsRollback. destruct r as [[]|e|]; try done.
    unfold mbind, M_bind, try, setnsTerminate, mbind, M_bind, get, try,
      setnsWait, call.
    destruct (cmdProcess s1); simpl;
      repeat (match goal with
              | |- context [w ?t ?o] => destruct (w t o); simpl
              end); done. }
  destruct (setnsRollback w r s1) as [r' s2]. simpl in *. subst r'. done.
Qed.

Lemma setnsStart_not_started e :
  w [] CmdStart = Some e →
  ∃ r1 r2 r3 s',
    setnsStart w child p initSt =
      (Err (ErrCause "starting setns process" e), s') ∧
    trace s' = [Call CmdStart (Some e); Call CloseChildSock r1;
                Call CloseChildLog r2; Call CloseParentSock r3] ∧
    cmdProcess s' = None.
Proof.
  intros Hstart.
  unfold setnsStart, defer, mbind, M_bind, try, startCmd, mbind, M_bind, try,
    call, modify, call_, fail. simpl. rewrite Hstart. simpl.
  eexists _, _, _, _. split; [reflexivity|]. done.
Qed.

(** X28. The rollback of the setns launch runs on an error and only then.
    If [setnsStart] sent SIGKILL to a process, then [cmd.Start] had
    succeeded and the launch returns an error; it never destroys a cgroup or
    an Intel RDT allocation.  In particular a launch that ends in a panic
    (the child sent [procReady], [procHooks] or [reqOp]) leaves the child
    alive. *)
Theorem setnsStart_kill_only_on_error r s' op res :
  setnsStart w child p initSt = (r, s') →
  Call op res ∈ trace s' → cleanupOp op = true →
  w [] CmdStart = None ∧ (∃ e, r = Err e) ∧ ∃ c, op = Kill c.
Proof.
  intros H Hin Hop.
  destruct (w [] CmdStart) as [e|] eqn:Hstart.
  { exfalso.
    destruct (setnsStart_not_started e Hstart) as (r1 & r2 & r3 & s0 & Hs & Htr & _).
    rewrite Hs in H. injection H as <- <-. rewrite Htr in Hin.
    repeat (apply elem_of_cons in Hin as [[= -> ->]|Hin]; [discriminate Hop|]).
    by apply elem_of_nil in Hin. }
  split; [done|].
  rewrite setnsStart_started in H by done.
  assert (H0 : noCleanup (setnsStartedSt w child)).
  { intros op0 r0 Hin0. unfold setnsStartedSt in Hin0. simpl in Hin0.
    repeat (apply elem_of_cons in Hin0 as [[= -> ->]|Hin0]; [done|]).
    by apply elem_of_nil in Hin0. }
  pose proof (setnsBody_noCleanup _ H0) as Hinv.
  destruct ((_ ← beforeCgroups w child p; _ ← enterCgroups w p;
             afterCgroups w child p) (setnsStartedSt w child)) as [r0 s1].
  cbv zeta in H. simpl in Hinv. injection H as <- <-.
  assert (Hlast : ∀ s2, Call op res ∈ trace (addEvent (Call CloseParentSock
                          (w (trace s2) CloseParentSock)) s2) →
                        Call op res ∈ trace s2).
  { intros s2 Hin2. simpl in Hin2. apply elem_of_app in Hin2 as [?|Hin2]; [done|].
    apply list_elem_of_singleton in Hin2. injection Hin2 as -> _. discriminate. }
  apply Hlast in Hin.
  destruct r0 as [[]|e|].
  - exfalso. simpl in Hin. apply Hinv in Hin. congruence.
  - split; [by eexists|].
    revert Hin.
    unfold setnsRollback, mbind, M_bind, try, setnsTerminate, mbind, M_bind, get,
      try, setnsWait, call.
    destruct (cmdProcess s1) as [c|]; simpl.
    + repeat (match goal with
              | |- context [w ?t ?o] => destruct (w t o); simpl
              end);
        intros Hin; rewrite <- ?app_assoc in Hin;
        (apply elem_of_app in Hin as [Hin|Hin];
         [apply Hinv in Hin; congruence|]);
        (apply elem_of_cons in Hin as [[= -> _]|Hin]; [by eexists|]);
        (apply elem_of_cons in Hin as [[= -> _]|Hin]; [discriminate Hop|]);
        by apply elem_of_nil in Hin.
    + intros Hin. apply Hinv in Hin. congruence.
  - exfalso. simpl in Hin. apply Hinv in Hin. congruence.
Qed.

End SetnsProperties.

(** ** The further properties at concrete inputs *)

Lemma ConvertSpec_completes_namespaces_witness :
  ∃ a b spec' g',
    ConvertSpec sampleHost noMgr sampleFs (sampleSpec false ["/sbin/init"] "")
      initGlobals = Ok (a, b, spec', g') ∧
    ∃ l l' added,
      Spec_Linux (sampleSpec false ["/sbin/init"] "") = Some l ∧
      Spec_Linux spec' = Some l' ∧
      requiredNamespaces ⊆ nsTypes l ∧
      Namespaces l' = map (usernsOverride noMgr) (Namespaces l ++ map newNs added) ∧
      nsTypes l' = nsTypes l ++ added ∧
      NoDup added ∧
      (∀ t, t ∈ added ↔ t ∈ allNamespaces ∧ t ∉ nsTypes l) ∧
      (∀ t, t ∈ allNamespaces → t ∈ nsTypes l').
Proof.
  eexists _, _, _, _. split.
  - vm_compute. reflexivity.
  - refine (ConvertSpec_completes_namespaces sampleHost noMgr sampleFs
              (sampleSpec false ["/sbin/init"] "") initGlobals _ _ _ _ _ _).
    + intros X. reflexivity.
    + vm_compute. reflexivity.
Defined.

Lemma ConvertSpec_missing_namespace_witness :
  cfgNamespaces sampleHost noMgr noPidSpec
    = Err (ErrStr "container spec missing namespaces") ∧
  ConvertSpec sampleHost noMgr sampleFs noPidSpec initGlobals =
    Err (ErrCause "invalid namespace config"
           (ErrStr "container spec missing namespaces")).
Proof.
  refine (ConvertSpec_missing_namespace sampleHost noMgr sampleFs noPidSpec
            initGlobals _ "pid" _ eq_refl _ _).
  - vm_compute. reflexivity.
  - unfold requiredNamespaces. constructor.
  - vm_compute. intros Hin.
    repeat (apply elem_of_cons in Hin as [Hin|Hin]; [discriminate|]).
    by apply elem_of_nil in Hin.
Defined.

Lemma ConvertSpec_userns_override_witness :
  ∃ a b spec' g',
    ConvertSpec sampleHost sampleMgr sampleFs (sampleSpec false ["/bin/sh"] "")
      initGlobals = Ok (a, b, spec', g') ∧
    ∃ l l' added,
      Spec_Linux (sampleSpec false ["/bin/sh"] "") = Some l ∧
      Spec_Linux spec' = Some l' ∧
      length (Namespaces l') = length (Namespaces l ++ map newNs added) ∧
      (Mgr_Enabled sampleMgr = true → Mgr_Userns sampleMgr ≠ "" →
         ∀ i ns, (Namespaces l ++ map newNs added) !! i = Some ns →
           Namespaces l' !! i =
             Some (if bool_decide (Namespace_Type ns = UserNamespace)
                   then {| Namespace_Type := UserNamespace;
                           Namespace_Path := Mgr_Userns sampleMgr |}
                   else ns)) ∧
      (Mgr_Enabled sampleMgr = false ∨ Mgr_Userns sampleMgr = "" →
         Namespaces l' = Namespaces l ++ map newNs added).
Proof.
  eexists _, _, _, _. split.
  - vm_compute. reflexivity.
  - refine (ConvertSpec_userns_override sampleHost sampleMgr sampleFs
              (sampleSpec false ["/bin/sh"] "") initGlobals _ _ _ _ _).
    vm_compute. reflexivity.
Defined.

(** With the sample manager the added user namespace joins the manager's
    one. *)
Example ConvertSpec_userns_sample :
  ∃ a b spec' g' l',
    ConvertSpec sampleHost sampleMgr sampleFs (sampleSpec false ["/bin/sh"] "")
      initGlobals = Ok (a, b, spec', g') ∧
    Spec_Linux spec' = Some l' ∧
    {| Namespace_Type := "user"; Namespace_Path := "/proc/7/ns/user" |}
      ∈ Namespaces l' ∧
    newNs "cgroup" ∈ Namespaces l'.
Proof.
  eexists _, _, _, _, _. split; [vm_compute; reflexivity|].
  split; [reflexivity|]. split; apply list_elem_of_In; vm_compute; tauto.
Qed.

Lemma cfgIDMappings_idempotent_witness :
  ∃ spec',
    cfgIDMappings noMgr splitMappingSpec = Ok spec' ∧
    cfgIDMappings noMgr spec' = Ok spec'.
Proof.
  eexists. split.
  - vm_compute. reflexivity.
  - refine (cfgIDMappings_idempotent noMgr splitMappingSpec _ eq_refl _).
    vm_compute. reflexivity.
Defined.

Lemma ConvertSpec_single_range_witness :
  ∃ a b spec' g',
    ConvertSpec sampleHost noMgr sampleFs (sampleSpec false ["/bin/sh"] "")
      initGlobals = Ok (a, b, spec', g') ∧
    ∃ l l',
      Spec_Linux (sampleSpec false ["/bin/sh"] "") = Some l ∧
      Spec_Linux spec' = Some l' ∧
      singleRange l' ∧
      (UIDMappings l = [] → GIDMappings l = [] →
         UIDMappings l' = [uidRange 0 231072 65536] ∧
         GIDMappings l' = [uidRange 0 231072 65536]).
Proof.
  eexists _, _, _, _. split.
  - vm_compute. reflexivity.
  - refine (ConvertSpec_single_range sampleHost noMgr sampleFs
              (sampleSpec false ["/bin/sh"] "") initGlobals _ _ _ _ eq_refl _).
    vm_compute. reflexivity.
Defined.

Lemma cfgIDMappings_manager_allocation_witness :
  cfgIDMappings sampleMgr (sampleSpec false ["/bin/sh"] "") =
    Ok (setLinux (sampleSpec false ["/bin/sh"] "")
          (setIDMappings (sampleLinux "") [uidRange 0 165536 65536]
                                          [uidRange 0 165536 65536])).
Proof.
  refine (proj1 (cfgIDMappings_manager_allocation sampleMgr
                   (sampleSpec false ["/bin/sh"] "") (sampleLinux "")
                   eq_refl eq_refl eq_refl eq_refl eq_refl eq_refl)
            165536 165536 _).
  reflexivity.
Defined.

Lemma ConvertSpec_capabilities_witness :
  ∃ a b spec' g',
    ConvertSpec sampleHost noMgr sampleFs (sampleSpec false ["/sbin/init"] "")
      initGlobals = Ok (a, b, spec', g') ∧
    ∃ p p' c',
      Spec_Process (sampleSpec false ["/sbin/init"] "") = Some p ∧
      Spec_Process spec' = Some p' ∧
      Process_Args p' = Process_Args p ∧ Process_User p' = Process_User p ∧
      ApparmorProfile p' = "" ∧
      Capabilities p' = Some c' ∧ Bounding c' = linuxCaps ∧
      (UID (Process_User p) = 0 →
         Effective c' = linuxCaps ∧ Inheritable c' = linuxCaps ∧
         Permitted c' = linuxCaps ∧ Ambient c' = linuxCaps) ∧
      (UID (Process_User p) ≠ 0 →
         Effective c' = [] ∧ Inheritable c' = [] ∧
         Permitted c' = [] ∧ Ambient c' = []).
Proof.
  eexists _, _, _, _. split.
  - vm_compute. reflexivity.
  - refine (ConvertSpec_capabilities sampleHost noMgr sampleFs
              (sampleSpec false ["/sbin/init"] "") initGlobals _ _ _ _ _).
    vm_compute. reflexivity.
Defined.

Lemma ConvertSpec_oom_score_witness :
  ∃ a b spec' g',
    ConvertSpec sampleHost noMgr sampleFs (sampleSpec false ["/sbin/init"] "")
      initGlobals = Ok (a, b, spec', g') ∧
    ∃ p p',
      Spec_Process (sampleSpec false ["/sbin/init"] "") = Some p ∧
      Spec_Process spec' = Some p' ∧
      OOMScoreAdj p' = Z.max (-999) <$> OOMScoreAdj p ∧
      (∀ adj, OOMScoreAdj p' = Some adj → -999 ≤ adj) ∧
      (OOMScoreAdj p' = None ↔ OOMScoreAdj p = None).
Proof.
  eexists _, _, _, _. split.
  - vm_compute. reflexivity.
  - refine (ConvertSpec_oom_score sampleHost noMgr sampleFs
              (sampleSpec false ["/sbin/init"] "") initGlobals _ _ _ _ _).
    vm_compute. reflexivity.
Defined.

(** The sample process asks for -1000 and gets -999. *)
Example ConvertSpec_oom_sample :
  ∃ a b spec' g' p',
    ConvertSpec sampleHost noMgr sampleFs (sampleSpec false ["/sbin/init"] "")
      initGlobals = Ok (a, b, spec', g') ∧
    Spec_Process spec' = Some p' ∧ OOMScoreAdj p' = Some (-999).
Proof.
  eexists _, _, _, _, _. split; [vm_compute; reflexivity|].
  split; reflexivity.
Qed.

Lemma ConvertSpec_systemd_env_witness :
  ∃ a b spec' g',
    ConvertSpec sampleHost noMgr sampleFs (sampleSpec false ["/sbin/init"] "")
      initGlobals = Ok (a, b, spec', g') ∧
    ∃ p p' arg0,
      Spec_Process (sampleSpec false ["/sbin/init"] "") = Some p ∧
      Spec_Process spec' = Some p' ∧
      Process_Args p !! 0%nat = Some arg0 ∧
      Env p' =
        if bool_decide (arg0 = "/sbin/init")
        then List.filter
               (λ v, negb (bool_decide (envName sampleHost v
                                        = Some "container=private-users")))
               (Env p)
             ++ ["container=private-users"]
        else Env p.
Proof.
  eexists _, _, _, _. split.
  - vm_compute. reflexivity.
  - refine (ConvertSpec_systemd_env sampleHost noMgr sampleFs
              (sampleSpec false ["/sbin/init"] "") initGlobals _ _ _ _
              "container=private-users" "" eq_refl _).
    vm_compute. reflexivity.
Defined.

Lemma cfgSystemdEnv_idempotent_witness :
  cfgSystemdEnv sampleHost (cfgSystemdEnv sampleHost (sampleProcess ["/sbin/init"]))
  = cfgSystemdEnv sampleHost (sampleProcess ["/sbin/init"]).
Proof.
  exact (cfgSystemdEnv_idempotent sampleHost (sampleProcess ["/sbin/init"])
           "container=private-users" "" eq_refl).
Defined.

Lemma cfgSysboxMounts_replaces_conflicts_witness :
  ∃ spec' g',
    cfgSysboxMounts (mountsSpec false) initGlobals = Ok (spec', g') ∧
    ∃ kept,
      Mounts spec' = kept ++ sysboxMounts g' ∧
      sublist kept (Mounts (mountsSpec false)) ∧
      (∀ m, m ∈ kept ↔
            m ∈ Mounts (mountsSpec false) ∧
            Utils.HasPrefix (Destination m) "/sys/fs/cgroup/" = false ∧
            Destination m ∉ destinations (sysboxMounts initGlobals)) ∧
      destinations (sysboxMounts g') = destinations (sysboxMounts initGlobals) ∧
      (∀ m, m ∈ kept → Destination m ∉ destinations (sysboxMounts g')).
Proof.
  eexists _, _. split.
  - vm_compute. reflexivity.
  - refine (cfgSysboxMounts_replaces_conflicts (mountsSpec false) initGlobals _ _ _).
    vm_compute. reflexivity.
Defined.

(** Of the six mounts of the sample spec, the ones on /proc and under
    /sys/fs/cgroup/ are dropped; then, under systemd, the bind mount on /run
    gives way to the sysbox tmpfs while the tmpfs on /run/lock stays and the
    sysbox mount for /run/lock is left out. *)
Example cfgMounts_conflicts_sample :
  ∃ spec' g',
    cfgMounts sampleHost noMgr noFs (mountsSpec false) initGlobals false
      = Ok (spec', g') ∧
    map Destination (Mounts spec') =
      ["/var/lib/docker"; "/run/lock"; "/data";
       "/sys"; "/sys/fs/cgroup"; "/sys/kernel/config"; "/sys/kernel/debug";
       "/sys/kernel/tracing"; "/proc"; "/dev"; "/dev/kmsg"; "/run"] ∧
    map Destination (sysboxSystemdMounts g') = ["/run"].
Proof.
  eexists _, _. split; [vm_compute; reflexivity|]. split; reflexivity.
Qed.

Lemma ConvertSpec_readonly_loses_proc_sys_witness :
  ∃ a b spec' g',
    ConvertSpec sampleHost noMgr sampleFs (sampleSpec true ["/bin/sh"] "")
      initGlobals = Ok (a, b, spec', g') ∧
    (∃ spec1 spec2 spec3 l3,
       cfgNamespaces sampleHost noMgr (sampleSpec true ["/bin/sh"] "") = Ok spec1 ∧
       cfgIDMappings noMgr spec1 = Ok spec2 ∧
       cfgMounts sampleHost noMgr sampleFs spec2 initGlobals b = Ok (spec3, g') ∧
       Spec_Linux spec3 = Some l3 ∧
       "/proc/sys" ∈ ReadonlyPaths l3) ∧
    ∃ m' l' p' arg0,
      m' ∈ Mounts spec' ∧ m' ∈ sysboxFsMounts g' ∧
      Destination m' = "/proc/sys" ∧ Options m' = ["rbind"; "rprivate"] ∧
      Spec_Linux spec' = Some l' ∧
      "/proc/sys" ∉ ReadonlyPaths l' ∧
      Spec_Process spec' = Some p' ∧ Process_Args p' !! 0%nat = Some arg0 ∧
      ∀ m2, m2 ∈ sysboxFsMounts initGlobals →
            Destination m2 ∉ sysboxRwPaths →
            (arg0 = "/sbin/init" → Destination m2 ∉ sysboxSystemdRwPaths) →
            Destination m2 ∈ ReadonlyPaths l'.
Proof.
  eexists _, _, _, _. split.
  - vm_compute. reflexivity.
  - refine (ConvertSpec_readonly_loses_proc_sys sampleHost noMgr sampleFs
              (sampleSpec true ["/bin/sh"] "") initGlobals _ _ _ _
              {| Root_Path := "/rootfs"; Readonly := true |}
              (mkMount "/proc/sys" "/var/lib/sysboxfs/proc/sys" "bind"
                 ["rbind"; "rprivate"])
              _ _ eq_refl eq_refl eq_refl _ eq_refl _).
    + intros l. reflexivity.
    + vm_compute. reflexivity.
    + apply list_elem_of_In. vm_compute. tauto.
    + refine (bool_decide_unpack _ _). vm_compute. exact I.
Defined.

Lemma sysMgrSetupMounts_spec_priority_witness :
  ∃ spec',
    sysMgrSetupMounts sampleHost sampleMgr (mountsSpec true) false = Ok spec' ∧
    ∃ root rootPath l uidMap gidMap reqList ms added,
      Spec_Root (mountsSpec true) = Some root ∧
      Abs sampleHost (Root_Path root) = Ok rootPath ∧
      Spec_Linux (mountsSpec true) = Some l ∧
      UIDMappings l !! 0%nat = Some uidMap ∧ GIDMappings l !! 0%nat = Some gidMap ∧
      ReqMounts sampleMgr rootPath (HostID uidMap) (HostID gidMap) false reqList
        = Ok ms ∧
      Mounts spec' = Mounts (mountsSpec true) ++ added ∧
      let kept :=
        filter (λ m, Destination m ∉ destinations (Mounts (mountsSpec true))) ms in
      (Readonly root = false → added = kept) ∧
      (Readonly root = true →
         Forall2 (λ m' m,
                    Destination m' = Destination m ∧ Source m' = Source m ∧
                    Mount_Type m' = Mount_Type m ∧
                    Options m' = filter (λ o, o ≠ "rw") (Options m) ++ ["ro"])
                 added kept) ∧
      (∀ m, m ∈ added → Destination m ∉ destinations (Mounts (mountsSpec true))) ∧
      (Readonly root = true →
         ∀ m, m ∈ added → "ro" ∈ Options m ∧ "rw" ∉ Options m).
Proof.
  eexists. split.
  - vm_compute. reflexivity.
  - refine (sysMgrSetupMounts_spec_priority sampleHost sampleMgr (mountsSpec true)
              false _ _).
    vm_compute. reflexivity.
Defined.

(** Of the two mounts of the sample manager, the one on /data loses to the
    mount of the spec, and the one on /var/lib/kubelet is appended,
    read-only on a read-only rootfs. *)
Example sysMgrSetupMounts_sample :
  ∃ spec',
    sysMgrSetupMounts sampleHost sampleMgr (mountsSpec true) false = Ok spec' ∧
    drop 6 (Mounts spec') =
      [mkMount "/var/lib/kubelet" "/var/lib/sysbox/kubelet/c1" "bind"
         ["rbind"; "ro"]].
Proof. eexists. split; [vm_compute; reflexivity|reflexivity]. Qed.

Lemma sysMgrSetupMounts_requests_witness :
  ∃ spec',
    sysMgrSetupMounts sampleHost sampleMgr (mountsSpec true) false = Ok spec' ∧
    ∃ rootPath uid gid reqList ms,
      ReqMounts sampleMgr rootPath uid gid false reqList = Ok ms ∧
      NoDup reqList ∧
      ∀ d k, {| Kind := k; Dest := d |} ∈ reqList ↔
             specialDirs !! d = Some k ∧
             ¬ ∃ m, m ∈ Mounts (mountsSpec true) ∧ Mount_Type m = "bind"
                    ∧ Destination m = d.
Proof.
  eexists. split.
  - vm_compute. reflexivity.
  - refine (sysMgrSetupMounts_requests sampleHost sampleMgr (mountsSpec true)
              false _ _ _).
    + intros X. reflexivity.
    + vm_compute. reflexivity.
Defined.


(** After the conversion of a spec with a read-only rootfs, the conversion
    of a spec with a read-write rootfs mounts [/sys] read-only. *)
Example ConvertSpec_readonly_sticks_sample :
  ∃ a1 b1 spec1' g1 a2 b2 spec2' g2,
    ConvertSpec sampleHost noMgr noFs (sampleSpec true ["/bin/sh"] "") initGlobals
      = Ok (a1, b1, spec1', g1) ∧
    ConvertSpec sampleHost noMgr noFs (sampleSpec false ["/bin/sh"] "") g1
      = Ok (a2, b2, spec2', g2) ∧
    mkMount "/sys" "sysfs" "sysfs" ["noexec"; "nosuid"; "nodev"; "ro"]
      ∈ Mounts spec2'.
Proof.
  eexists _, _, _, _, _, _, _, _. split; [vm_compute; reflexivity|].
  split; [vm_compute; reflexivity|].
  apply list_elem_of_In. vm_compute. tauto.
Qed.

Lemma ConvertSpec_injects_tables_witness :
  ∃ a b spec' g',
    ConvertSpec sampleHost noMgr sampleFs (sampleSpec false ["/sbin/init"] "")
      initGlobals = Ok (a, b, spec', g') ∧
    ∃ p arg0,
      Spec_Process (sampleSpec false ["/sbin/init"] "") = Some p ∧
      Process_Args p !! 0%nat = Some arg0 ∧
      let systemdOk (m : Mount) :=
        arg0 = "/sbin/init" →
        Mount_Type m = "tmpfs" ∨
        Destination m ∉ destinations (sysboxSystemdMounts initGlobals) in
      (∀ m, m ∈ sysboxMounts g' →
            (Fs_Enabled sampleFs = true →
               Destination m ∉ destinations (sysboxFsMounts initGlobals)) →
            systemdOk m → m ∈ Mounts spec') ∧
      (Fs_Enabled sampleFs = true →
         ∀ m, m ∈ sysboxFsMounts g' → systemdOk m → m ∈ Mounts spec') ∧
      (arg0 = "/sbin/init" →
         ∀ m, m ∈ sysboxSystemdMounts g' → m ∈ Mounts spec').
Proof.
  eexists _, _, _, _. split.
  - vm_compute. reflexivity.
  - refine (ConvertSpec_injects_tables sampleHost noMgr sampleFs
              (sampleSpec false ["/sbin/init"] "") initGlobals _ _ _ _ _ _).
    + intros l. reflexivity.
    + vm_compute. reflexivity.
Defined.

Lemma cfgSysboxFsMounts_sources_witness :
  ∃ spec' g',
    cfgSysboxFsMounts sampleHost sampleFs (sampleSpec false ["/bin/sh"] "")
      initGlobals = Ok (spec', g') ∧
    SysboxFsDir g' = Mountpoint sampleFs ∧
    length (sysboxFsMounts g') = length (sysboxFsMounts initGlobals) ∧
    ∀ i m rest,
      sysboxFsMounts initGlobals !! i = Some m →
      Source m = SysboxFsDir initGlobals +:+ rest →
      sysboxFsMounts g' !! i =
        Some (setSource m (Join sampleHost (Mountpoint sampleFs) (Id sampleFs)
                           +:+ rest)).
Proof.
  eexists _, _. split.
  - vm_compute. reflexivity.
  - refine (cfgSysboxFsMounts_sources sampleHost sampleFs
              (sampleSpec false ["/bin/sh"] "") initGlobals _ _ _).
    vm_compute. reflexivity.
Defined.

Lemma cfgSysboxFsMounts_second_conversion_witness :
  ∃ s1 g1 s2 g2,
    cfgSysboxFsMounts sampleHost sampleFs (sampleSpec false ["/bin/sh"] "")
      initGlobals = Ok (s1, g1) ∧
    cfgSysboxFsMounts sampleHost
      {| Fs_Enabled := true; Mountpoint := "/var/lib/sysboxfs"; Id := "c2" |}
      (sampleSpec false ["/bin/sh"] "") g1 = Ok (s2, g2) ∧
    ∀ i m rest,
      sysboxFsMounts initGlobals !! i = Some m →
      Source m = SysboxFsDir initGlobals +:+ rest →
      sysboxFsMounts g2 !! i =
        Some (setSource m
                (Join sampleHost "/var/lib/sysboxfs" "c2" +:+ "/" +:+ "c1" +:+ rest)).
Proof.
  eexists _, _, _, _. split; [vm_compute; reflexivity|].
  split; [vm_compute; reflexivity|].
  refine (cfgSysboxFsMounts_second_conversion sampleHost sampleFs
            {| Fs_Enabled := true; Mountpoint := "/var/lib/sysboxfs"; Id := "c2" |}
            (sampleSpec false ["/bin/sh"] "") (sampleSpec false ["/bin/sh"] "")
            initGlobals _ _ _ _ eq_refl _ _).
  - vm_compute. reflexivity.
  - vm_compute. reflexivity.
Defined.

(** The source of /proc/sys after the conversions for the containers c1
    and then c2. *)
Example cfgSysboxFsMounts_second_sample :
  ∃ s1 g1 s2 g2,
    cfgSysboxFsMounts sampleHost sampleFs (sampleSpec false ["/bin/sh"] "")
      initGlobals = Ok (s1, g1) ∧
    cfgSysboxFsMounts sampleHost
      {| Fs_Enabled := true; Mountpoint := "/var/lib/sysboxfs"; Id := "c2" |}
      (sampleSpec false ["/bin/sh"] "") g1 = Ok (s2, g2) ∧
    Source <$> sysboxFsMounts g1 !! 0%nat = Some "/var/lib/sysboxfs/c1/proc/sys" ∧
    Source <$> sysboxFsMounts g2 !! 0%nat = Some "/var/lib/sysboxfs/c2/c1/proc/sys".
Proof.
  eexists _, _, _, _. split; [vm_compute; reflexivity|].
  split; [vm_compute; reflexivity|]. split; reflexivity.
Qed.

Lemma checkSpec_edges_witness :
  checkSpec sampleHost noRootSpec = Err (ErrStr "not a linux container spec") ∧
  ConvertSpec sampleHost noMgr sampleFs noRootSpec initGlobals =
    Err (ErrCause "invalid or unsupported container spec"
           (ErrStr "not a linux container spec")).
Proof.
  refine (proj1 (checkSpec_edges sampleHost noMgr sampleFs noRootSpec initGlobals) _).
  left. reflexivity.
Defined.

Lemma checkSpec_stat_errors_witness :
  checkSpec statFails (sampleSpec false ["/bin/sh"] "/proc/1/ns/net") =
    Err (ErrCause "unable to stat sysbox's network namespace" (ErrErrno EACCES)).
Proof.
  refine (proj1 (checkSpec_stat_errors statFails
            (sampleSpec false ["/bin/sh"] "/proc/1/ns/net")
            {| Root_Path := "/rootfs"; Readonly := false |}
            (sampleLinux "/proc/1/ns/net")
            [newNs "pid"; newNs "ipc"; newNs "uts"; newNs "mount"]
            {| Namespace_Type := "network"; Namespace_Path := "/proc/1/ns/net" |}
            [] eq_refl eq_refl eq_refl _ eq_refl _) (ErrErrno EACCES) _).
  - intros n Hn [Ht _].
    repeat (apply elem_of_cons in Hn as [->|Hn]; [discriminate|]).
    by apply elem_of_nil in Hn.
  - discriminate.
  - reflexivity.
Defined.

Lemma cfgSeccomp_blacklist_keeps_outside_diff_witness :
  ∃ s',
    cfgSeccomp sampleWhitelist ["clone"] elements (Some (denyProfile ["kexec_load"]))
      = Ok (Some s') ∧
    DefaultAction s' = ActAllow ∧
    Architectures s' = Architectures (denyProfile ["kexec_load"]) ∧
    sublist (Action <$> Syscalls s')
            (Action <$> Syscalls (denyProfile ["kexec_load"])) ∧
    (∀ act n, underAction act (Syscalls s') n →
              underAction act (Syscalls (denyProfile ["kexec_load"])) n) ∧
    (∀ act n, underAction act (Syscalls (denyProfile ["kexec_load"])) n →
       n ∈ sampleWhitelist
       ∨ ¬ (underAction ActErrno (Syscalls (denyProfile ["kexec_load"])) n
            ∨ underAction ActKill (Syscalls (denyProfile ["kexec_load"])) n) →
       underAction act (Syscalls s') n).
Proof.
  eexists. split.
  - vm_compute. reflexivity.
  - refine (cfgSeccomp_blacklist_keeps_outside_diff sampleWhitelist ["clone"]
              elements (denyProfile ["kexec_load"]) _ _ eq_refl _).
    + simpl. constructor.
    + vm_compute. reflexivity.
Defined.

(** A blacklist that denies [mount] (on the whitelist) and [kexec_load]
    (not on it), and allows [read]: only [kexec_load] goes. *)
Example cfgSeccomp_blacklist_mixed :
  ∃ s',
    cfgSeccomp sampleWhitelist ["clone"] elements (Some mixedProfile) = Ok (Some s') ∧
    map (λ sc, (names sc, Action sc)) (Syscalls s') =
      [(["mount"], ActErrno); (["read"], ActAllow)].
Proof. eexists. split; [vm_compute; reflexivity|reflexivity]. Qed.

Lemma cfgSeccomp_untouched_or_refused_witness :
  cfgSeccomp sampleWhitelist ["clone"] elements (Some armTrapProfile)
    = Ok (Some armTrapProfile).
Proof.
  refine (proj1 (proj2 (cfgSeccomp_untouched_or_refused sampleWhitelist ["clone"]
                          elements armTrapProfile)) _).
  vm_compute. intros Hin.
  repeat (apply elem_of_cons in Hin as [Hin|Hin]; [discriminate|]).
  by apply elem_of_nil in Hin.
Defined.

Lemma start_cleanup_only_on_error_witness :
  ∃ r s',
    start sendConfigFails sampleChild sampleInit initSt = (r, s') ∧
    Call CgroupDestroy None ∈ trace s' ∧
    sendConfigFails [] CmdStart = None ∧ ∃ e, r = Err e.
Proof.
  eexists _, _. split; [vm_compute; reflexivity|].
  assert (Hin : Call CgroupDestroy None
                ∈ trace (start sendConfigFails sampleChild sampleInit initSt).2).
  { apply list_elem_of_In. vm_compute. tauto. }
  split; [exact Hin|].
  refine (start_cleanup_only_on_error sendConfigFails sampleChild sampleInit
            _ _ CgroupDestroy None _ Hin eq_refl).
  vm_compute. reflexivity.
Defined.

Lemma start_success_state_witness :
  ∃ s',
    start calmWorld sampleChild sampleInit initSt = (Ok (), s') ∧
    containerCreated s' = true ∧ Call UpdateState None ∈ trace s' ∧
    cmdProcess s' = Some (PidFinal sampleChild) ∧ opsSet s' = true ∧
    length (fds s') = 3%nat.
Proof.
  eexists. split.
  - vm_compute. reflexivity.
  - refine (start_success_state calmWorld sampleChild sampleInit _ _).
    vm_compute. reflexivity.
Defined.

Lemma start_hooks_after_message_witness :
  ∃ r s' before after,
    start calmWorld sampleChild sampleInit initSt = (r, s') ∧
    trace s' = before ++ Call (RunHooks Prestart 102) None :: after ∧
    hasHooks sampleInit = true ∧ 102 = PidFinal sampleChild ∧
    (lastRecv before = Some procHooks ∨
     (newMountNs sampleInit = false ∧ lastRecv before = Some procReady)).
Proof.
  exists (start calmWorld sampleChild sampleInit initSt).1,
         (start calmWorld sampleChild sampleInit initSt).2,
         (take 28%nat (trace (start calmWorld sampleChild sampleInit initSt).2)),
         (drop 29%nat (trace (start calmWorld sampleChild sampleInit initSt).2)).
  assert (Htr : trace (start calmWorld sampleChild sampleInit initSt).2 =
                take 28%nat (trace (start calmWorld sampleChild sampleInit initSt).2)
                ++ Call (RunHooks Prestart 102) None
                   :: drop 29%nat
                        (trace (start calmWorld sampleChild sampleInit initSt).2)).
  { vm_compute. reflexivity. }
  split; [apply surjective_pairing|].
  split; [exact Htr|].
  refine (start_hooks_after_message calmWorld sampleChild sampleInit
            _ _ _ _ Prestart 102 None _ Htr).
  apply surjective_pairing.
Defined.

Lemma start_registration_witness :
  ∃ r s' info,
    start calmWorld sampleChild sampleInit initSt = (r, s') ∧
    Call (Register info) None ∈ trace s' ∧
    sysFsEnabled sampleInit = true ∧
    ∃ u g,
      config_UidMappings sampleInit !! 0%nat = Some u ∧
      config_GidMappings sampleInit !! 0%nat = Some g ∧
      info = regInfo sampleInit (PidFinal sampleChild) u g ∧
      (∀ x, x ∈ ProcRoPaths info ↔
            x ∈ config_ReadonlyPaths sampleInit ∧ Utils.HasPrefix x "/proc" = true) ∧
      (∀ x, x ∈ ProcMaskPaths info ↔
            x ∈ config_MaskPaths sampleInit ∧ Utils.HasPrefix x "/proc" = true).
Proof.
  exists (start calmWorld sampleChild sampleInit initSt).1,
         (start calmWorld sampleChild sampleInit initSt).2,
         (regInfo sampleInit 102 (uidRange 0 231072 65536) (uidRange 0 231072 65536)).
  assert (Hin : Call (Register (regInfo sampleInit 102 (uidRange 0 231072 65536)
                                  (uidRange 0 231072 65536))) None
                ∈ trace (start calmWorld sampleChild sampleInit initSt).2).
  { apply list_elem_of_In. vm_compute. tauto. }
  split; [apply surjective_pairing|].
  split; [exact Hin|].
  refine (start_registration calmWorld sampleChild sampleInit _ _ _ None _ Hin).
  apply surjective_pairing.
Defined.

(** On the sample configuration the registration names the final child
    (pid 102), the host id 231072, and of the paths only the ones under
    /proc. *)
Example start_registration_sample :
  ∃ s',
    start calmWorld sampleChild sampleInit initSt = (Ok (), s') ∧
    Call (Register {| Hostname := "syscont"; Pid := 102; Uid := 231072;
                      Gid := 231072; IdSize := 65536;
                      ProcRoPaths := ["/proc/bus"];
                      ProcMaskPaths := ["/proc/keys"] |}) None ∈ trace s'.
Proof.
  eexists. split; [vm_compute; reflexivity|].
  apply list_elem_of_In. vm_compute. tauto.
Qed.

(** The external descriptors when the link of descriptor 1 cannot be read
    for lack of permission: its entry stays empty. *)
Example getPipeFds_permission_sample :
  (getPipeFds (λ _ op, match op with
                       | Readlink _ 1 => Some (ErrErrno EACCES)
                       | _ => None
                       end) sampleChild 102 initSt).1
  = Ok ["/dev/null"; ""; "/dev/null"].
Proof. vm_compute. reflexivity. Qed.

Lemma setnsStart_kill_only_on_error_witness :
  ∃ r s',
    setnsStart sendConfigFails quietChild sampleSetns initSt = (r, s') ∧
    Call (Kill 102) None ∈ trace s' ∧
    sendConfigFails [] CmdStart = None ∧ (∃ e, r = Err e) ∧ ∃ c, Kill 102 = Kill c.
Proof.
  eexists _, _. split; [vm_compute; reflexivity|].
  assert (Hin : Call (Kill 102) None
                ∈ trace (setnsStart sendConfigFails quietChild sampleSetns initSt).2).
  { apply list_elem_of_In. vm_compute. tauto. }
  split; [exact Hin|].
  refine (setnsStart_kill_only_on_error sendConfigFails quietChild sampleSetns
            _ _ (Kill 102) None _ Hin eq_refl).
  vm_compute. reflexivity.
Defined.

(** A child of a setns launch that sends [procReady] makes the parent
    panic; the child is not killed. *)
Example setnsStart_procReady_panics :
  ∃ s',
    setnsStart calmWorld readyChild sampleSetns initSt = (Panic, s') ∧
    ∀ c r, Call (Kill c) r ∉ trace s'.
Proof.
  eexists. split; [vm_compute; reflexivity|].
  intros c r Hin. simpl in Hin.
  repeat (apply elem_of_cons in Hin as [Hin|Hin]; [discriminate|]).
  by apply elem_of_nil in Hin.
Qed.

Lemma needUidShiftOnRootfs_decides_witness :
  needUidShiftOnRootfs (λ _, Ok (Some (0, 0))) splitMappingSpec = Ok true.
Proof.
  refine (proj1 (proj1 (needUidShiftOnRootfs_decides (λ _, Ok (Some (0, 0)))
                          splitMappingSpec _
                          {| Root_Path := "/rootfs"; Readonly := false |}
                          eq_refl eq_refl) 0 0 eq_refl)).
Defined.

(** The third pipe cannot be opened: the four descriptors of the first two
    are closed and the error is returned. *)
Example InitializeIO_third_pipe_fails :
  ProcessIO.InitializeIO thirdPipeFails noFiles 231072 231072 =
    (Err (ErrErrno EIO),
     {| ProcessIO.Stdin := Some 3; ProcessIO.Stdout := Some 6;
        ProcessIO.Stderr := None |},
     [ProcessIO.PipeOk 3 4; ProcessIO.PipeOk 5 6; ProcessIO.PipeErr (ErrErrno EIO);
      ProcessIO.Close 3; ProcessIO.Close 4; ProcessIO.Close 5; ProcessIO.Close 6]).
Proof. vm_compute. reflexivity. Qed.
